(** * pandas-hierarchy: a shallow embedding of [hierarchy.py]

    The [Hierarchy] class keeps a parent/child tree in pandas DataFrames and
    offers [expand], [add_to_def_df] and [wrap_in_def_df] on top of it.  The
    development has three layers:

    - [Pandas]: the handful of DataFrame operations the class chains
      together (merge, melt, query, dropna, sort_values, ...), on tables whose
      rows are association lists from column label to cell;
    - [Nx]: the directed graph built by [from_pandas_edgelist] and
      [shortest_path];
    - the class itself, method by method, in an error monad that
      keeps the Python exceptions apart. *)

From Stdlib Require Import String Ascii ZArith Lia Bool Arith List.
From Stdlib Require Import Permutation Sorted DecimalString.
Import ListNotations.
Open Scope string_scope.
Open Scope list_scope.

(** ** Exceptions *)

Inductive exn : Type :=
| KeyError
| ValueError
| AttributeError
| TypeError
| NodeNotFound
| NetworkXNoPath.

Inductive result (A : Type) : Type :=
| Ok (a : A)
| Raise (e : exn).
Arguments Ok {A} a.
Arguments Raise {A} e.

Definition bind {A B : Type} (m : result A) (k : A -> result B) : result B :=
  match m with
  | Ok a => k a
  | Raise e => Raise e
  end.

Notation "x <- m ;; k" := (bind m (fun x => k))
  (at level 61, m at next level, right associativity).
Notation "'check' b 'else_raise' e ;; k" := (if b then k else Raise e)
  (at level 61, b at next level, e at next level, right associativity).

Definition is_ok {A : Type} (m : result A) : bool :=
  match m with Ok _ => true | Raise _ => false end.

(** ** Cells, labels and rows *)

(** A cell holds a string, an integer or the missing value (NaN / None). *)
Inductive value : Type :=
| VStr (s : string)
| VInt (z : Z)
| VNaN.

(** Column labels are strings, except in [paths_df] whose path columns are
    numbered 0, 1, 2, ... *)
Inductive label : Type :=
| LStr (s : string)
| LInt (n : nat).

Definition value_eqb (a b : value) : bool :=
  match a, b with
  | VStr s, VStr t => String.eqb s t
  | VInt x, VInt y => Z.eqb x y
  | VNaN, VNaN => true
  | _, _ => false
  end.

Definition label_eqb (a b : label) : bool :=
  match a, b with
  | LStr s, LStr t => String.eqb s t
  | LInt x, LInt y => Nat.eqb x y
  | _, _ => false
  end.

Definition isnull (v : value) : bool :=
  match v with VNaN => true | _ => false end.

Definition mem_label (c : label) (cs : list label) : bool :=
  existsb (label_eqb c) cs.

Definition mem_value (v : value) (vs : list value) : bool :=
  existsb (value_eqb v) vs.

(** A row maps the labels of its table to cells; a label that is not there
    reads as missing. *)
Definition Row : Type := list (label * value).

Fixpoint get (c : label) (r : Row) : value :=
  match r with
  | [] => VNaN
  | (c', v) :: r' => if label_eqb c c' then v else get c r'
  end.

(** The row restricted (and widened with NaN) to the labels [cs]. *)
Definition project (cs : list label) (r : Row) : Row :=
  map (fun c => (c, get c r)) cs.

(** A DataFrame: its column labels in order and its rows, each under its
    index label. *)
Record DataFrame : Type := mkDF {
  columns : list label;
  rows : list (Z * Row)
}.

Definition data (df : DataFrame) : list Row := map snd (rows df).

Definition column (c : label) (df : DataFrame) : list value :=
  map (get c) (data df).

(** A fresh RangeIndex 0 .. n-1. *)
Definition range_index (rs : list Row) : list (Z * Row) :=
  combine (map Z.of_nat (seq 0 (length rs))) rs.

(** ** The DataFrame operations used by the class *)

(** [c in df.keys()] *)
Definition has_column (c : label) (df : DataFrame) : bool :=
  mem_label c (columns df).

(** [df[[c1, ..., cn]]]: KeyError when a label is not a column. *)
Definition select (cs : list label) (df : DataFrame) : result DataFrame :=
  check forallb (fun c => has_column c df) cs else_raise KeyError ;;
  Ok (mkDF cs (map (fun ir => (fst ir, project cs (snd ir))) (rows df))).

(** [df.reindex(cs, axis=1)]: keeps the labels [cs] in that order; a label
    that is not a column yields a column of NaN. *)
Definition reindex (cs : list label) (df : DataFrame) : DataFrame :=
  mkDF cs (map (fun ir => (fst ir, project cs (snd ir))) (rows df)).

(** [df.fillna(v)]: every missing cell becomes [v]. *)
Definition fill_cell (v : value) (x : value) : value :=
  if isnull x then v else x.

Definition fillna (v : value) (df : DataFrame) : DataFrame :=
  mkDF (columns df)
       (map (fun ir => (fst ir,
                        map (fun c => (c, fill_cell v (get c (snd ir)))) (columns df)))
            (rows df)).

(** [df.replace({old: new})]: every cell equal to [old] becomes [new]. *)
Definition replace (old new : value) (df : DataFrame) : DataFrame :=
  mkDF (columns df)
       (map (fun ir => (fst ir,
                        map (fun c => (c, let x := get c (snd ir) in
                                          if value_eqb x old then new else x))
                            (columns df)))
            (rows df)).

(** [df.rename(columns={...})], the mapping given as a function on labels. *)
Definition rename_columns (f : label -> label) (df : DataFrame) : DataFrame :=
  mkDF (map f (columns df))
       (map (fun ir => (fst ir, map (fun c => (f c, get c (snd ir))) (columns df)))
            (rows df)).

Definition rename1 (old new : label) (c : label) : label :=
  if label_eqb c old then new else c.

(** [df.drop(columns=[c])]: KeyError when [c] is not a column. *)
Definition drop (c : label) (df : DataFrame) : result DataFrame :=
  check has_column c df else_raise KeyError ;;
  Ok (reindex (filter (fun c' => negb (label_eqb c' c)) (columns df)) df).

(** [df.rename(mapper)] without [columns=]: the mapper relabels the index,
    the columns stay as they are. *)
Definition rename_index (f : Z -> Z) (df : DataFrame) : DataFrame :=
  mkDF (columns df) (map (fun ir => (f (fst ir), snd ir)) (rows df)).

(** [df[c] = f(row)] / [df.assign(c=...)]: overwrites column [c] when it is
    there and appends it otherwise. *)
Definition with_column (c : label) (f : Z -> Row -> value) (df : DataFrame) : DataFrame :=
  let cs := if has_column c df then columns df else columns df ++ [c] in
  mkDF cs
       (map (fun ir => (fst ir,
                        map (fun c' => (c', if label_eqb c' c then f (fst ir) (snd ir)
                                            else get c' (snd ir))) cs))
            (rows df)).

(** [df.append(row, ignore_index=True)] for a row over the columns of [df]. *)
Definition append_row (r : Row) (df : DataFrame) : DataFrame :=
  mkDF (columns df) (range_index (map (project (columns df)) (data df ++ [r]))).

(** Boolean-mask selection [df[mask]]: index labels are kept. *)
Definition filter_rows (p : Row -> bool) (df : DataFrame) : DataFrame :=
  mkDF (columns df) (filter (fun ir => p (snd ir)) (rows df)).

(** [df.query('c != "s"')]: a missing cell differs from every string. *)
Definition query_ne (c : label) (s : string) (df : DataFrame) : DataFrame :=
  filter_rows (fun r => negb (value_eqb (get c r) (VStr s))) df.

(** [df.dropna(subset=[c])] *)
Definition dropna (c : label) (df : DataFrame) : DataFrame :=
  filter_rows (fun r => negb (isnull (get c r))) df.

(** [df.at[i, c]]: KeyError when the index label or the column is absent. *)
Fixpoint loc (i : Z) (rs : list (Z * Row)) : option Row :=
  match rs with
  | [] => None
  | (j, r) :: rs' => if Z.eqb i j then Some r else loc i rs'
  end.

Definition at_ (i : Z) (c : label) (df : DataFrame) : result value :=
  check has_column c df else_raise KeyError ;;
  match loc i (rows df) with
  | Some r => Ok (get c r)
  | None => Raise KeyError
  end.

(** ['%s' % v] *)
Definition str (v : value) : string :=
  match v with
  | VStr s => s
  | VInt z => NilZero.string_of_int (Z.to_int z)
  | VNaN => "nan"
  end.

(** The label that results from appending a merge suffix. *)
Definition add_suffix (c : label) (sfx : string) : label :=
  match c with
  | LStr s => LStr (s ++ sfx)
  | LInt n => LStr (NilZero.string_of_uint (Nat.to_uint n) ++ sfx)
  end.

(** The right-hand columns that a merge on [on] brings in. *)
Definition brought (on : label) (right : DataFrame) : list label :=
  filter (fun c => negb (label_eqb c on)) (columns right).

(** A label other than [on] found on both sides gets the side's suffix. *)
Definition left_label (on : label) (sx : string) (right : DataFrame) (c : label) : label :=
  if negb (label_eqb c on) && mem_label c (brought on right)
  then add_suffix c sx else c.

Definition right_label (sy : string) (left : DataFrame) (c : label) : label :=
  if mem_label c (columns left) then add_suffix c sy else c.

(** The merged row of a left row [l] and its match [m], if it has one. *)
Definition joined_row (on : label) (sx sy : string) (left right : DataFrame)
           (l : Row) (m : option Row) : Row :=
  map (fun c => (left_label on sx right c, get c l)) (columns left)
  ++ map (fun c => (right_label sy left c,
                    match m with Some m => get c m | None => VNaN end))
         (brought on right).

(** [left.merge(right, on=on, how='left', suffixes=(sx, sy))].
    Every left row is kept, in order; it is paired with each right row whose
    key cell is equal, or once with NaN when there is none. *)
Definition merge_left (on : label) (sx sy : string) (left right : DataFrame)
  : result DataFrame :=
  check has_column on left && has_column on right else_raise KeyError ;;
  let joined l :=
    match filter (fun m => value_eqb (get on m) (get on l)) (data right) with
    | [] => [joined_row on sx sy left right l None]
    | ms => map (fun m => joined_row on sx sy left right l (Some m)) ms
    end in
  Ok (mkDF (map (left_label on sx right) (columns left)
            ++ map (right_label sy left) (brought on right))
           (range_index (flat_map joined (data left)))).

Definition value_of_label (c : label) : value :=
  match c with
  | LStr s => VStr s
  | LInt n => VInt (Z.of_nat n)
  end.

(** [df.melt(id_vars=ids, var_name=var, value_name=val)]: every column that
    is not an id column is unpivoted, column after column; each of its
    cells becomes a row holding the id cells, the column's label under [var]
    and the cell under [val]. *)
Definition melt (ids : list label) (var val : label) (df : DataFrame)
  : result DataFrame :=
  check forallb (fun c => has_column c df) ids else_raise KeyError ;;
  let value_vars := filter (fun c => negb (mem_label c ids)) (columns df) in
  Ok (mkDF (ids ++ [var; val])
           (range_index
              (flat_map (fun c =>
                           map (fun r => project ids r
                                         ++ [(var, value_of_label c); (val, get c r)])
                               (data df))
                        value_vars))).

(** Ascending order on cells with NaN last.  Integers compare as numbers,
    strings lexicographically; a number sorts before a string. *)
Definition value_leb (a b : value) : bool :=
  match a, b with
  | _, VNaN => true
  | VNaN, _ => false
  | VInt x, VInt y => Z.leb x y
  | VInt _, VStr _ => true
  | VStr _, VInt _ => false
  | VStr s, VStr t => String.leb s t
  end.

(** Lexicographic order of two rows on the columns [by]. *)
Fixpoint row_leb (by_ : list label) (r1 r2 : Row) : bool :=
  match by_ with
  | [] => true
  | c :: by' =>
      if value_eqb (get c r1) (get c r2) then row_leb by' r1 r2
      else value_leb (get c r1) (get c r2)
  end.

Section InsertionSort.
Context {A : Type} (leb : A -> A -> bool).

Fixpoint insert_sorted (x : A) (l : list A) : list A :=
  match l with
  | [] => [x]
  | y :: l' => if leb x y then x :: l else y :: insert_sorted x l'
  end.

(** Stable: an element goes in front of the later elements it ties with. *)
Definition stable_sort (l : list A) : list A :=
  fold_right insert_sorted [] l.
End InsertionSort.

(** [df.sort_values(by=by_)]: stable, rows keep their index labels. *)
Definition sort_values (by_ : list label) (df : DataFrame) : result DataFrame :=
  check forallb (fun c => has_column c df) by_ else_raise KeyError ;;
  Ok (mkDF (columns df)
           (stable_sort (fun a b => row_leb by_ (snd a) (snd b)) (rows df))).

(** [pd.concat([a, b], ignore_index=True, sort=False)]: the columns of [a]
    followed by those only [b] has; cells a frame lacks are NaN. *)
Definition pd_concat (a b : DataFrame) : DataFrame :=
  let cs := columns a
            ++ filter (fun c => negb (mem_label c (columns a))) (columns b) in
  mkDF cs (range_index (map (project cs) (data a ++ data b))).

(** Distinct values in order of first appearance. *)
Fixpoint unique (vs : list value) : list value :=
  match vs with
  | [] => []
  | v :: vs' => v :: filter (fun w => negb (value_eqb w v)) (unique vs')
  end.

(** [df.groupby(key).agg(fn).reset_index()]: one row per distinct non-missing
    key, keys in ascending order; every other column is reduced with [fn]
    over the rows of the group. *)
Definition groupby_agg (key : label) (fn : list value -> value) (df : DataFrame)
  : result DataFrame :=
  check has_column key df else_raise KeyError ;;
  let others := filter (fun c => negb (label_eqb c key)) (columns df) in
  let keys := stable_sort value_leb
                (unique (filter (fun v => negb (isnull v)) (column key df))) in
  let group k := filter (fun r => value_eqb (get key r) k) (data df) in
  Ok (mkDF (key :: others)
           (range_index
              (map (fun k => (key, k)
                             :: map (fun c => (c, fn (map (get c) (group k)))) others)
                   keys))).

(** The reducers ['count'] (non-missing cells) and ['sum'] (of the integer
    cells). *)
Definition agg_count (vs : list value) : value :=
  VInt (Z.of_nat (length (filter (fun v => negb (isnull v)) vs))).

Definition agg_sum (vs : list value) : value :=
  VInt (fold_right (fun v acc => match v with VInt z => (z + acc)%Z | _ => acc end)
                   0%Z vs).

(** ** networkx: the directed graph of the parent -> child edges *)

Record DiGraph : Type := mkG {
  nodes : list value;            (* in insertion order, as iteration yields them *)
  edges : list (value * value)   (* (u, v) for the edge u -> v *)
}.

(** [nx.from_pandas_edgelist(df, source, target, create_using=nx.DiGraph())]:
    one edge per row; [add_edge(u, v)] inserts u, then v, when new. *)
Definition from_pandas_edgelist (df : DataFrame) (source target : label) : DiGraph :=
  mkG (unique (flat_map (fun r => [get source r; get target r]) (data df)))
      (map (fun r => (get source r, get target r)) (data df)).

(** [G.pred[v]] *)
Definition pred (G : DiGraph) (v : value) : list value :=
  map fst (filter (fun e => value_eqb (snd e) v) (edges G)).

(** The search of [shortest_path] seen from the target: step to the
    predecessor until the source shows up.  [acc] is the part of the path
    after [v].  The graphs built here have at most one edge into a node (the
    child column has no repeated value, see [Hierarchy_init]), so there is
    one predecessor to try; the walk fails on a node without one, and on
    running through more nodes than the graph has (a cycle that misses the
    source). *)
Fixpoint walk_back (G : DiGraph) (source : value) (fuel : nat)
         (v : value) (acc : list value) : option (list value) :=
  if value_eqb v source then Some (v :: acc)
  else match fuel with
       | O => None
       | S fuel' =>
           match pred G v with
           | [] => None
           | u :: _ => walk_back G source fuel' u (v :: acc)
           end
       end.

(** [nx.shortest_path(G, source, target)] *)
Definition shortest_path (G : DiGraph) (source target : value)
  : result (list value) :=
  check mem_value source (nodes G) && mem_value target (nodes G)
    else_raise NodeNotFound ;;
  match walk_back G source (length (nodes G)) target [] with
  | Some p => Ok p
  | None => Raise NetworkXNoPath
  end.

(** ** Python dicts, in insertion order *)

Definition dict (V : Type) : Type := list (value * V).

Fixpoint dict_get {V : Type} (k : value) (d : dict V) : option V :=
  match d with
  | [] => None
  | (k', v) :: d' => if value_eqb k k' then Some v else dict_get k d'
  end.

(** [d[k] = v] *)
Fixpoint dict_set {V : Type} (k : value) (v : V) (d : dict V) : dict V :=
  match d with
  | [] => [(k, v)]
  | (k', v') :: d' =>
      if value_eqb k k' then (k', v) :: d' else (k', v') :: dict_set k v d'
  end.

(** ** The class *)

Definition PARENT_PREFIX : string := "parent_".
Definition H_PREFIX : string := "h_".
Definition IX_COL : label := LStr (H_PREFIX ++ "ix").
Definition LEVEL_COL : label := LStr (H_PREFIX ++ "level").
Definition DEFAULT_LEVEL : value := VInt 999.

Record Hierarchy : Type := mkHierarchy {
  name : string;
  mandatory : bool;
  root_node : value;
  def_df : DataFrame;
  aggs_df : DataFrame;
  paths_df : DataFrame
}.

Definition name_col (nm : string) : label := LStr nm.
Definition parent_col (nm : string) : label := LStr (PARENT_PREFIX ++ nm).

(** [path[-1]] *)
Definition last_node (path : list value) : value := last path VNaN.

(** [len(path) - 1] *)
Definition path_level (path : list value) : Z := (Z.of_nat (length path) - 1)%Z.

(** The loop of [_get_paths] over the nodes of [G] still to visit. *)
Fixpoint get_paths_loop (G : DiGraph) (root : value) (todo : list value)
         (paths : dict (list value)) (levels : dict Z)
  : result (dict (list value) * dict Z) :=
  match todo with
  | [] => Ok (paths, levels)
  | node :: todo' =>
      if negb (value_eqb node root) then
        path <- shortest_path G root node ;;
        get_paths_loop G root todo'
          (dict_set (last_node path) path paths)
          (dict_set (last_node path) (path_level path) levels)
      else get_paths_loop G root todo' paths levels
  end.

Definition _get_paths (df : DataFrame) (nm : string) (root : value)
  : result (dict (list value) * dict Z) :=
  let G := from_pandas_edgelist df (parent_col nm) (name_col nm) in
  get_paths_loop G root (nodes G) [] [].

(** [pd.DataFrame.from_dict(paths, orient='index').reset_index()
      .rename(columns={'index': name})]: the key under [name], then the path
    under the labels 0, 1, 2, ...; shorter paths are padded with NaN. *)
Definition max_len (paths : dict (list value)) : nat :=
  fold_right (fun kv m => Nat.max (length (snd kv)) m) 0 paths.

Definition make_paths_df (nm : string) (paths : dict (list value)) : DataFrame :=
  let idx := seq 0 (max_len paths) in
  mkDF (name_col nm :: map LInt idx)
       (range_index
          (map (fun kv => (name_col nm, fst kv)
                          :: map (fun j => (LInt j, nth j (snd kv) VNaN)) idx)
               paths)).

(** [pd.DataFrame.from_dict([levels]).T.reset_index()
      .rename(columns={'index': name, 0: LEVEL_COL})] *)
Definition make_levels_df (nm : string) (levels : dict Z) : DataFrame :=
  mkDF [name_col nm; LEVEL_COL]
       (range_index
          (map (fun kv => [(name_col nm, fst kv); (LEVEL_COL, VInt (snd kv))])
               levels)).

(** [df.duplicated([name], keep=False)] marks some row *)
Fixpoint has_duplicates (vs : list value) : bool :=
  match vs with
  | [] => false
  | v :: vs' => mem_value v vs' || has_duplicates vs'
  end.

(** [self.def_df[IX_COL] = def_df[IX_COL] if IX_COL in def_df.keys()
                          else def_df.index] *)
Definition add_ix (df : DataFrame) : DataFrame :=
  if has_column IX_COL df then df
  else with_column IX_COL (fun i _ => VInt i) df.

(** [Hierarchy.__init__(def_df, name, root)] *)
Definition Hierarchy_init (df : DataFrame) (nm : string) (root : option value)
  : result Hierarchy :=
  root_node <- match root with
               | None => at_ 0 (parent_col nm) df
               | Some r => Ok r
               end ;;
  let df1 := add_ix df in
  aggs <- select [name_col nm] df1 ;;
  check has_column (name_col nm) df && has_column (parent_col nm) df
    else_raise ValueError ;;
  check negb (has_duplicates (column (name_col nm) df)) else_raise ValueError ;;
  pl <- _get_paths df1 nm root_node ;;
  let paths_df := make_paths_df nm (fst pl) in
  let levels := make_levels_df nm (snd pl) in
  merged <- merge_left (name_col nm) "_x" "_y" df1 levels ;;
  Ok (mkHierarchy nm true root_node (fillna DEFAULT_LEVEL merged) aggs paths_df).

(** [Hierarchy.expand(df, add_cols)] *)
Definition expand (self : Hierarchy) (df : DataFrame) (add_cols : list label)
  : result DataFrame :=
  let cols := columns df in
  let nm := name_col (name self) in
  check mem_label nm cols else_raise ValueError ;;
  let val_name := LStr (H_PREFIX ++ name self) in
  t1 <- merge_left nm "_x" "_y" df (paths_df self) ;;
  t2 <- melt cols LEVEL_COL val_name t1 ;;
  let t3 := query_ne val_name (str (root_node self)) t2 in   (* drop root_node *)
  let t4 := dropna val_name t3 in
  t5 <- drop nm t4 ;;
  let t6 := rename_columns (rename1 val_name nm) t5 in
  t7 <- merge_left nm "" "_y" t6 (def_df self) ;;
  t8 <- sort_values [IX_COL; LEVEL_COL] t7 ;;
  Ok (reindex (cols ++ add_cols) t8).

(** [Hierarchy.add_to_def_df(df, val_col, agg_col, agg_fn_name)]; the
    reducer that the name stands for is passed as a function.  The method
    assigns [self.def_df]: the new object state is returned. *)
Definition add_to_def_df (self : Hierarchy) (df : DataFrame)
           (val_col agg_col : label) (agg_fn : list value -> value)
  : result Hierarchy :=
  let nm := name_col (name self) in
  tdf <- select [nm; val_col] df ;;
  e <- expand self tdf [] ;;
  g <- groupby_agg nm agg_fn e ;;
  let tdf' := rename_columns (rename1 val_col agg_col) g in
  merged <- merge_left nm "_x" "_y" (def_df self) tdf' ;;
  Ok (mkHierarchy (name self) (mandatory self) (root_node self)
                  (fillna (VStr "") merged) (aggs_df self) (paths_df self)).

(** [Hierarchy.wrap_in_def_df(df, rename_spec)] *)
Definition wrap_in_def_df (self : Hierarchy) (df : DataFrame) (rename_spec : Z -> Z)
  : result DataFrame :=
  let nm := name_col (name self) in
  let defs := rename_index rename_spec (def_df self) in
  let tagged := with_column LEVEL_COL (fun _ _ => DEFAULT_LEVEL) df in
  attrs <- drop LEVEL_COL (def_df self) ;;
  widened <- merge_left nm "_x" "_y" tagged attrs ;;
  sort_values [IX_COL; LEVEL_COL]
    (fillna (VStr "") (pd_concat defs (fillna (VStr "") widened))).

(** *** from_structure *)

(** [struc_field]: one column name, or the list of the label columns. *)
Inductive struc_spec : Type :=
| OneField (c : string)
| ManyFields (cs : list string).

(** [s.rfind(delim)], scanning the suffix of [s] that starts at offset [i]:
    the highest offset at which [delim] occurs. *)
Fixpoint rfind_from (delim s : string) (i : nat) : option nat :=
  match s with
  | EmptyString => if String.prefix delim s then Some i else None
  | String _ s' =>
      match rfind_from delim s' (S i) with
      | Some j => Some j
      | None => if String.prefix delim s then Some i else None
      end
  end.

Definition rfind (s delim : string) : option nat := rfind_from delim s 0.

(** The inner function [strip_from_right(row)]; [.rfind] is a method of
    strings only. *)
Definition strip_from_right (struc_field : label) (delim : string) (row : Row)
  : result value :=
  match get struc_field row with
  | VStr s =>
      match rfind s delim with
      | Some index => Ok (VStr (substring 0 index s))
      | None => Ok (VStr "root")
      end
  | _ => Raise AttributeError
  end.

Fixpoint mapM {A B : Type} (f : A -> result B) (l : list A) : result (list B) :=
  match l with
  | [] => Ok []
  | a :: l' => b <- f a ;; bs <- mapM f l' ;; Ok (b :: bs)
  end.

(** [df[c] = df.apply(f, axis=1)] for an [f] that may raise: as
    [with_column], the cell of each row being what [f] returns for it. *)
Definition apply_column (c : label) (f : Row -> result value) (df : DataFrame)
  : result DataFrame :=
  let cs := if has_column c df then columns df else columns df ++ [c] in
  rows' <- mapM (fun ir =>
                   v <- f (snd ir) ;;
                   Ok (fst ir,
                       map (fun c' => (c', if label_eqb c' c then v
                                           else get c' (snd ir))) cs))
                (rows df) ;;
  Ok (mkDF cs rows').

(** Python truth of a cell, as [if row[col]] tests it. *)
Definition truthy (v : value) : bool :=
  match v with
  | VStr s => negb (String.eqb s "")
  | VInt z => negb (Z.eqb z 0)
  | VNaN => true
  end.

(** [delim.join(xs)]: TypeError unless every item is a string. *)
Fixpoint join (delim : string) (xs : list value) : result string :=
  match xs with
  | [] => Ok ""
  | VStr s :: [] => Ok s
  | VStr s :: xs' => rest <- join delim xs' ;; Ok (s ++ delim ++ rest)%string
  | _ :: _ => Raise TypeError
  end.

(** The first part of [from_structure], up to the frame that has the
    parent column: the lookup from structural string to key, the parent
    string of every row, their merge, and the substitution of the root for
    the 'root' placeholder. *)
Definition from_structure_parents (def_df0 : DataFrame) (nm : string)
           (struc_field : struc_spec) (root : option value) (delim : string)
  : result DataFrame :=
  let df := fillna (VStr "") def_df0 in
  let keys := columns def_df0 in
  dfs <- match struc_field with
         | ManyFields cs =>
             check forallb (fun c => has_column (LStr c) df) cs else_raise KeyError ;;
             df' <- apply_column (LStr "struc")
                      (fun row => s <- join delim
                                         (filter truthy (map (fun c => get (LStr c) row) cs)) ;;
                                  Ok (VStr s)) df ;;
             Ok (df', "struc")
         | OneField c => Ok (df, c)
         end ;;
  let df := fst dfs in
  let struc_field := snd dfs in
  let parent_struc := LStr ("parent_" ++ struc_field) in
  (* struc_to_name: struc -> name *)
  sel <- select [name_col nm; LStr struc_field] df ;;
  let struc_to_name :=
    rename_columns (fun c => if label_eqb c (LStr struc_field) then parent_struc
                             else if label_eqb c (name_col nm) then parent_col nm
                             else c)
      (append_row [(name_col nm, VStr "root"); (LStr struc_field, VStr "root")] sel) in
  df <- apply_column parent_struc (strip_from_right (LStr struc_field) delim) df ;;
  merged <- merge_left parent_struc "_x" "_y" df struc_to_name ;;
  Ok (reindex (keys ++ [parent_col nm])
              (replace (VStr "root") (match root with Some r => r | None => VNaN end)
                       merged)).

(** [Hierarchy.from_structure(def_df, name, struc_field, root, delim)].
    Besides the object, the rows printed as being without parent. *)
Definition from_structure (def_df0 : DataFrame) (nm : string) (struc_field : struc_spec)
           (root : option value) (delim : string)
  : result (list Row * Hierarchy) :=
  df <- from_structure_parents def_df0 nm struc_field root delim ;;
  (* errmask = df.parent_dept.isnull() *)
  check has_column (LStr "parent_dept") df else_raise AttributeError ;;
  let errmask r := isnull (get (LStr "parent_dept") r) in
  let reported := filter errmask (data df) in
  let df := filter_rows (fun r => negb (errmask r)) df in
  h <- Hierarchy_init df nm root ;;
  Ok (reported, h).

(** [pd.DataFrame(records, columns=cs)] with the default RangeIndex *)
Definition DataFrame_of (cs : list label) (records : list (list value)) : DataFrame :=
  mkDF cs (range_index (map (fun rec => combine cs rec) records)).

(** The organisation of the docstring and of the demonstration:
    child -> parent, root '0'. *)
Definition org : DataFrame :=
  DataFrame_of [LStr "oe"; LStr "parent_oe"]
    (map (fun cp => [VStr (fst cp); VStr (snd cp)])
         [("1", "0"); ("12", "1"); ("120", "12"); ("121", "12"); ("122", "12");
          ("13", "1"); ("130", "13"); ("1301", "130"); ("2", "0"); ("21", "2")]).

Definition pers : DataFrame :=
  DataFrame_of [LStr "oe"; LStr "persnr"]
    (map (fun cp => [VStr (fst cp); VStr (snd cp)])
         [("1", "456"); ("121", "573"); ("121", "574"); ("121", "578"); ("12", "666")]).

(** The second example of the demonstration. *)
Definition src_df : DataFrame :=
  DataFrame_of [LStr "labels"; LStr "dept"; LStr "mgr"]
    [ [VStr "RvB"; VInt 10; VStr "John"];
      [VStr "RvB|Sales & Marketing"; VInt 100; VStr "Sally"];
      [VStr "RvB|Sales & Marketing|Sales"; VInt 110; VStr "Ruben"];
      [VStr "RvB|Sales & Marketing|Marketing"; VInt 120; VStr "Holly"];
      [VStr "RvB|Sales & Marketing|Marketing|Marketing Support"; VInt 121; VStr "Max"];
      [VStr "RvB|Finance & ICT"; VInt 200; VStr "Mimi"];
      [VStr "RvB|Finance & ICT|Finance"; VInt 210; VStr "Astrid"] ].

(** ** Reading a constructed hierarchy *)

(** The first row of [df] whose cell under [c] is [k]. *)
Definition lookup_row (c : label) (k : value) (df : DataFrame) : option Row :=
  find (fun r => value_eqb (get c r) k) (data df).

(** The path stored for node [k]: the row of [paths_df] under key [k], read
    along the numbered columns, the NaN padding left out. *)
Definition stored_path (h : Hierarchy) (k : value) : option (list value) :=
  option_map
    (fun r => filter (fun v => negb (isnull v))
                (map (fun c => get c r) (tl (columns (paths_df h)))))
    (lookup_row (name_col (name h)) k (paths_df h)).

(** The [h_level] cell of the definition row of node [k]. *)
Definition level_of (h : Hierarchy) (k : value) : option value :=
  option_map (get LEVEL_COL) (lookup_row (name_col (name h)) k (def_df h)).

(** The parent -> child edges a definition table states. *)
Definition edge (df : DataFrame) (nm : string) (u v : value) : Prop :=
  exists r, In r (data df) /\ get (parent_col nm) r = u /\ get (name_col nm) r = v.

(** [v] can be reached from [u] along one or more edges of [E]. *)
Inductive reachable (E : value -> value -> Prop) (u : value) : value -> Prop :=
| reach_edge v : E u v -> reachable E u v
| reach_step w v : reachable E u w -> E w v -> reachable E u v.

(** A list of nodes in which each is joined to the next by an edge of [E]. *)
Inductive walk (E : value -> value -> Prop) : list value -> Prop :=
| walk_one v : walk E [v]
| walk_cons u v p : E u v -> walk E (v :: p) -> walk E (u :: v :: p).

(** No cell of the key and parent columns is missing. *)
Definition keys_present (df : DataFrame) (nm : string) : bool :=
  forallb (fun r => negb (isnull (get (name_col nm) r))
                    && negb (isnull (get (parent_col nm) r)))
          (data df).

(** ** Vocabulary for merges *)

(** No label is on both sides, the key apart. *)
Definition no_clash (on : label) (left right : DataFrame) : Prop :=
  forall c, In c (brought on right) -> ~ In c (columns left).

(** The row a left row [l] becomes when its first match is [m]. *)
Definition widen (on : label) (left right : DataFrame) (l : Row) (m : option Row) : Row :=
  project (columns left) l
  ++ map (fun c => (c, match m with Some m => get c m | None => VNaN end))
         (brought on right).

(** ** The demonstration objects *)

Definition from_ok {A : Type} (d : A) (r : result A) : A :=
  match r with Ok a => a | Raise _ => d end.

Definition no_frame : DataFrame := mkDF [] [].

Definition no_hierarchy : Hierarchy :=
  mkHierarchy "" true VNaN no_frame no_frame no_frame.

(** [h = Hierarchy(org, 'oe', '0')] *)
Definition org_h : Hierarchy :=
  from_ok no_hierarchy (Hierarchy_init org "oe" (Some (VStr "0"))).

(** The organisation with one more row, '9' under '8': there is no '8', so
    both nodes are cut off from the root. *)
Definition org_island : DataFrame :=
  DataFrame_of [LStr "oe"; LStr "parent_oe"]
    (map (fun cp => [VStr (fst cp); VStr (snd cp)])
         [("1", "0"); ("12", "1"); ("2", "0"); ("9", "8")]).

(** A table that lists the root itself, as its own parent. *)
Definition org_rooted : DataFrame :=
  DataFrame_of [LStr "oe"; LStr "parent_oe"]
    (map (fun cp => [VStr (fst cp); VStr (snd cp)])
         [("0", "0"); ("1", "0"); ("12", "1")]).

Definition org_rooted_h : Hierarchy :=
  from_ok no_hierarchy (Hierarchy_init org_rooted "oe" (Some (VStr "0"))).

(** ** What [expand] is expected to return *)

(** The ancestors of node [k] below the root, each with its level: the
    stored path of [k] without its head, numbered from 1. *)
Definition ancestor_levels (h : Hierarchy) (k : value) : list (nat * value) :=
  match stored_path h k with
  | Some p => combine (seq 1 (length p - 1)) (tl p)
  | None => []
  end.

(** The definition row of node [a]. *)
Definition node_row (h : Hierarchy) (a : value) : option Row :=
  lookup_row (name_col (name h)) a (def_df h).

(** The columns of the frame that [expand] merges with [def_df]: the fact
    columns without the node reference, the level, the ancestor. *)
Definition expanded_columns (h : Hierarchy) (cols : list label) : list label :=
  filter (fun c => negb (label_eqb c (name_col (name h)))) cols
  ++ [LEVEL_COL; name_col (name h)].

(** The cells of the definition row of [a], a label that is also a column
    of the expanded frame being suffixed with [_y]. *)
Definition node_attributes (h : Hierarchy) (cols : list label) (a : value) : Row :=
  map (fun c => (right_label "_y" (mkDF (expanded_columns h cols) []) c,
                 match node_row h a with Some d => get c d | None => VNaN end))
      (brought (name_col (name h)) (def_df h)).

(** The output row for fact row [f] and its ancestor [a] at level [j]: the
    node reference is [a], the level [j], the other fact cells are those of
    [f], the attributes those of [a]; all that read along the fact columns
    and [add_cols]. *)
Definition expanded_row (h : Hierarchy) (cols add_cols : list label)
           (f : Row) (ja : nat * value) : Row :=
  project (cols ++ add_cols)
          ((name_col (name h), snd ja)
           :: (LEVEL_COL, VInt (Z.of_nat (fst ja)))
           :: project (filter (fun c => negb (label_eqb c (name_col (name h)))) cols) f
           ++ node_attributes h cols (snd ja)).

Definition expected_expansion (h : Hierarchy) (facts : DataFrame) (add_cols : list label)
  : list Row :=
  flat_map (fun f => map (expanded_row h (columns facts) add_cols f)
                         (ancestor_levels h (get (name_col (name h)) f)))
           (data facts).

(** A label that is a string. *)
Definition is_LStr (c : label) : bool :=
  match c with LStr _ => true | LInt _ => false end.

(** A fact table [expand] can work on: string labels, the node reference
    among them, and neither [h_level] nor [h_<name>], which [melt] creates. *)
Definition fact_columns_ok (h : Hierarchy) (facts : DataFrame) : bool :=
  forallb is_LStr (columns facts)
  && mem_label (name_col (name h)) (columns facts)
  && negb (mem_label LEVEL_COL (columns facts))
  && negb (mem_label (LStr (H_PREFIX ++ name h)) (columns facts)).

(** What [expand] relies on in the object: [paths_df] comes from a dict of
    paths that start with the root and hold it only there, the root is a
    string (the query compares with a string literal), the definition table
    has the key and index columns and no repeated key, and the value column
    [h_<name>] of [melt] is not its variable column [h_level]. *)
Record expandable (h : Hierarchy) (paths : dict (list value)) : Prop := {
  ex_name : name h <> "level";
  ex_paths_df : paths_df h = make_paths_df (name h) paths;
  ex_paths_keys : NoDup (map fst paths);
  ex_paths_shape :
    forall k p, dict_get k paths = Some p ->
                (exists q, p = root_node h :: q /\ ~ In (root_node h) q)
                /\ Forall (fun v => isnull v = false) p;
  ex_root_str : exists s, root_node h = VStr s;
  ex_def_columns : In (name_col (name h)) (columns (def_df h))
                   /\ In IX_COL (columns (def_df h));
  ex_def_keys : NoDup (column (name_col (name h)) (def_df h))
}.

(** The organisation with a manager per node, as the demonstration adds it. *)
Definition org_mgr : DataFrame :=
  DataFrame_of [LStr "oe"; LStr "parent_oe"; LStr "manager"]
    (map (fun cp => [VStr (fst cp); VStr (snd cp); VStr ("Mgr_" ++ fst cp)])
         [("1", "0"); ("12", "1"); ("120", "12"); ("121", "12"); ("122", "12");
          ("13", "1"); ("130", "13"); ("1301", "130"); ("2", "0"); ("21", "2")]).

Definition org_mgr_h : Hierarchy :=
  from_ok no_hierarchy (Hierarchy_init org_mgr "oe" (Some (VStr "0"))).

(** One fact row, referring to node '121'. *)
Definition pers_121 : DataFrame :=
  DataFrame_of [LStr "oe"; LStr "persnr"] [[VStr "121"; VStr "573"]].

(** Fact rows of which one refers to a node that is not in the tree. *)
Definition pers_stray : DataFrame :=
  DataFrame_of [LStr "oe"; LStr "persnr"]
    [[VStr "121"; VStr "573"]; [VStr "77"; VStr "999"]; [VStr "1"; VStr "456"]].

(** The key [k] is the key of a row of the definition table. *)
Definition in_table (df : DataFrame) (nm : string) (k : value) : bool :=
  match lookup_row (name_col nm) k df with Some _ => true | None => false end.

(** ** Vocabulary for structural strings *)

(** [delim] occurs in [s] at offset [i]. *)
Definition occurs_at (delim s : string) (i : nat) : bool :=
  Nat.leb i (String.length s)
  && String.prefix delim (substring i (String.length s - i) s).

(** The second example with the key column called 'oe'. *)
Definition src_oe : DataFrame :=
  DataFrame_of [LStr "labels"; LStr "oe"]
    [ [VStr "RvB"; VInt 10];
      [VStr "RvB|Sales & Marketing"; VInt 100];
      [VStr "RvB|Finance & ICT"; VInt 200] ].

(** The same rows under 'dept', and one more whose parent 'Legal' is not
    there. *)
Definition src_orphan : DataFrame :=
  DataFrame_of [LStr "labels"; LStr "dept"]
    [ [VStr "RvB"; VInt 10];
      [VStr "RvB|Sales & Marketing"; VInt 100];
      [VStr "Legal|Contracts"; VInt 300];
      [VStr "RvB|Finance & ICT"; VInt 200] ].

(** ** What [from_structure] is expected to derive *)

(** The synthetic entry of the lookup from structural string to key. *)
Definition root_entry (nm c : string) : Row :=
  [(name_col nm, VStr "root"); (LStr c, VStr "root")].

(** The keys a parent string [p] resolves to: those of the rows whose
    structural string is [p], the synthetic root entry included. *)
Definition resolve (df : DataFrame) (nm c : string) (p : value) : list value :=
  map (get (name_col nm))
      (filter (fun x => value_eqb (get (LStr c) x) p) (data df ++ [root_entry nm c])).

(** [.replace({'root': root})] on one cell. *)
Definition substitute_root (r : value) (x : value) : value :=
  if value_eqb x (VStr "root") then r else x.

(** The row [l] with parent key [k]. *)
Definition parent_row (keys : list label) (nm : string) (r : value)
           (l : Row) (k : value) : Row :=
  map (fun c => (c, substitute_root r (get c l))) keys
  ++ [(parent_col nm, substitute_root r k)].

(** The rows [l] yields: one per key its parent string [p] resolves to, or
    one without parent when it resolves to none. *)
Definition parent_rows (df : DataFrame) (keys : list label) (nm c : string)
           (r : value) (l : Row) (p : value) : list Row :=
  match resolve df nm c p with
  | [] => [parent_row keys nm r l VNaN]
  | ks => map (parent_row keys nm r l) ks
  end.

(** A structural table [from_structure] can take with the column [c]: key
    and structural columns are there and differ, and the two columns it adds
    are not there yet. *)
Definition structure_ok (df : DataFrame) (nm c : string) : bool :=
  has_column (name_col nm) df
  && has_column (LStr c) df
  && negb (String.eqb nm c)
  && negb (has_column (parent_col nm) df)
  && negb (has_column (LStr ("parent_" ++ c)) df).

(** Rows of which one descends from a row without parent. *)
Definition src_orphan_child : DataFrame :=
  DataFrame_of [LStr "labels"; LStr "dept"]
    [ [VStr "RvB"; VInt 10];
      [VStr "Legal|Contracts"; VInt 300];
      [VStr "Legal|Contracts|IP"; VInt 310] ].

(** ** What [wrap_in_def_df] is expected to return *)

(** The columns of the wrapped table: those of the definition table, then
    the columns only the fact table has. *)
Definition wrapped_columns (h : Hierarchy) (facts : DataFrame) : list label :=
  columns (def_df h)
  ++ filter (fun c => negb (mem_label c (columns (def_df h)))) (columns facts).

(** A definition row in the wrapped table: its own cells, the fact columns
    empty. *)
Definition wrapped_def_row (h : Hierarchy) (facts : DataFrame) (d : Row) : Row :=
  map (fun c => (c, fill_cell (VStr "") (get c d))) (wrapped_columns h facts).

(** A fact row in the wrapped table: level 999, its own cells, and the
    cells of the definition row of its node, empty when there is none. *)
Definition wrapped_fact_row (h : Hierarchy) (facts : DataFrame) (f : Row) : Row :=
  map (fun c =>
         (c, fill_cell (VStr "")
               (if label_eqb c LEVEL_COL then DEFAULT_LEVEL
                else if mem_label c (columns facts) then get c f
                else match node_row h (get (name_col (name h)) f) with
                     | Some d => get c d
                     | None => VNaN
                     end)))
      (wrapped_columns h facts).

(** [a] comes before an occurrence of [b] in a list. *)
Inductive before {A : Type} (a b : A) : list A -> Prop :=
| before_here l : In b l -> before a b (a :: l)
| before_later x l : before a b l -> before a b (x :: l).

(** What [wrap_in_def_df] relies on: the definition table has the key, index
    and level columns and no repeated key, the key column is not the level
    column; the fact table has the node reference and shares no other column
    with the definition table. *)
Record wrappable (h : Hierarchy) (facts : DataFrame) : Prop := {
  wr_name : name_col (name h) <> LEVEL_COL;
  wr_def_columns : In (name_col (name h)) (columns (def_df h))
                   /\ In IX_COL (columns (def_df h))
                   /\ In LEVEL_COL (columns (def_df h));
  wr_def_keys : NoDup (column (name_col (name h)) (def_df h));
  wr_fact_name : In (name_col (name h)) (columns facts);
  wr_disjoint : forall c, In c (columns facts) -> c <> name_col (name h) ->
                          ~ In c (columns (def_df h))
}.

(** ** Subtrees *)

(** Node [k] lies in the subtree of [c]: [c] is on the stored path of [k],
    below the root. *)
Definition in_subtree (h : Hierarchy) (c k : value) : bool :=
  match stored_path h k with
  | Some p => mem_value c (tl p)
  | None => false
  end.

(** The number of fact rows whose node lies in the subtree of [c]. *)
Definition subtree_count (h : Hierarchy) (facts : DataFrame) (c : value) : nat :=
  length (filter (fun f => in_subtree h c (get (name_col (name h)) f)) (data facts)).

(** ** Aggregating twice *)

(** No cell of the frame is missing. *)
Definition complete (df : DataFrame) : bool :=
  forallb (fun r => forallb (fun c => negb (isnull (get c r))) (columns df)) (data df).

(** [h.add_to_def_df(pers, 'persnr', 'n', 'count')], once and twice. *)
Definition org_h_n : Hierarchy :=
  from_ok no_hierarchy (add_to_def_df org_h pers (LStr "persnr") (LStr "n") agg_count).

Definition org_h_nn : Hierarchy :=
  from_ok no_hierarchy (add_to_def_df org_h_n pers (LStr "persnr") (LStr "n") agg_count).

(** [self.def_df = d]: the object with its node table replaced. *)
Definition set_def_df (self : Hierarchy) (d : DataFrame) : Hierarchy :=
  mkHierarchy (name self) (mandatory self) (root_node self) d
              (aggs_df self) (paths_df self).

(** The organisation with node '12' defined twice, under '1' and under '2'. *)
Definition org_twice : DataFrame :=
  DataFrame_of [LStr "oe"; LStr "parent_oe"]
    (map (fun cp => [VStr (fst cp); VStr (snd cp)])
         [("1", "0"); ("12", "1"); ("2", "0"); ("12", "2")]).

(** An organisation in which a manager is not known. *)
Definition org_gap : DataFrame :=
  DataFrame_of [LStr "oe"; LStr "parent_oe"; LStr "manager"]
    [ [VStr "1"; VStr "0"; VStr "Ann"];
      [VStr "12"; VStr "1"; VNaN] ].

Definition org_gap_h : Hierarchy :=
  from_ok no_hierarchy (Hierarchy_init org_gap "oe" (Some (VStr "0"))).

(** Amounts booked on nodes of the organisation. *)
Definition sales : DataFrame :=
  DataFrame_of [LStr "oe"; LStr "amount"]
    [ [VStr "121"; VInt 10]; [VStr "12"; VInt 5]; [VStr "13"; VInt 7];
      [VStr "122"; VInt 1] ].

(** The character [a] occurs in [s]. *)
Fixpoint has_char (a : ascii) (s : string) : bool :=
  match s with
  | EmptyString => false
  | String c s' => Ascii.eqb a c || has_char a s'
  end.

(** A small organisation: '1' and '2' under the root '0', '12' under '1'. *)
Definition org_small : DataFrame :=
  DataFrame_of [LStr "oe"; LStr "parent_oe"]
    (map (fun cp => [VStr (fst cp); VStr (snd cp)])
         [("1", "0"); ("12", "1"); ("2", "0")]).

(** Two persons booked on the root of the organisation itself. *)
Definition pers_root : DataFrame :=
  DataFrame_of [LStr "oe"; LStr "persnr"]
    [[VStr "0"; VStr "001"]; [VStr "0"; VStr "002"]].

(** The keys of the rows whose parent is [c]: the children of [c], in the
    order of the table. *)
Definition children_of (df : DataFrame) (nm : string) (c : value) : list value :=
  map (get (name_col nm))
      (filter (fun r => value_eqb (get (parent_col nm) r) c) (data df)).

(** The fact rows that refer to node [c] itself. *)
Definition own_count (nm : string) (facts : DataFrame) (c : value) : nat :=
  length (filter (fun f => value_eqb (get (name_col nm) f) c) (data facts)).

(** [df[~errmask]]: the rows of the parent frame that have a parent. *)
Definition remaining_rows (nm : string) (out : DataFrame) : DataFrame :=
  filter_rows (fun row => negb (isnull (get (parent_col nm) row))) out.

(** [df[errmask]]: the rows reported as being without parent. *)
Definition reported_rows (nm : string) (out : DataFrame) : list Row :=
  filter (fun row => isnull (get (parent_col nm) row)) (data out).

(** Two rows only: one without parent, and its child. *)
Definition src_orphans_only : DataFrame :=
  DataFrame_of [LStr "labels"; LStr "dept"]
    [ [VStr "Legal|Contracts"; VInt 300];
      [VStr "Legal|Contracts|IP"; VInt 310] ].

(** A structural string that two rows share, and a child under it; beside
    them a row without parent, and its child. *)
Definition src_repeated : DataFrame :=
  DataFrame_of [LStr "labels"; LStr "dept"]
    [ [VStr "RvB"; VInt 10];
      [VStr "RvB"; VInt 11];
      [VStr "RvB|Sales"; VInt 110];
      [VStr "Legal|Contracts"; VInt 300];
      [VStr "Legal|Contracts|IP"; VInt 310] ].

(** * Properties *)

(** ** Equality tests *)

Lemma value_eqb_eq (a b : value) : value_eqb a b = true <-> a = b.
Proof.
  destruct a, b; simpl; split; intro H; try discriminate; try reflexivity.
  - apply String.eqb_eq in H. now subst.
  - inversion H. apply String.eqb_refl.
  - apply Z.eqb_eq in H. now subst.
  - inversion H. apply Z.eqb_refl.
Qed.

Lemma value_eqb_refl (a : value) : value_eqb a a = true.
Proof. now apply value_eqb_eq. Qed.

Lemma value_eqb_neq (a b : value) : value_eqb a b = false <-> a <> b.
Proof.
  split.
  - intros H E. apply value_eqb_eq in E. congruence.
  - intro H. destruct (value_eqb a b) eqn:E; auto.
    apply value_eqb_eq in E. contradiction.
Qed.

Lemma value_eqb_sym (a b : value) : value_eqb a b = value_eqb b a.
Proof.
  destruct (value_eqb b a) eqn:E.
  - apply value_eqb_eq in E. subst. apply value_eqb_refl.
  - apply value_eqb_neq. apply value_eqb_neq in E. congruence.
Qed.

Lemma label_eqb_eq (a b : label) : label_eqb a b = true <-> a = b.
Proof.
  destruct a, b; simpl; split; intro H; try discriminate; try reflexivity.
  - apply String.eqb_eq in H. now subst.
  - inversion H. apply String.eqb_refl.
  - apply Nat.eqb_eq in H. now subst.
  - inversion H. apply Nat.eqb_refl.
Qed.

Lemma label_eqb_refl (a : label) : label_eqb a a = true.
Proof. now apply label_eqb_eq. Qed.

Lemma label_eqb_neq (a b : label) : label_eqb a b = false <-> a <> b.
Proof.
  split.
  - intros H E. apply label_eqb_eq in E. congruence.
  - intro H. destruct (label_eqb a b) eqn:E; auto.
    apply label_eqb_eq in E. contradiction.
Qed.

Lemma mem_label_In (c : label) (cs : list label) : mem_label c cs = true <-> In c cs.
Proof.
  unfold mem_label. rewrite existsb_exists. split.
  - intros [x [Hin E]]. apply label_eqb_eq in E. now subst.
  - intro H. exists c. split; auto. apply label_eqb_refl.
Qed.

Lemma mem_label_false (c : label) (cs : list label) :
  mem_label c cs = false <-> ~ In c cs.
Proof.
  rewrite <- mem_label_In. destruct (mem_label c cs); intuition congruence.
Qed.

Lemma mem_value_In (v : value) (vs : list value) : mem_value v vs = true <-> In v vs.
Proof.
  unfold mem_value. rewrite existsb_exists. split.
  - intros [x [Hin E]]. apply value_eqb_eq in E. now subst.
  - intro H. exists v. split; auto. apply value_eqb_refl.
Qed.

(** ** Rows *)

Lemma get_project (cs : list label) (r : Row) (c : label) :
  In c cs -> get c (project cs r) = get c r.
Proof.
  unfold project. induction cs as [|c' cs IH]; simpl; [tauto|].
  intros [->|Hin].
  - now rewrite label_eqb_refl.
  - destruct (label_eqb c c') eqn:E.
    + apply label_eqb_eq in E. now subst.
    + auto.
Qed.

Lemma get_project_out (cs : list label) (r : Row) (c : label) :
  ~ In c cs -> get c (project cs r) = VNaN.
Proof.
  unfold project. induction cs as [|c' cs IH]; simpl; [tauto|].
  intro H. destruct (label_eqb c c') eqn:E.
  - apply label_eqb_eq in E. subst. tauto.
  - apply IH. tauto.
Qed.

(** Reading a row that was built column by column. *)
Lemma get_map_cells (f : label -> value) (cs : list label) (c : label) :
  In c cs -> get c (map (fun c' => (c', f c')) cs) = f c.
Proof.
  induction cs as [|c' cs IH]; simpl; [tauto|].
  intros [->|Hin].
  - now rewrite label_eqb_refl.
  - destruct (label_eqb c c') eqn:E.
    + apply label_eqb_eq in E. now subst.
    + auto.
Qed.

Lemma get_app_l (c : label) (r1 r2 : Row) :
  In c (map fst r1) -> get c (r1 ++ r2) = get c r1.
Proof.
  induction r1 as [|[c' v] r1 IH]; simpl; [tauto|].
  intros [->|Hin].
  - now rewrite label_eqb_refl.
  - destruct (label_eqb c c'); auto.
Qed.

Lemma get_app_r (c : label) (r1 r2 : Row) :
  ~ In c (map fst r1) -> get c (r1 ++ r2) = get c r2.
Proof.
  induction r1 as [|[c' v] r1 IH]; simpl; [tauto|].
  intro H. destruct (label_eqb c c') eqn:E.
  - apply label_eqb_eq in E. subst. tauto.
  - apply IH. tauto.
Qed.

Lemma data_range_index (rs : list Row) : map snd (range_index rs) = rs.
Proof.
  unfold range_index.
  assert (H : forall (l : list Row) (n : nat),
             map snd (combine (map Z.of_nat (seq n (length l))) l) = l).
  { induction l as [|r l IH]; intro n; simpl; [reflexivity|]. now rewrite IH. }
  apply H.
Qed.

(** ** The graph and its shortest paths *)

Lemma edge_edges (df : DataFrame) (nm : string) (u v : value) :
  In (u, v) (edges (from_pandas_edgelist df (parent_col nm) (name_col nm)))
  <-> edge df nm u v.
Proof.
  unfold edge. simpl. rewrite in_map_iff. split.
  - intros [r [E Hin]]. inversion E. eauto.
  - intros [r [Hin [<- <-]]]. eauto.
Qed.

Lemma pred_edges (G : DiGraph) (u v : value) :
  In u (pred G v) <-> In (u, v) (edges G).
Proof.
  unfold pred. rewrite in_map_iff. split.
  - intros [[a b] [E Hin]]. simpl in E. subst a.
    apply filter_In in Hin. destruct Hin as [Hin Hb]. simpl in Hb.
    apply value_eqb_eq in Hb. now subst.
  - intro Hin. exists (u, v). split; auto.
    apply filter_In. split; auto. simpl. apply value_eqb_refl.
Qed.

Lemma walk_snoc (E : value -> value -> Prop) (p : list value) (u v : value) :
  walk E p -> last p VNaN = u -> E u v -> walk E (p ++ [v]).
Proof.
  induction 1 as [w|a b q Hab Hq IH]; intros Hl He.
  - simpl in Hl. subst. simpl. constructor; auto. constructor.
  - simpl app. constructor; [assumption|]. apply IH; assumption.
Qed.

Lemma last_snoc (p : list value) (v d : value) : last (p ++ [v]) d = v.
Proof. apply last_last. Qed.

(** What the backward walk returns: the source, then nodes other than the
    source down to [v], then [acc]. *)
Lemma walk_back_sound (G : DiGraph) (s : value) (fuel : nat) :
  forall (v : value) (acc p : list value),
    walk_back G s fuel v acc = Some p ->
    exists pre, p = (s :: pre) ++ acc
                /\ ~ In s pre
                /\ last (s :: pre) VNaN = v
                /\ walk (fun a b => In (a, b) (edges G)) (s :: pre).
Proof.
  induction fuel as [|fuel IH]; intros v acc p H; simpl in H.
  - destruct (value_eqb v s) eqn:E; [|discriminate].
    apply value_eqb_eq in E. subst v. inversion H. subst p.
    exists []. simpl. split; [reflexivity|]. split; [tauto|]. split; [reflexivity|constructor].
  - destruct (value_eqb v s) eqn:E.
    + apply value_eqb_eq in E. subst v. inversion H. subst p.
      exists []. simpl. split; [reflexivity|]. split; [tauto|]. split; [reflexivity|constructor].
    + destruct (pred G v) as [|u us] eqn:Hp; [discriminate|].
      apply IH in H. destruct H as [pre [Hp' [Hni [Hl Hw]]]].
      exists (pre ++ [v]). split; [|split; [|split]].
      * rewrite Hp'. simpl. now rewrite <- app_assoc.
      * intro Hin. apply in_app_or in Hin. destruct Hin as [Hin|[Hin|[]]]; auto.
        subst v. now rewrite value_eqb_refl in E.
      * rewrite app_comm_cons. apply last_snoc.
      * rewrite app_comm_cons. eapply walk_snoc; eauto.
        apply pred_edges. rewrite Hp. now left.
Qed.

(** A returned shortest path starts at the source, ends at the target, holds
    the source once and follows edges. *)
Lemma shortest_path_sound (G : DiGraph) (s t : value) (p : list value) :
  shortest_path G s t = Ok p ->
  exists pre, p = s :: pre
              /\ ~ In s pre
              /\ last_node p = t
              /\ walk (fun a b => In (a, b) (edges G)) p.
Proof.
  unfold shortest_path. intro H.
  destruct (mem_value s (nodes G) && mem_value t (nodes G)); [|discriminate].
  destruct (walk_back G s (length (nodes G)) t []) as [q|] eqn:Hw; [|discriminate].
  inversion H. subst q. apply walk_back_sound in Hw.
  destruct Hw as [pre [Hp [Hni [Hl Hwk]]]]. rewrite app_nil_r in Hp. subst p.
  exists pre. unfold last_node. auto.
Qed.

(** ** Dicts *)

Lemma dict_get_set_same {V : Type} (k : value) (v : V) (d : dict V) :
  dict_get k (dict_set k v d) = Some v.
Proof.
  induction d as [|[k' v'] d IH]; simpl.
  - now rewrite value_eqb_refl.
  - destruct (value_eqb k k') eqn:E; simpl; rewrite E; auto.
Qed.

Lemma dict_get_set_other {V : Type} (k k' : value) (v : V) (d : dict V) :
  k <> k' -> dict_get k (dict_set k' v d) = dict_get k d.
Proof.
  intro Hne. induction d as [|[k0 v0] d IH]; simpl.
  - apply value_eqb_neq in Hne. now rewrite Hne.
  - destruct (value_eqb k' k0) eqn:E; simpl.
    + apply value_eqb_eq in E. subst k0.
      apply value_eqb_neq in Hne. now rewrite Hne.
    + destruct (value_eqb k k0); auto.
Qed.

(** ** The loop of [_get_paths] *)

(** The two dicts agree, and every entry is the shortest path of its key. *)
Definition paths_levels_ok (G : DiGraph) (root : value)
           (paths : dict (list value)) (levels : dict Z) : Prop :=
  forall k,
    match dict_get k paths with
    | Some p => shortest_path G root k = Ok p /\ k <> root
                /\ dict_get k levels = Some (path_level p)
    | None => dict_get k levels = None
    end.

Lemma get_paths_loop_ok (G : DiGraph) (root : value) (todo : list value) :
  forall paths levels paths' levels',
    get_paths_loop G root todo paths levels = Ok (paths', levels') ->
    paths_levels_ok G root paths levels ->
    paths_levels_ok G root paths' levels'
    /\ (forall k, In k todo -> k <> root -> dict_get k paths' <> None)
    /\ (forall k, dict_get k paths <> None -> dict_get k paths' <> None)
    /\ (forall k, dict_get k paths' <> None -> dict_get k paths <> None \/ In k todo).
Proof.
  induction todo as [|node todo IH]; intros paths levels paths' levels' H Hinv;
    simpl in H.
  - inversion H. subst. repeat split; auto.
  - destruct (value_eqb node root) eqn:E; simpl in H.
    + apply value_eqb_eq in E. subst node.
      destruct (IH _ _ _ _ H Hinv) as [H1 [H2 [H3 H4]]].
      split; [exact H1|]. split; [|split].
      * intros k [->|Hin] Hne; [congruence|auto].
      * exact H3.
      * intros k Hk. destruct (H4 k Hk); [left|right; right]; auto.
    + apply value_eqb_neq in E.
      destruct (shortest_path G root node) as [path|e] eqn:Hsp; simpl in H;
        [|discriminate].
      destruct (shortest_path_sound _ _ _ _ Hsp) as [pre [Hp [Hni [Hl Hw]]]].
      rewrite Hl in H.
      assert (Hinv' : paths_levels_ok G root (dict_set node path paths)
                        (dict_set node (path_level path) levels)).
      { intro k. destruct (value_eqb k node) eqn:Ek.
        - apply value_eqb_eq in Ek. subst k.
          rewrite !dict_get_set_same. auto.
        - apply value_eqb_neq in Ek.
          rewrite !dict_get_set_other by exact Ek. apply Hinv. }
      destruct (IH _ _ _ _ H Hinv') as [H1 [H2 [H3 H4]]].
      split; [exact H1|]. split; [|split].
      * intros k [->|Hin] Hne.
        -- apply H3. rewrite dict_get_set_same. discriminate.
        -- auto.
      * intros k Hk. apply H3.
        destruct (value_eqb k node) eqn:Ek.
        -- apply value_eqb_eq in Ek. subst k. rewrite dict_get_set_same. discriminate.
        -- apply value_eqb_neq in Ek. now rewrite dict_get_set_other.
      * intros k Hk. destruct (H4 k Hk) as [Hs|Hin]; [|right; now right].
        destruct (value_eqb k node) eqn:Ek.
        -- apply value_eqb_eq in Ek. subst k. right. now left.
        -- apply value_eqb_neq in Ek.
           rewrite dict_get_set_other in Hs by exact Ek. now left.
Qed.

Lemma unique_In (v : value) (vs : list value) : In v (unique vs) <-> In v vs.
Proof.
  induction vs as [|w vs IH]; simpl; [tauto|].
  rewrite filter_In, IH. split.
  - intros [->|[Hin _]]; auto.
  - intros [->|Hin]; [now left|].
    destruct (value_eqb v w) eqn:E.
    + apply value_eqb_eq in E. now left.
    + right. split; [assumption|reflexivity].
Qed.

Lemma nodes_from_pandas_edgelist (df : DataFrame) (nm : string) (v : value) :
  In v (nodes (from_pandas_edgelist df (parent_col nm) (name_col nm)))
  <-> exists u, edge df nm u v \/ edge df nm v u.
Proof.
  simpl. rewrite unique_In, in_flat_map. unfold edge. split.
  - intros [r [Hin [E|[E|[]]]]].
    + exists (get (name_col nm) r). right. eauto.
    + exists (get (parent_col nm) r). left. eauto.
  - intros [u [[r [Hin [E1 E2]]]|[r [Hin [E1 E2]]]]]; exists r; simpl; auto.
Qed.

(** What [_get_paths] leaves in its two dicts. *)
Lemma _get_paths_spec (df : DataFrame) (nm : string) (root : value)
      (paths : dict (list value)) (levels : dict Z) :
  _get_paths df nm root = Ok (paths, levels) ->
  let G := from_pandas_edgelist df (parent_col nm) (name_col nm) in
  paths_levels_ok G root paths levels
  /\ (forall k, In k (nodes G) -> k <> root -> dict_get k paths <> None)
  /\ (forall k, dict_get k paths <> None -> In k (nodes G)).
Proof.
  intro H. cbv zeta. unfold _get_paths in H.
  apply get_paths_loop_ok in H.
  - destruct H as [H1 [H2 [_ H4]]]. repeat split; auto.
    intros k Hk. destruct (H4 k Hk) as [Hs|Hin]; auto. simpl in Hs. congruence.
  - intro k. reflexivity.
Qed.

(** ** Looking rows up *)

Lemma find_map {A B : Type} (f : A -> B) (p : B -> bool) (l : list A) :
  find p (map f l) = option_map f (find (fun a => p (f a)) l).
Proof.
  induction l as [|a l IH]; simpl; [reflexivity|].
  destruct (p (f a)); auto.
Qed.

Lemma find_ext_in {A : Type} (p q : A -> bool) (l : list A) :
  (forall a, In a l -> p a = q a) -> find p l = find q l.
Proof.
  induction l as [|a l IH]; intro H; simpl; [reflexivity|].
  rewrite (H a) by now left. destruct (q a); auto.
  apply IH. intros b Hb. apply H. now right.
Qed.

Lemma find_filter_hd {A : Type} (p : A -> bool) (l : list A) :
  find p l = hd_error (filter p l).
Proof.
  induction l as [|a l IH]; simpl; [reflexivity|].
  destruct (p a); auto.
Qed.

Lemma find_app {A : Type} (p : A -> bool) (l1 l2 : list A) :
  find p (l1 ++ l2) = match find p l1 with Some a => Some a | None => find p l2 end.
Proof.
  induction l1 as [|a l1 IH]; simpl; [reflexivity|].
  destruct (p a); auto.
Qed.

Lemma find_none_forall {A : Type} (p : A -> bool) (l : list A) :
  (forall a, In a l -> p a = false) -> find p l = None.
Proof.
  induction l as [|a l IH]; intro H; simpl; [reflexivity|].
  rewrite (H a) by now left. apply IH. intros b Hb. apply H. now right.
Qed.

Lemma lookup_row_Some (c : label) (k : value) (df : DataFrame) (r : Row) :
  lookup_row c k df = Some r -> In r (data df) /\ get c r = k.
Proof.
  unfold lookup_row. intro H. apply find_some in H. destruct H as [Hin E].
  apply value_eqb_eq in E. auto.
Qed.

Lemma lookup_row_None (c : label) (k : value) (df : DataFrame) :
  lookup_row c k df = None -> forall r, In r (data df) -> get c r <> k.
Proof.
  unfold lookup_row. intros H r Hin E.
  apply (find_none _ _ H) in Hin. apply value_eqb_neq in Hin. contradiction.
Qed.

Lemma lookup_row_In (c : label) (k : value) (df : DataFrame) (r : Row) :
  In r (data df) -> get c r = k -> lookup_row c k df <> None.
Proof.
  intros Hin E H. eapply lookup_row_None in H; eauto.
Qed.

(** ** merge *)

Lemma has_column_In (c : label) (df : DataFrame) :
  has_column c df = true <-> In c (columns df).
Proof. apply mem_label_In. Qed.

Lemma joined_row_no_clash (on : label) (sx sy : string) (left right : DataFrame)
      (l : Row) (m : option Row) :
  no_clash on left right ->
  joined_row on sx sy left right l m = widen on left right l m.
Proof.
  intro Hnc. unfold joined_row, widen, project. f_equal.
  - apply map_ext_in. intros c Hin. unfold left_label.
    destruct (mem_label c (brought on right)) eqn:Hm.
    + apply mem_label_In in Hm. apply Hnc in Hm. contradiction.
    + now rewrite andb_false_r.
  - apply map_ext_in. intros c Hin. unfold right_label.
    destruct (mem_label c (columns left)) eqn:Hm; auto.
    apply mem_label_In in Hm. apply Hnc in Hin. contradiction.
Qed.

Lemma merge_left_inv (on : label) (sx sy : string) (left right M : DataFrame) :
  merge_left on sx sy left right = Ok M ->
  In on (columns left) /\ In on (columns right)
  /\ columns M = map (left_label on sx right) (columns left)
                 ++ map (right_label sy left) (brought on right)
  /\ data M =
     flat_map (fun l =>
                 match filter (fun m => value_eqb (get on m) (get on l)) (data right) with
                 | [] => [joined_row on sx sy left right l None]
                 | ms => map (fun m => joined_row on sx sy left right l (Some m)) ms
                 end) (data left).
Proof.
  unfold merge_left. intro H.
  destruct (has_column on left && has_column on right) eqn:Hc; [|discriminate].
  apply andb_true_iff in Hc. destruct Hc as [Hl Hr].
  apply has_column_In in Hl. apply has_column_In in Hr.
  inversion H. subst M. clear H.
  split; [exact Hl|]. split; [exact Hr|]. split; [reflexivity|].
  unfold data at 1. simpl. apply data_range_index.
Qed.

Lemma merge_left_no_clash (on : label) (sx sy : string) (left right M : DataFrame) :
  merge_left on sx sy left right = Ok M ->
  no_clash on left right ->
  In on (columns left) /\ In on (columns right)
  /\ columns M = columns left ++ brought on right
  /\ data M =
     flat_map (fun l =>
                 match filter (fun m => value_eqb (get on m) (get on l)) (data right) with
                 | [] => [widen on left right l None]
                 | ms => map (fun m => widen on left right l (Some m)) ms
                 end) (data left).
Proof.
  intros H Hnc.
  destruct (merge_left_inv _ _ _ _ _ _ H) as [Hl [Hr [Hcols Hdata]]].
  split; [exact Hl|]. split; [exact Hr|]. split.
  - rewrite Hcols. f_equal.
    + rewrite <- (map_id (columns left)) at 2. apply map_ext_in. intros c Hin.
      unfold left_label. destruct (mem_label c (brought on right)) eqn:Hm.
      * apply mem_label_In in Hm. apply Hnc in Hm. contradiction.
      * now rewrite andb_false_r.
    + rewrite <- (map_id (brought on right)) at 2. apply map_ext_in. intros c Hin.
      unfold right_label. destruct (mem_label c (columns left)) eqn:Hm; auto.
      apply mem_label_In in Hm. apply Hnc in Hin. contradiction.
  - rewrite Hdata. apply flat_map_ext. intro l.
    destruct (filter (fun m => value_eqb (get on m) (get on l)) (data right)) as [|m ms].
    + now rewrite joined_row_no_clash.
    + apply map_ext. intro m0. now rewrite joined_row_no_clash.
Qed.

Lemma labels_project (cs : list label) (r : Row) : map fst (project cs r) = cs.
Proof.
  unfold project. rewrite map_map. simpl. apply map_id.
Qed.

Lemma get_widen_left (on : label) (left right : DataFrame) (l : Row) (m : option Row)
      (c : label) :
  In c (columns left) -> get c (widen on left right l m) = get c l.
Proof.
  intro Hin. unfold widen. rewrite get_app_l.
  - now apply get_project.
  - now rewrite labels_project.
Qed.

Lemma get_widen_right (on : label) (left right : DataFrame) (l : Row) (m : option Row)
      (c : label) :
  ~ In c (columns left) -> In c (brought on right) ->
  get c (widen on left right l m) = match m with Some m => get c m | None => VNaN end.
Proof.
  intros Hni Hin. unfold widen. rewrite get_app_r.
  - now rewrite (get_map_cells (fun c => match m with Some m => get c m | None => VNaN end)).
  - now rewrite labels_project.
Qed.

(** Without clash, the first row of the merge under key [k] is the first
    left row under [k], widened with its first match on the right. *)
Lemma lookup_merge_left (on : label) (sx sy : string) (left right M : DataFrame)
      (k : value) :
  merge_left on sx sy left right = Ok M ->
  no_clash on left right ->
  lookup_row on k M
  = option_map (fun l => widen on left right l (lookup_row on (get on l) right))
               (lookup_row on k left).
Proof.
  intros H Hnc.
  destruct (merge_left_no_clash _ _ _ _ _ _ H Hnc) as [Hl [Hr [Hcols Hdata]]].
  unfold lookup_row. rewrite Hdata. clear Hdata.
  induction (data left) as [|l ls IH]; simpl; [reflexivity|].
  rewrite find_app.
  destruct (value_eqb (get on l) k) eqn:E.
  - assert (Hh : find (fun r => value_eqb (get on r) (get on l)) (data right)
                 = hd_error (filter (fun m => value_eqb (get on m) (get on l))
                                    (data right)))
      by apply find_filter_hd.
    cbn [option_map]. rewrite Hh.
    destruct (filter (fun m => value_eqb (get on m) (get on l)) (data right)) as [|m ms];
      simpl; rewrite get_widen_left by exact Hl; rewrite E; reflexivity.
  - cbn [option_map]. rewrite find_none_forall; [exact IH|].
    intros a Ha.
    destruct (filter (fun m => value_eqb (get on m) (get on l)) (data right)) as [|m ms].
    + destruct Ha as [<-|[]]. now rewrite get_widen_left.
    + change (In a (map (fun m => widen on left right l (Some m)) (m :: ms))) in Ha.
      apply in_map_iff in Ha. destruct Ha as [m0 [<- _]]. now rewrite get_widen_left.
Qed.

(** ** The constructor, taken apart *)

Lemma Hierarchy_init_inv (df : DataFrame) (nm : string) (root : option value)
      (h : Hierarchy) :
  Hierarchy_init df nm root = Ok h ->
  exists paths levels merged,
    name h = nm
    /\ (forall r, root = Some r -> root_node h = r)
    /\ In (name_col nm) (columns df) /\ In (parent_col nm) (columns df)
    /\ has_duplicates (column (name_col nm) df) = false
    /\ _get_paths (add_ix df) nm (root_node h) = Ok (paths, levels)
    /\ paths_df h = make_paths_df nm paths
    /\ merge_left (name_col nm) "_x" "_y" (add_ix df) (make_levels_df nm levels)
       = Ok merged
    /\ def_df h = fillna DEFAULT_LEVEL merged.
Proof.
  unfold Hierarchy_init. intro H.
  destruct (match root with None => at_ 0 (parent_col nm) df | Some r => Ok r end)
    as [rn|e] eqn:Hroot; [|discriminate]. simpl in H.
  destruct (select [name_col nm] (add_ix df)) as [aggs|e]; [|discriminate]. simpl in H.
  destruct (has_column (name_col nm) df && has_column (parent_col nm) df) eqn:Hc;
    [|discriminate].
  destruct (negb (has_duplicates (column (name_col nm) df))) eqn:Hd; [|discriminate].
  destruct (_get_paths (add_ix df) nm rn) as [[paths levels]|e] eqn:Hp; [|discriminate].
  simpl in H.
  destruct (merge_left (name_col nm) "_x" "_y" (add_ix df) (make_levels_df nm levels))
    as [merged|e] eqn:Hm; [|discriminate].
  simpl in H. inversion H. subst h. clear H. simpl.
  apply andb_true_iff in Hc. destruct Hc as [Hc1 Hc2].
  exists paths, levels, merged. repeat split; auto.
  - intros r ->. now inversion Hroot.
  - now apply has_column_In.
  - now apply has_column_In.
  - now apply negb_true_iff.
Qed.

(** ** The index column added by the constructor *)

Lemma columns_add_ix (df : DataFrame) (c : label) :
  In c (columns (add_ix df)) <-> In c (columns df) \/ c = IX_COL.
Proof.
  unfold add_ix. destruct (has_column IX_COL df) eqn:E.
  - apply has_column_In in E. split; [tauto|]. intros [H| ->]; auto.
  - unfold with_column. rewrite E. simpl. rewrite in_app_iff. simpl. intuition.
Qed.

(** Row by row, [add_ix] leaves the cells of the given columns alone. *)
Lemma data_add_ix (df : DataFrame) :
  Forall2 (fun r r' => forall c, In c (columns df) -> get c r' = get c r)
          (data df) (data (add_ix df)).
Proof.
  unfold add_ix. destruct (has_column IX_COL df) eqn:E.
  - induction (data df); constructor; auto.
  - unfold with_column, data. rewrite E. simpl.
    induction (rows df) as [|[i r] rs IH]; simpl; constructor; auto.
    intros c Hin.
    rewrite (get_map_cells
               (fun c' => if label_eqb c' IX_COL then VInt i else get c' r))
      by (apply in_or_app; now left).
    destruct (label_eqb c IX_COL) eqn:Ec; auto.
    apply label_eqb_eq in Ec. subst c. apply has_column_In in Hin. congruence.
Qed.

Lemma Forall2_In_l {A B : Type} (R : A -> B -> Prop) (l : list A) (l' : list B) (a : A) :
  Forall2 R l l' -> In a l -> exists b, In b l' /\ R a b.
Proof.
  induction 1 as [|x y l l' Hxy _ IH]; simpl; [tauto|].
  intros [->|Hin]; eauto. destruct (IH Hin) as [b [Hb Hr]]. eauto.
Qed.

Lemma Forall2_In_r {A B : Type} (R : A -> B -> Prop) (l : list A) (l' : list B) (b : B) :
  Forall2 R l l' -> In b l' -> exists a, In a l /\ R a b.
Proof.
  induction 1 as [|x y l l' Hxy _ IH]; simpl; [tauto|].
  intros [->|Hin]; eauto. destruct (IH Hin) as [a [Ha Hr]]. eauto.
Qed.

Lemma edge_add_ix (df : DataFrame) (nm : string) (u v : value) :
  In (name_col nm) (columns df) -> In (parent_col nm) (columns df) ->
  (edge (add_ix df) nm u v <-> edge df nm u v).
Proof.
  intros Hn Hp. unfold edge. split.
  - intros [r' [Hin [E1 E2]]].
    destruct (Forall2_In_r _ _ _ _ (data_add_ix df) Hin) as [r [Hr Hc]].
    exists r. rewrite <- (Hc _ Hn), <- (Hc _ Hp). auto.
  - intros [r [Hin [E1 E2]]].
    destruct (Forall2_In_l _ _ _ _ (data_add_ix df) Hin) as [r' [Hr Hc]].
    exists r'. rewrite (Hc _ Hn), (Hc _ Hp). auto.
Qed.

Lemma lookup_row_add_ix (df : DataFrame) (c : label) (k : value) :
  In c (columns df) ->
  match lookup_row c k (add_ix df), lookup_row c k df with
  | Some r', Some r => forall c', In c' (columns df) -> get c' r' = get c' r
  | None, None => True
  | _, _ => False
  end.
Proof.
  intro Hc. unfold lookup_row.
  induction (data_add_ix df) as [|r r' l l' Hr _ IH]; simpl; [exact I|].
  rewrite (Hr _ Hc). destruct (value_eqb (get c r) k); auto.
Qed.

(** ** Reading the levels back *)

Lemma lookup_levels_df (nm : string) (levels : dict Z) (k : value) :
  name_col nm <> LEVEL_COL ->
  option_map (get LEVEL_COL) (lookup_row (name_col nm) k (make_levels_df nm levels))
  = option_map VInt (dict_get k levels).
Proof.
  intro Hne. unfold lookup_row, make_levels_df, data. simpl rows.
  fold (data (mkDF [name_col nm; LEVEL_COL]
                   (range_index (map (fun kv : value * Z =>
                      [(name_col nm, fst kv); (LEVEL_COL, VInt (snd kv))]) levels)))).
  unfold data. simpl rows. rewrite data_range_index.
  induction levels as [|[k' lv] levels IH]; simpl; [reflexivity|].
  rewrite String.eqb_refl. rewrite (value_eqb_sym k' k).
  destruct (value_eqb k k') eqn:E; simpl.
  - destruct (label_eqb LEVEL_COL (name_col nm)) eqn:El.
    + apply label_eqb_eq in El. congruence.
    + simpl in El. rewrite El. reflexivity.
  - exact IH.
Qed.

Lemma fill_cell_present (v x : value) : isnull x = false -> fill_cell v x = x.
Proof. unfold fill_cell. now intros ->. Qed.

Lemma data_fillna (v : value) (df : DataFrame) :
  data (fillna v df)
  = map (fun r => map (fun c => (c, fill_cell v (get c r))) (columns df)) (data df).
Proof.
  unfold fillna, data. simpl. rewrite !map_map. reflexivity.
Qed.

(** [fillna] does not disturb the lookup under a column without missing cell. *)
Lemma lookup_row_fillna (v : value) (df : DataFrame) (c : label) (k : value) :
  In c (columns df) ->
  (forall r, In r (data df) -> isnull (get c r) = false) ->
  lookup_row c k (fillna v df)
  = option_map (fun r => map (fun c => (c, fill_cell v (get c r))) (columns df))
               (lookup_row c k df).
Proof.
  intros Hc Hnn. unfold lookup_row. rewrite data_fillna, find_map.
  f_equal. apply find_ext_in. intros r Hr.
  rewrite (get_map_cells (fun c => fill_cell v (get c r))) by exact Hc.
  rewrite fill_cell_present; auto.
Qed.

(** ** Reading the paths back *)

Lemma get_numbered (f : nat -> value) (idx : list nat) (j : nat) :
  In j idx -> get (LInt j) (map (fun j => (LInt j, f j)) idx) = f j.
Proof.
  induction idx as [|i idx IH]; simpl; [tauto|].
  intros [->|Hin].
  - now rewrite Nat.eqb_refl.
  - destruct (Nat.eqb j i) eqn:E; auto. apply Nat.eqb_eq in E. now subst.
Qed.

Lemma map_nth_seq_from (d : value) (p pre : list value) :
  map (fun j => nth j (pre ++ p) d) (seq (length pre) (length p)) = p.
Proof.
  revert pre. induction p as [|a p IH]; intro pre; simpl; [reflexivity|].
  f_equal.
  - rewrite app_nth2 by lia. now rewrite Nat.sub_diag.
  - specialize (IH (pre ++ [a])). rewrite <- app_assoc in IH. simpl in IH.
    rewrite length_app in IH. simpl in IH. rewrite Nat.add_1_r in IH. exact IH.
Qed.

(** Reading a path of non-missing nodes out of its padded row. *)
Lemma unpad_path (p : list value) (n : nat) :
  length p <= n ->
  Forall (fun v => isnull v = false) p ->
  filter (fun v => negb (isnull v)) (map (fun j => nth j p VNaN) (seq 0 n)) = p.
Proof.
  intros Hle Hnn.
  replace n with (length p + (n - length p)) by lia.
  rewrite seq_app, map_app, filter_app. simpl.
  pose proof (map_nth_seq_from VNaN p []) as H0. simpl in H0. rewrite H0.
  assert (H1 : filter (fun v => negb (isnull v)) p = p).
  { clear Hle H0. induction Hnn as [|a p Ha _ IH]; simpl; [reflexivity|].
    rewrite Ha. simpl. now rewrite IH. }
  assert (H2 : filter (fun v => negb (isnull v))
                 (map (fun j => nth j p VNaN) (seq (length p) (n - length p))) = []).
  { generalize (n - length p) as m. intro m.
    assert (Hg : forall s, length p <= s ->
               filter (fun v => negb (isnull v))
                 (map (fun j => nth j p VNaN) (seq s m)) = []).
    { induction m as [|m IHm]; intros s Hs; simpl; [reflexivity|].
      rewrite nth_overflow by exact Hs. simpl. apply IHm. lia. }
    apply Hg. lia. }
  rewrite H1, H2. apply app_nil_r.
Qed.

Lemma dict_get_In {V : Type} (k : value) (v : V) (d : dict V) :
  dict_get k d = Some v -> In (k, v) d.
Proof.
  induction d as [|[k' v'] d IH]; simpl; [discriminate|].
  destruct (value_eqb k k') eqn:E.
  - apply value_eqb_eq in E. subst k'. intro H. inversion H. now left.
  - intro H. right. auto.
Qed.

Lemma max_len_ge (paths : dict (list value)) (k : value) (p : list value) :
  In (k, p) paths -> length p <= max_len paths.
Proof.
  induction paths as [|[k' p'] paths IH]; simpl; [tauto|].
  intros [E|Hin].
  - inversion E. subst. apply Nat.le_max_l.
  - etransitivity; [apply IH; exact Hin|apply Nat.le_max_r].
Qed.

(** The row of [paths_df] under key [k] holds the dict's path for [k],
    padded. *)
Lemma lookup_paths_df (nm : string) (paths : dict (list value)) (k : value) :
  option_map (fun r => map (fun c => get c r) (map LInt (seq 0 (max_len paths))))
             (lookup_row (name_col nm) k (make_paths_df nm paths))
  = option_map (fun p => map (fun j => nth j p VNaN) (seq 0 (max_len paths)))
               (dict_get k paths).
Proof.
  unfold lookup_row, make_paths_df, data. simpl rows. rewrite data_range_index.
  generalize (seq 0 (max_len paths)) as idx. intro idx.
  induction paths as [|[k' p] paths IH]; simpl; [reflexivity|].
  rewrite String.eqb_refl. rewrite (value_eqb_sym k' k).
  destruct (value_eqb k k') eqn:E; simpl; [|exact IH].
  f_equal. rewrite map_map. apply map_ext_in. intros j Hj. simpl.
  now rewrite (get_numbered (fun j => nth j p VNaN)).
Qed.

Lemma walk_endpoints (E : value -> value -> Prop) (p : list value) :
  walk E p -> 2 <= length p ->
  forall v, In v p -> exists u, E u v \/ E v u.
Proof.
  induction 1 as [w|a b q Hab Hq IH]; simpl; intros Hlen v Hin; [lia|].
  destruct Hin as [->|Hin]; [eauto|].
  destruct q as [|c q].
  - destruct Hin as [->|[]]. eauto.
  - apply IH; auto. simpl. lia.
Qed.

Lemma edge_present (df : DataFrame) (nm : string) (u v : value) :
  keys_present df nm = true -> edge df nm u v ->
  isnull u = false /\ isnull v = false.
Proof.
  unfold keys_present, edge. intros Hk [r [Hin [<- <-]]].
  rewrite forallb_forall in Hk. specialize (Hk r Hin).
  apply andb_true_iff in Hk. destruct Hk as [H1 H2].
  apply negb_true_iff in H1. apply negb_true_iff in H2. auto.
Qed.

Section Constructed.
Variables (df : DataFrame) (nm : string) (root : option value) (h : Hierarchy).
Hypothesis Hinit : Hierarchy_init df nm root = Ok h.

Let G := from_pandas_edgelist (add_ix df) (parent_col nm) (name_col nm).

Lemma init_name : name h = nm.
Proof.
  destruct (Hierarchy_init_inv _ _ _ _ Hinit) as [? [? [? [? _]]]]. assumption.
Qed.

Lemma init_columns :
  In (name_col nm) (columns df) /\ In (parent_col nm) (columns df).
Proof.
  destruct (Hierarchy_init_inv _ _ _ _ Hinit) as [? [? [? [? [? [? [? _]]]]]]]. auto.
Qed.

Lemma G_edges (u v : value) : In (u, v) (edges G) <-> edge df nm u v.
Proof.
  unfold G. rewrite edge_edges. destruct init_columns. now apply edge_add_ix.
Qed.

Lemma G_nodes (v : value) :
  In v (nodes G) <-> exists u, edge df nm u v \/ edge df nm v u.
Proof.
  unfold G. rewrite nodes_from_pandas_edgelist. destruct init_columns as [Hn Hp].
  split; intros [u Hu]; exists u; rewrite !edge_add_ix in *; auto.
Qed.

(** A path handed out in the constructor, seen on the definition table. *)
Lemma init_path_sound (k : value) (p : list value) :
  shortest_path G (root_node h) k = Ok p -> k <> root_node h ->
  exists q, p = root_node h :: q ++ [k]
            /\ ~ In (root_node h) (q ++ [k])
            /\ walk (edge df nm) p.
Proof.
  intros Hsp Hne.
  destruct (shortest_path_sound _ _ _ _ Hsp) as [pre [Hp [Hni [Hl Hw]]]].
  destruct (exists_last (l := pre)) as [q [x Hq]].
  { intros ->. subst p. unfold last_node in Hl. simpl in Hl. congruence. }
  subst pre. exists q.
  assert (x = k).
  { subst p. unfold last_node in Hl. rewrite app_comm_cons in Hl.
    now rewrite last_last in Hl. }
  subst x. repeat split; auto.
  clear - Hw Hinit. induction Hw; constructor; auto. now apply G_edges.
Qed.

Lemma init_path_present (k : value) (p : list value) :
  keys_present df nm = true ->
  shortest_path G (root_node h) k = Ok p -> k <> root_node h ->
  Forall (fun v => isnull v = false) p.
Proof.
  intros Hk Hsp Hne.
  destruct (init_path_sound _ _ Hsp Hne) as [q [Hp [_ Hw]]].
  apply Forall_forall. intros v Hv.
  destruct (walk_endpoints _ _ Hw) with (v := v) as [u [Hu|Hu]]; auto.
  - subst p. simpl. rewrite length_app. simpl. lia.
  - apply (edge_present _ _ _ _ Hk Hu).
  - apply (edge_present _ _ _ _ Hk Hu).
Qed.
End Constructed.

Lemma merge_rows_widen (on : label) (sx sy : string) (left right M : DataFrame) (r : Row) :
  merge_left on sx sy left right = Ok M ->
  no_clash on left right ->
  In r (data M) ->
  exists l m, In l (data left) /\ r = widen on left right l m
              /\ match m with
                 | Some m => In m (data right) /\ get on m = get on l
                 | None => forall m, In m (data right) -> get on m <> get on l
                 end.
Proof.
  intros H Hnc Hin.
  destruct (merge_left_no_clash _ _ _ _ _ _ H Hnc) as [_ [_ [_ Hdata]]].
  rewrite Hdata in Hin. apply in_flat_map in Hin. destruct Hin as [l [Hl Hr]].
  exists l.
  destruct (filter (fun m => value_eqb (get on m) (get on l)) (data right))
    as [|m ms] eqn:Hf.
  - destruct Hr as [<-|[]]. exists None. repeat split; auto.
    intros m Hm E.
    assert (Hi : In m (filter (fun m => value_eqb (get on m) (get on l)) (data right))).
    { apply filter_In. split; auto. now apply value_eqb_eq. }
    rewrite Hf in Hi. destruct Hi.
  - apply in_map_iff in Hr. destruct Hr as [m0 [<- Hm0]].
    exists (Some m0). repeat split; auto.
    + rewrite <- Hf in Hm0. apply filter_In in Hm0. tauto.
    + rewrite <- Hf in Hm0. apply filter_In in Hm0. destruct Hm0 as [_ E].
      now apply value_eqb_eq.
Qed.

Lemma level_col_fresh (df : DataFrame) :
  has_column LEVEL_COL df = false -> ~ In LEVEL_COL (columns (add_ix df)).
Proof.
  intros H Hin. apply columns_add_ix in Hin. destruct Hin as [Hin|E].
  - apply has_column_In in Hin. congruence.
  - discriminate.
Qed.

Lemma brought_levels (nm : string) :
  name_col nm <> LEVEL_COL ->
  brought (name_col nm) (make_levels_df nm []) = [LEVEL_COL].
Proof.
  intro Hne. unfold brought. simpl. rewrite String.eqb_refl. simpl.
  destruct (label_eqb LEVEL_COL (name_col nm)) eqn:E.
  - apply label_eqb_eq in E. congruence.
  - simpl in E. rewrite E. reflexivity.
Qed.

(** The level cell the constructor stores for the definition row of [k]. *)
Lemma level_of_merge (df : DataFrame) (nm : string) (levels : dict Z)
      (merged : DataFrame) (k : value) :
  In (name_col nm) (columns df) ->
  has_column LEVEL_COL df = false ->
  keys_present df nm = true ->
  merge_left (name_col nm) "_x" "_y" (add_ix df) (make_levels_df nm levels) = Ok merged ->
  option_map (get LEVEL_COL) (lookup_row (name_col nm) k (fillna DEFAULT_LEVEL merged))
  = match lookup_row (name_col nm) k df with
    | None => None
    | Some _ => Some (match dict_get k levels with
                      | Some lv => VInt lv
                      | None => DEFAULT_LEVEL
                      end)
    end.
Proof.
  intros Hn Hlev Hkp Hm.
  assert (Hne : name_col nm <> LEVEL_COL).
  { intro E. rewrite E in Hn. apply has_column_In in Hn. congruence. }
  assert (Hfresh := level_col_fresh _ Hlev).
  assert (Hb : brought (name_col nm) (make_levels_df nm levels) = [LEVEL_COL])
    by (apply (brought_levels nm Hne)).
  assert (Hnc : no_clash (name_col nm) (add_ix df) (make_levels_df nm levels)).
  { intros c Hc. rewrite Hb in Hc. destruct Hc as [<-|[]]. exact Hfresh. }
  assert (Hn1 : In (name_col nm) (columns (add_ix df)))
    by (apply columns_add_ix; now left).
  destruct (merge_left_no_clash _ _ _ _ _ _ Hm Hnc) as [_ [_ [Hcols _]]].
  assert (Hpres : forall l, In l (data (add_ix df)) -> isnull (get (name_col nm) l) = false).
  { intros l Hl.
    destruct (Forall2_In_r _ _ _ _ (data_add_ix df) Hl) as [r [Hr Hc]].
    rewrite (Hc _ Hn). unfold keys_present in Hkp. rewrite forallb_forall in Hkp.
    specialize (Hkp r Hr). apply andb_true_iff in Hkp. destruct Hkp as [H1 _].
    now apply negb_true_iff in H1. }
  rewrite lookup_row_fillna.
  2:{ rewrite Hcols. apply in_or_app. now left. }
  2:{ intros r Hr.
      destruct (merge_rows_widen _ _ _ _ _ _ _ Hm Hnc Hr) as [l [m [Hl [-> _]]]].
      rewrite get_widen_left by exact Hn1. now apply Hpres. }
  rewrite (lookup_merge_left _ _ _ _ _ _ k Hm Hnc).
  pose proof (lookup_row_add_ix df (name_col nm) k Hn) as Hix.
  destruct (lookup_row (name_col nm) k (add_ix df)) as [l|] eqn:Hl;
    destruct (lookup_row (name_col nm) k df) as [r|] eqn:Hr; try contradiction;
    [|reflexivity].
  simpl. f_equal.
  rewrite (get_map_cells (fun c => fill_cell DEFAULT_LEVEL (get c _)))
    by (rewrite Hcols; apply in_or_app; right; rewrite Hb; now left).
  rewrite get_widen_right; [|exact Hfresh|rewrite Hb; now left].
  apply lookup_row_Some in Hl. destruct Hl as [_ ->].
  pose proof (lookup_levels_df nm levels k Hne) as Hlv.
  destruct (lookup_row (name_col nm) k (make_levels_df nm levels)) as [m|];
    destruct (dict_get k levels) as [lv|]; simpl in Hlv; try discriminate.
  - inversion Hlv as [E]. rewrite E. reflexivity.
  - reflexivity.
Qed.

Lemma walk_last_edge (E : value -> value -> Prop) (p : list value) (k : value) :
  walk E (p ++ [k]) -> p <> [] -> exists u, E u k.
Proof.
  induction p as [|a p IH]; intros Hw Hne; [congruence|].
  destruct p as [|b p].
  - simpl in Hw. inversion Hw. eauto.
  - simpl in Hw. inversion Hw. subst. apply IH; [assumption|discriminate].
Qed.

(** What the constructor leaves behind, in terms of the two dicts of
    [_get_paths]. *)
Lemma init_spec (df : DataFrame) (nm : string) (root : option value) (h : Hierarchy) :
  Hierarchy_init df nm root = Ok h ->
  has_column LEVEL_COL df = false ->
  keys_present df nm = true ->
  exists paths levels,
    paths_levels_ok (from_pandas_edgelist (add_ix df) (parent_col nm) (name_col nm))
                    (root_node h) paths levels
    /\ (forall k, (exists u, edge df nm u k \/ edge df nm k u) ->
                  k <> root_node h -> dict_get k paths <> None)
    /\ paths_df h = make_paths_df nm paths
    /\ (forall k, stored_path h k = dict_get k paths)
    /\ (forall k, level_of h k
                  = match lookup_row (name_col nm) k df with
                    | None => None
                    | Some _ => Some (match dict_get k levels with
                                      | Some lv => VInt lv
                                      | None => DEFAULT_LEVEL
                                      end)
                    end).
Proof.
  intros Hinit Hlev Hkp.
  destruct (Hierarchy_init_inv _ _ _ _ Hinit)
    as [paths [levels [merged [Hnm [_ [Hn [Hp [_ [Hgp [Hpdf [Hm Hdef]]]]]]]]]]].
  destruct (_get_paths_spec _ _ _ _ _ Hgp) as [Hok [Hcov _]].
  exists paths, levels. split; [exact Hok|]. split; [|split; [exact Hpdf|split]].
  - intros k Hk Hne. apply Hcov; auto. apply (G_nodes _ _ _ _ Hinit). exact Hk.
  - intro k. unfold stored_path. rewrite Hpdf, Hnm.
    change (tl (columns (make_paths_df nm paths)))
      with (map LInt (seq 0 (max_len paths))).
    pose proof (lookup_paths_df nm paths k) as Hl.
    destruct (lookup_row (name_col nm) k (make_paths_df nm paths)) as [r|];
      destruct (dict_get k paths) as [p|] eqn:Hd; simpl in Hl; try discriminate;
      [|reflexivity].
    simpl. inversion Hl as [E]. rewrite E. f_equal.
    specialize (Hok k). rewrite Hd in Hok. destruct Hok as [Hsp [Hne _]].
    apply unpad_path.
    + eapply max_len_ge. apply dict_get_In. exact Hd.
    + eapply init_path_present; eauto.
  - intro k. unfold level_of. rewrite Hdef, Hnm.
    now apply level_of_merge.
Qed.

(** ** Levels and stored paths *)

Lemma reachable_has_parent (E : value -> value -> Prop) (u v : value) :
  reachable E u v -> exists w, E w v.
Proof. destruct 1; eauto. Qed.

(** Every stored path runs from the root to its key along the edges of the
    table, holds the root only in front, and has the key's level as its
    length minus one. *)
Lemma stored_path_level (df : DataFrame) (nm : string) (root : option value)
      (h : Hierarchy) (k : value) (p : list value) :
  Hierarchy_init df nm root = Ok h ->
  has_column LEVEL_COL df = false ->
  keys_present df nm = true ->
  stored_path h k = Some p ->
  level_of h k = Some (VInt (path_level p))
  /\ k <> root_node h
  /\ (exists q, p = root_node h :: q ++ [k] /\ ~ In (root_node h) (q ++ [k]))
  /\ walk (edge df nm) p.
Proof.
  intros Hinit Hlev Hkp Hsp.
  destruct (init_spec _ _ _ _ Hinit Hlev Hkp) as [paths [levels [Hok [_ [_ [Hst Hlv]]]]]].
  rewrite Hst in Hsp. specialize (Hok k). rewrite Hsp in Hok.
  destruct Hok as [Hs [Hne Hl]].
  destruct (init_path_sound _ _ _ _ Hinit _ _ Hs Hne) as [q [Hp [Hni Hw]]].
  split; [|split; [exact Hne|split; [eauto|exact Hw]]].
  rewrite Hlv, Hl.
  destruct (lookup_row (name_col nm) k df) eqn:Hr; [reflexivity|].
  exfalso.
  assert (He : exists u, edge df nm u k).
  { rewrite Hp in Hw. rewrite app_comm_cons in Hw.
    apply walk_last_edge in Hw; [assumption|discriminate]. }
  destruct He as [u [r [Hin [_ Hk]]]].
  eapply lookup_row_None in Hr; eauto.
Qed.

(** C1. For every definition table on which construction succeeds, every
    node [k] other than the root that can be reached from the root has a
    stored path; a stored path runs from the root to its node along the
    parent -> child edges, and the node's [h_level] is the length of that
    path minus one; the root is not a key of the stored paths.  In the
    organisation with root '0', node '121' gets the path ['0','1','12','121']
    and level 3. *)
Theorem level_is_path_length_minus_one :
  (forall (df : DataFrame) (nm : string) (root : option value) (h : Hierarchy),
      Hierarchy_init df nm root = Ok h ->
      has_column LEVEL_COL df = false ->
      keys_present df nm = true ->
      (forall k, k <> root_node h -> reachable (edge df nm) (root_node h) k ->
                 exists p, stored_path h k = Some p)
      /\ (forall k p, stored_path h k = Some p ->
                      level_of h k = Some (VInt (Z.of_nat (length p) - 1))
                      /\ hd VNaN p = root_node h /\ last p VNaN = k
                      /\ walk (edge df nm) p)
      /\ stored_path h (root_node h) = None)
  /\ (exists h, Hierarchy_init org "oe" (Some (VStr "0")) = Ok h
                /\ stored_path h (VStr "121")
                   = Some [VStr "0"; VStr "1"; VStr "12"; VStr "121"]
                /\ level_of h (VStr "121") = Some (VInt 3)
                /\ stored_path h (VStr "0") = None).
Proof.
  split.
  - intros df nm root h Hinit Hlev Hkp. split; [|split].
    + intros k Hne Hr.
      destruct (init_spec _ _ _ _ Hinit Hlev Hkp) as [paths [levels [_ [Hcov [_ [Hst _]]]]]].
      rewrite Hst. destruct (dict_get k paths) as [p|] eqn:Hd; [eauto|].
      exfalso. apply (Hcov k); auto.
      destruct (reachable_has_parent _ _ _ Hr) as [w Hw]. eauto.
    + intros k p Hsp.
      destruct (stored_path_level _ _ _ _ _ _ Hinit Hlev Hkp Hsp)
        as [Hl [_ [[q [Hp _]] Hw]]].
      split; [exact Hl|]. split; [now subst p|]. split; [|exact Hw].
      subst p. rewrite app_comm_cons. apply last_last.
    + destruct (stored_path h (root_node h)) as [p|] eqn:Hsp; [|reflexivity].
      destruct (stored_path_level _ _ _ _ _ _ Hinit Hlev Hkp Hsp) as [_ [Hne _]].
      congruence.
  - eexists. split; [vm_compute; reflexivity|]. vm_compute. auto.
Qed.

Lemma level_is_path_length_minus_one_witness :
  Hierarchy_init org "oe" (Some (VStr "0")) = Ok org_h
  /\ has_column LEVEL_COL org = false
  /\ keys_present org "oe" = true
  /\ stored_path org_h (VStr "1301")
     = Some [VStr "0"; VStr "1"; VStr "13"; VStr "130"; VStr "1301"]
  /\ level_of org_h (VStr "1301") = Some (VInt 4).
Proof.
  assert (Hinit : Hierarchy_init org "oe" (Some (VStr "0")) = Ok org_h)
    by (vm_compute; reflexivity).
  assert (Hp : stored_path org_h (VStr "1301")
               = Some [VStr "0"; VStr "1"; VStr "13"; VStr "130"; VStr "1301"])
    by (vm_compute; reflexivity).
  split; [exact Hinit|]. split; [reflexivity|]. split; [reflexivity|].
  split; [exact Hp|].
  exact (proj1 (proj1 (proj2 (proj1 level_is_path_length_minus_one
                                org "oe" (Some (VStr "0")) org_h
                                Hinit eq_refl eq_refl))
                      (VStr "1301") _ Hp)).
Defined.

(** ** Nodes without a path from the root *)

Lemma reachable_cons (E : value -> value -> Prop) (u w v : value) :
  E u w -> reachable E w v -> reachable E u v.
Proof.
  intros Huw H. induction H as [v Hwv|x v Hwx IH Hxv].
  - eapply reach_step; [apply reach_edge; exact Huw|exact Hwv].
  - eapply reach_step; eauto.
Qed.

Lemma walk_reachable (E : value -> value -> Prop) (q : list value) :
  forall u k, walk E (u :: q ++ [k]) -> reachable E u k.
Proof.
  induction q as [|a q IH]; intros u k Hw; simpl in Hw; inversion Hw; subst.
  - now apply reach_edge.
  - eapply reachable_cons; eauto.
Qed.

Lemma shortest_path_reachable (df : DataFrame) (nm : string) (r k : value)
      (p : list value) :
  In (name_col nm) (columns df) -> In (parent_col nm) (columns df) ->
  shortest_path (from_pandas_edgelist (add_ix df) (parent_col nm) (name_col nm)) r k
  = Ok p ->
  k <> r -> reachable (edge df nm) r k.
Proof.
  intros Hn Hp Hsp Hne.
  destruct (shortest_path_sound _ _ _ _ Hsp) as [pre [Hpp [_ [Hl Hw]]]].
  destruct (exists_last (l := pre)) as [q [x Hq]].
  { intros ->. subst p. unfold last_node in Hl. simpl in Hl. congruence. }
  subst pre p. unfold last_node in Hl. rewrite app_comm_cons, last_last in Hl.
  subst x. apply walk_reachable with (q := q).
  clear - Hw Hn Hp.
  induction Hw as [v|a b p Hab Hw IH]; constructor; auto.
  apply edge_edges in Hab. exact (proj1 (edge_add_ix df nm _ _ Hn Hp) Hab).
Qed.

(** With the root in the graph, the loop of [_get_paths] can only fail for
    want of a path. *)
Lemma get_paths_loop_raises (G : DiGraph) (root : value) (todo : list value) :
  mem_value root (nodes G) = true ->
  (forall k, In k todo -> In k (nodes G)) ->
  forall paths levels e,
    get_paths_loop G root todo paths levels = Raise e -> e = NetworkXNoPath.
Proof.
  intros Hr. induction todo as [|node todo IH]; intros Hin paths levels e H;
    simpl in H; [discriminate|].
  assert (Hin' : forall k, In k todo -> In k (nodes G))
    by (intros k Hk; apply Hin; now right).
  destruct (negb (value_eqb node root)); [|eapply IH; eauto].
  unfold shortest_path in H at 1. rewrite Hr in H.
  assert (Hm : mem_value node (nodes G) = true)
    by (apply mem_value_In, Hin; now left).
  rewrite Hm in H. simpl in H.
  destruct (walk_back G root (length (nodes G)) node []); simpl in H.
  - eapply IH; eauto.
  - now inversion H.
Qed.

Lemma select_ok (cs : list label) (df : DataFrame) :
  (forall c, In c cs -> In c (columns df)) ->
  select cs df = Ok (reindex cs df).
Proof.
  intro H. unfold select.
  assert (E : forallb (fun c => has_column c df) cs = true).
  { apply forallb_forall. intros c Hc. apply has_column_In. auto. }
  now rewrite E.
Qed.

Lemma has_column_true (c : label) (df : DataFrame) :
  In c (columns df) -> has_column c df = true.
Proof. apply has_column_In. Qed.

(** With the two columns there, no repeated key and the root in the graph,
    a node that cannot be reached from the root makes the constructor raise
    [NetworkXNoPath]. *)
Lemma init_raises_no_path (df : DataFrame) (nm : string) (r k : value) :
  In (name_col nm) (columns df) ->
  In (parent_col nm) (columns df) ->
  has_duplicates (column (name_col nm) df) = false ->
  (exists u, edge df nm u r \/ edge df nm r u) ->
  (exists u, edge df nm u k \/ edge df nm k u) ->
  k <> r ->
  ~ reachable (edge df nm) r k ->
  Hierarchy_init df nm (Some r) = Raise NetworkXNoPath.
Proof.
  intros Hn Hp Hd Hr Hk Hne Hnr.
  unfold Hierarchy_init. simpl.
  rewrite select_ok.
  2:{ intros c [<-|[]]. apply columns_add_ix. now left. }
  simpl. rewrite (has_column_true _ _ Hn), (has_column_true _ _ Hp), Hd. simpl.
  assert (HG : forall v, (exists u, edge df nm u v \/ edge df nm v u) ->
             In v (nodes (from_pandas_edgelist (add_ix df) (parent_col nm) (name_col nm)))).
  { intros v [u Hu]. apply nodes_from_pandas_edgelist. exists u.
    rewrite !edge_add_ix by assumption. exact Hu. }
  destruct (_get_paths (add_ix df) nm r) as [[paths levels]|e] eqn:Hgp; simpl.
  - exfalso. destruct (_get_paths_spec _ _ _ _ _ Hgp) as [Hok [Hcov _]].
    specialize (Hcov k (HG k Hk) Hne). specialize (Hok k).
    destruct (dict_get k paths) as [p|]; [|congruence].
    destruct Hok as [Hsp _]. apply Hnr.
    eapply shortest_path_reachable; eauto.
  - f_equal. unfold _get_paths in Hgp.
    eapply get_paths_loop_raises; [| |exact Hgp]; auto.
    apply mem_value_In. apply HG. exact Hr.
Qed.

(** C4, as the code has it.  A definition table (both columns present, keys
    unique, root in the graph) with a node other than the root that has no
    path from the root makes construction raise [NetworkXNoPath]: no
    hierarchy is built and no level is assigned. *)
Theorem unreachable_node_aborts (df : DataFrame) (nm : string) (r k : value) :
  In (name_col nm) (columns df) ->
  In (parent_col nm) (columns df) ->
  has_duplicates (column (name_col nm) df) = false ->
  (exists u, edge df nm u r \/ edge df nm r u) ->
  (exists u, edge df nm u k \/ edge df nm k u) ->
  k <> r ->
  ~ reachable (edge df nm) r k ->
  Hierarchy_init df nm (Some r) = Raise NetworkXNoPath
  /\ forall h, Hierarchy_init df nm (Some r) <> Ok h.
Proof.
  intros Hn Hp Hd Hr Hk Hne Hnr.
  rewrite (init_raises_no_path df nm r k) by assumption.
  split; [reflexivity|discriminate].
Qed.

Lemma org_island_edges (u v : value) :
  edge org_island "oe" u v ->
  In (u, v) [(VStr "0", VStr "1"); (VStr "1", VStr "12"); (VStr "0", VStr "2");
             (VStr "8", VStr "9")].
Proof.
  intros [r [Hin [<- <-]]]. simpl in Hin.
  repeat (destruct Hin as [<-|Hin]; [simpl; tauto|]). destruct Hin.
Qed.

Lemma org_island_cut_off : ~ reachable (edge org_island "oe") (VStr "0") (VStr "9").
Proof.
  assert (H8 : forall w, ~ edge org_island "oe" w (VStr "8")).
  { intros w Hw. apply org_island_edges in Hw. simpl in Hw.
    repeat (destruct Hw as [Hw|Hw]; [discriminate|]). destruct Hw. }
  assert (H9 : forall w, edge org_island "oe" w (VStr "9") -> w = VStr "8").
  { intros w Hw. apply org_island_edges in Hw. simpl in Hw.
    repeat (destruct Hw as [Hw|Hw]; [now inversion Hw|]). destruct Hw. }
  intro H. inversion H as [v He|w v Hr He]; subst.
  - apply H9 in He. discriminate.
  - apply H9 in He. subst w. apply reachable_has_parent in Hr.
    destruct Hr as [w Hw]. exact (H8 w Hw).
Qed.

(** C4 fails as stated: node '9' of [org_island] is cut off from root '0',
    and construction aborts. *)
Lemma unreachable_node_counterexample :
  ~ reachable (edge org_island "oe") (VStr "0") (VStr "9")
  /\ Hierarchy_init org_island "oe" (Some (VStr "0")) = Raise NetworkXNoPath.
Proof.
  split; [exact org_island_cut_off|vm_compute; reflexivity].
Qed.

Lemma unreachable_node_aborts_witness :
  Hierarchy_init org_island "oe" (Some (VStr "0")) = Raise NetworkXNoPath
  /\ forall h, Hierarchy_init org_island "oe" (Some (VStr "0")) <> Ok h.
Proof.
  apply (unreachable_node_aborts org_island "oe" (VStr "0") (VStr "9")).
  - simpl. tauto.
  - simpl. tauto.
  - reflexivity.
  - exists (VStr "1"). right. exists [(LStr "oe", VStr "1"); (LStr "parent_oe", VStr "0")].
    simpl. tauto.
  - exists (VStr "8"). left. exists [(LStr "oe", VStr "9"); (LStr "parent_oe", VStr "8")].
    simpl. tauto.
  - discriminate.
  - exact org_island_cut_off.
Defined.

(** ** The root in paths and levels *)

(** C10, as the code has it.  After construction every stored path starts
    with the root key and holds it nowhere else; the root key is not a key of
    the stored paths; and a definition row whose key is the root gets the
    level 999. *)
Theorem root_heads_paths_and_has_level_999
        (df : DataFrame) (nm : string) (root : option value) (h : Hierarchy) :
  Hierarchy_init df nm root = Ok h ->
  has_column LEVEL_COL df = false ->
  keys_present df nm = true ->
  (forall k p, stored_path h k = Some p ->
               exists q, p = root_node h :: q /\ ~ In (root_node h) q)
  /\ stored_path h (root_node h) = None
  /\ (forall r, In r (data df) -> get (name_col nm) r = root_node h ->
                level_of h (root_node h) = Some (VInt 999)).
Proof.
  intros Hinit Hlev Hkp. split; [|split].
  - intros k p Hsp.
    destruct (stored_path_level _ _ _ _ _ _ Hinit Hlev Hkp Hsp)
      as [_ [_ [[q [Hp Hni]] _]]].
    eauto.
  - destruct (stored_path h (root_node h)) as [p|] eqn:Hsp; [|reflexivity].
    destruct (stored_path_level _ _ _ _ _ _ Hinit Hlev Hkp Hsp) as [_ [Hne _]].
    congruence.
  - intros r Hin Hr.
    destruct (init_spec _ _ _ _ Hinit Hlev Hkp) as [paths [levels [Hok [_ [_ [_ Hlv]]]]]].
    rewrite Hlv.
    destruct (lookup_row (name_col nm) (root_node h) df) eqn:Hl.
    + specialize (Hok (root_node h)).
      destruct (dict_get (root_node h) paths).
      * destruct Hok as [_ [Hne _]]. congruence.
      * now rewrite Hok.
    + eapply lookup_row_None in Hl; eauto. contradiction.
Qed.

(** C10 fails as stated: with the root '0' listed in the table, the path
    stored for '1' holds the root, and the root's row has level 999, not 0. *)
Lemma root_level_counterexample :
  Hierarchy_init org_rooted "oe" (Some (VStr "0")) = Ok org_rooted_h
  /\ stored_path org_rooted_h (VStr "1") = Some [VStr "0"; VStr "1"]
  /\ In (VStr "0") [VStr "0"; VStr "1"]
  /\ level_of org_rooted_h (VStr "0") = Some (VInt 999)
  /\ level_of org_rooted_h (VStr "0") <> Some (VInt 0).
Proof.
  split; [vm_compute; reflexivity|].
  split; [vm_compute; reflexivity|].
  split; [now left|].
  split; [vm_compute; reflexivity|].
  vm_compute. discriminate.
Qed.

Lemma root_heads_paths_and_has_level_999_witness :
  Hierarchy_init org_rooted "oe" (Some (VStr "0")) = Ok org_rooted_h
  /\ level_of org_rooted_h (VStr "0") = Some (VInt 999).
Proof.
  assert (Hinit : Hierarchy_init org_rooted "oe" (Some (VStr "0")) = Ok org_rooted_h)
    by (vm_compute; reflexivity).
  split; [exact Hinit|].
  refine (proj2 (proj2 (root_heads_paths_and_has_level_999
                          org_rooted "oe" (Some (VStr "0")) org_rooted_h
                          Hinit eq_refl eq_refl))
                [(LStr "oe", VStr "0"); (LStr "parent_oe", VStr "0")] _ eq_refl).
  simpl. now left.
Defined.

(** ** List lemmas for the expansion *)

Lemma filter_unique_key {A : Type} (key : A -> value) (l : list A) (k : value) :
  NoDup (map key l) ->
  filter (fun a => value_eqb (key a) k) l
  = match find (fun a => value_eqb (key a) k) l with
    | Some a => [a]
    | None => []
    end.
Proof.
  induction l as [|a l IH]; simpl; intro Hnd; [reflexivity|].
  inversion Hnd as [|x xs Hni Hnd']. subst.
  destruct (value_eqb (key a) k) eqn:E.
  - f_equal. apply value_eqb_eq in E.
    assert (Hnone : forall b, In b l -> value_eqb (key b) k = false).
    { intros b Hb. apply value_eqb_neq. intro Eb. apply Hni.
      rewrite E, <- Eb. now apply in_map. }
    clear - Hnone. induction l as [|b l IH]; simpl; [reflexivity|].
    rewrite Hnone by now left. apply IH. intros c Hc. apply Hnone. now right.
  - now apply IH.
Qed.

Lemma flat_map_map {A B C : Type} (f : B -> list C) (g : A -> B) (l : list A) :
  flat_map f (map g l) = flat_map (fun a => f (g a)) l.
Proof.
  induction l as [|a l IH]; simpl; [reflexivity|]. now rewrite IH.
Qed.

Lemma filter_flat_map {A B : Type} (p : B -> bool) (g : A -> list B) (l : list A) :
  filter p (flat_map g l) = flat_map (fun a => filter p (g a)) l.
Proof.
  induction l as [|a l IH]; simpl; [reflexivity|].
  now rewrite filter_app, IH.
Qed.

Lemma filter_map_flat {A B : Type} (p : B -> bool) (g : A -> B) (l : list A) :
  filter p (map g l) = flat_map (fun a => if p (g a) then [g a] else []) l.
Proof.
  induction l as [|a l IH]; simpl; [reflexivity|].
  destruct (p (g a)); simpl; now rewrite IH.
Qed.

Lemma map_flat_map {A B C : Type} (f : B -> C) (g : A -> list B) (l : list A) :
  map f (flat_map g l) = flat_map (fun a => map f (g a)) l.
Proof.
  induction l as [|a l IH]; simpl; [reflexivity|].
  now rewrite map_app, IH.
Qed.

Lemma flat_map_app_perm {A B : Type} (f g : A -> list B) (l : list A) :
  Permutation (flat_map (fun a => f a ++ g a) l) (flat_map f l ++ flat_map g l).
Proof.
  induction l as [|a l IH]; simpl; [constructor|].
  rewrite IH. rewrite <- !app_assoc. apply Permutation_app_head.
  apply Permutation_app_swap_app.
Qed.

(** Nested traversals may be swapped, up to the order of the result. *)
Lemma flat_map_swap {A B C : Type} (g : A -> B -> list C) (la : list A) (lb : list B) :
  Permutation (flat_map (fun a => flat_map (fun b => g a b) lb) la)
              (flat_map (fun b => flat_map (fun a => g a b) la) lb).
Proof.
  induction la as [|a la IH]; simpl.
  - induction lb as [|b lb IHb]; simpl; [constructor|exact IHb].
  - rewrite IH. symmetry. apply flat_map_app_perm.
Qed.

Lemma stable_sort_perm {A : Type} (leb : A -> A -> bool) (l : list A) :
  Permutation (stable_sort leb l) l.
Proof.
  assert (Hins : forall x l, Permutation (insert_sorted leb x l) (x :: l)).
  { intros x l0. induction l0 as [|y l0 IH]; simpl; [reflexivity|].
    destruct (leb x y); [reflexivity|].
    rewrite IH. apply perm_swap. }
  induction l as [|a l IH]; simpl; [constructor|].
  rewrite Hins. now constructor.
Qed.

Lemma data_filter_rows (p : Row -> bool) (df : DataFrame) :
  data (filter_rows p df) = filter p (data df).
Proof.
  unfold filter_rows, data. simpl.
  induction (rows df) as [|[i r] rs IH]; simpl; [reflexivity|].
  destruct (p r); simpl; now rewrite IH.
Qed.

Lemma string_app_empty (s : string) : (s ++ "")%string = s.
Proof. induction s as [|c s IH]; simpl; [reflexivity|now rewrite IH]. Qed.

(** ** expand, stage by stage *)

Lemma lookup_paths_df_cell (nm : string) (paths : dict (list value)) (k : value) :
  match lookup_row (name_col nm) k (make_paths_df nm paths), dict_get k paths with
  | Some r, Some p =>
      forall j, In j (seq 0 (max_len paths)) -> get (LInt j) r = nth j p VNaN
  | None, None => True
  | _, _ => False
  end.
Proof.
  unfold lookup_row, make_paths_df, data. simpl rows. rewrite data_range_index.
  generalize (seq 0 (max_len paths)) as idx. intro idx.
  induction paths as [|[k' p] paths IH]; simpl; [exact I|].
  rewrite String.eqb_refl. rewrite (value_eqb_sym k' k).
  destruct (value_eqb k k') eqn:E; simpl; [|exact IH].
  intros j Hj. now rewrite (get_numbered (fun j => nth j p VNaN)).
Qed.

Lemma column_paths_df (nm : string) (paths : dict (list value)) :
  column (name_col nm) (make_paths_df nm paths) = map fst paths.
Proof.
  unfold column, make_paths_df, data. simpl rows. rewrite data_range_index.
  rewrite map_map. apply map_ext. intro kv. simpl. now rewrite String.eqb_refl.
Qed.

Lemma brought_paths_df (nm : string) (paths : dict (list value)) :
  brought (name_col nm) (make_paths_df nm paths) = map LInt (seq 0 (max_len paths)).
Proof.
  unfold brought. simpl. rewrite String.eqb_refl. simpl.
  induction (seq 0 (max_len paths)) as [|j l IH]; simpl; [reflexivity|].
  now rewrite IH.
Qed.

Lemma filter_all {A : Type} (p : A -> bool) (l : list A) :
  (forall a, In a l -> p a = true) -> filter p l = l.
Proof.
  induction l as [|a l IH]; intro H; simpl; [reflexivity|].
  rewrite (H a) by now left. f_equal. apply IH. intros b Hb. apply H. now right.
Qed.

Lemma filter_none {A : Type} (p : A -> bool) (l : list A) :
  (forall a, In a l -> p a = false) -> filter p l = [].
Proof.
  induction l as [|a l IH]; intro H; simpl; [reflexivity|].
  rewrite (H a) by now left. apply IH. intros b Hb. apply H. now right.
Qed.

Lemma flat_map_ext_in {A B : Type} (f g : A -> list B) (l : list A) :
  (forall a, In a l -> f a = g a) -> flat_map f l = flat_map g l.
Proof.
  induction l as [|a l IH]; intro H; simpl; [reflexivity|].
  rewrite (H a) by now left. f_equal. apply IH. intros b Hb. apply H. now right.
Qed.

Lemma data_reindex (cs : list label) (df : DataFrame) :
  data (reindex cs df) = map (project cs) (data df).
Proof. unfold reindex, data. simpl. now rewrite !map_map. Qed.

Lemma data_rename_columns (f : label -> label) (df : DataFrame) :
  data (rename_columns f df)
  = map (fun r => map (fun c => (f c, get c r)) (columns df)) (data df).
Proof. unfold rename_columns, data. simpl. now rewrite !map_map. Qed.

Lemma left_label_empty_suffix (on : label) (right : DataFrame) (c : label) :
  is_LStr c = true -> left_label on "" right c = c.
Proof.
  intro H. unfold left_label.
  destruct (negb (label_eqb c on) && mem_label c (brought on right)); [|reflexivity].
  destruct c as [s|n]; [|discriminate]. simpl. now rewrite string_app_empty.
Qed.

Lemma merge_left_ok (on : label) (sx sy : string) (left right : DataFrame) :
  In on (columns left) -> In on (columns right) ->
  exists M, merge_left on sx sy left right = Ok M.
Proof.
  intros Hl Hr. unfold merge_left.
  rewrite (has_column_true _ _ Hl), (has_column_true _ _ Hr). simpl. eauto.
Qed.

Lemma flat_map_single {A B : Type} (g : A -> B) (l : list A) :
  flat_map (fun a => [g a]) l = map g l.
Proof.
  induction l as [|a l IH]; simpl; [reflexivity|]. now rewrite IH.
Qed.

(** With unique keys on the right, each left row is joined exactly once. *)
Lemma joined_once (on : label) (right : DataFrame) (J : option Row -> Row) (l : Row) :
  NoDup (column on right) ->
  match filter (fun m => value_eqb (get on m) (get on l)) (data right) with
  | [] => [J None]
  | ms => map (fun m => J (Some m)) ms
  end = [J (lookup_row on (get on l) right)].
Proof.
  intro Hnd. unfold lookup_row.
  rewrite (filter_unique_key (get on) (data right) (get on l)) by exact Hnd.
  destruct (find (fun a => value_eqb (get on a) (get on l)) (data right)); reflexivity.
Qed.

Lemma flat_map_nil {A B : Type} (f : A -> list B) (l : list A) :
  (forall a, In a l -> f a = []) -> flat_map f l = [].
Proof.
  induction l as [|a l IH]; intro H; simpl; [reflexivity|].
  rewrite (H a) by now left. apply IH. intros b Hb. apply H. now right.
Qed.

Lemma map_nth_combine {B : Type} (G : nat * value -> B) (q : list value) :
  forall s,
    map (fun j => G (j, nth (j - s) q VNaN)) (seq s (length q))
    = map G (combine (seq s (length q)) q).
Proof.
  induction q as [|a q IH]; intro s; simpl; [reflexivity|].
  rewrite Nat.sub_diag. f_equal. rewrite <- IH.
  apply map_ext_in. intros j Hj. apply in_seq in Hj.
  replace (j - s) with (S (j - S s)) by lia. reflexivity.
Qed.

(** Of the cells of a padded path row, those kept are the ones after the
    head, each at its position. *)
Lemma path_positions {B : Type} (G : nat * value -> B) (keepb : value -> bool)
      (r : value) (q : list value) (n : nat) :
  keepb r = false ->
  (forall v, In v q -> keepb v = true) ->
  keepb VNaN = false ->
  1 + length q <= n ->
  flat_map (fun j => if keepb (nth j (r :: q) VNaN)
                     then [G (j, nth j (r :: q) VNaN)] else [])
           (seq 0 n)
  = map G (combine (seq 1 (length q)) q).
Proof.
  intros Hr Hq Hnan Hn.
  replace n with (S (length q + (n - 1 - length q))) by lia.
  cbn [seq flat_map]. change (nth 0 (r :: q) VNaN) with r. rewrite Hr. cbn [app].
  rewrite seq_app, flat_map_app.
  rewrite (flat_map_nil _ (seq (1 + length q) _)).
  2:{ intros j Hj. apply in_seq in Hj.
      rewrite (nth_overflow (r :: q)) by (simpl; lia). now rewrite Hnan. }
  rewrite app_nil_r. rewrite <- (map_nth_combine G q 1), <- flat_map_single.
  apply flat_map_ext_in. intros j Hj. apply in_seq in Hj.
  destruct j as [|j]; [lia|]. cbn [nth]. rewrite Nat.sub_succ, Nat.sub_0_r.
  rewrite Hq; [reflexivity|]. apply nth_In. lia.
Qed.

Section ExpandStages.
Variables (h : Hierarchy) (paths : dict (list value)) (facts : DataFrame).
Hypothesis Hex : expandable h paths.
Hypothesis Hfc : fact_columns_ok h facts = true.

Let nm := name_col (name h).
Let val := LStr (H_PREFIX ++ name h).
Let cols := columns facts.
Let idx := seq 0 (max_len paths).

(** The path of the node a fact row refers to, empty when unknown. *)
Let P (f : Row) : list value :=
  match dict_get (get nm f) paths with Some p => p | None => [] end.

Lemma fc_strings : forall c, In c cols -> is_LStr c = true.
Proof.
  unfold fact_columns_ok in Hfc. rewrite !andb_true_iff in Hfc.
  destruct Hfc as [[[H _] _] _]. now apply forallb_forall.
Qed.

Lemma fc_name : In nm cols.
Proof.
  unfold fact_columns_ok in Hfc. rewrite !andb_true_iff in Hfc.
  destruct Hfc as [[[_ H] _] _]. now apply mem_label_In.
Qed.

Lemma fc_level : ~ In LEVEL_COL cols.
Proof.
  unfold fact_columns_ok in Hfc. rewrite !andb_true_iff in Hfc.
  destruct Hfc as [[[_ _] H] _]. apply negb_true_iff in H.
  now apply mem_label_false.
Qed.

Lemma fc_val : ~ In val cols.
Proof.
  unfold fact_columns_ok in Hfc. rewrite !andb_true_iff in Hfc.
  destruct Hfc as [[[_ _] _] H]. apply negb_true_iff in H.
  now apply mem_label_false.
Qed.

Lemma fc_no_clash : no_clash nm facts (paths_df h).
Proof.
  intros c Hc Hin. rewrite (ex_paths_df _ _ Hex) in Hc.
  unfold nm in Hc. rewrite brought_paths_df in Hc.
  apply in_map_iff in Hc. destruct Hc as [j [<- _]].
  apply fc_strings in Hin. discriminate.
Qed.

(** Stage 1: every fact row, widened with the row of its node's path. *)
Lemma stage_merge_paths :
  exists t1,
    merge_left nm "_x" "_y" facts (paths_df h) = Ok t1
    /\ columns t1 = cols ++ map LInt idx
    /\ exists W, data t1 = map W (data facts)
                 /\ forall f, (forall c, In c cols -> get c (W f) = get c f)
                              /\ (forall j, In j idx ->
                                            get (LInt j) (W f) = nth j (P f) VNaN).
Proof.
  pose proof fc_name as Hn. pose proof fc_no_clash as Hnc.
  assert (Hpn : In nm (columns (paths_df h)))
    by (rewrite (ex_paths_df _ _ Hex); now left).
  destruct (merge_left_ok nm "_x" "_y" facts (paths_df h) Hn Hpn) as [t1 Hm].
  exists t1. split; [exact Hm|].
  destruct (merge_left_no_clash _ _ _ _ _ _ Hm Hnc) as [_ [_ [Hcols Hdata]]].
  split.
  { rewrite Hcols. rewrite (ex_paths_df _ _ Hex). unfold nm.
    now rewrite brought_paths_df. }
  exists (fun f => widen nm facts (paths_df h) f (lookup_row nm (get nm f) (paths_df h))).
  split.
  - rewrite Hdata. rewrite <- flat_map_single. apply flat_map_ext. intro f.
    apply (joined_once nm (paths_df h) (widen nm facts (paths_df h) f)).
    rewrite (ex_paths_df _ _ Hex). unfold nm. rewrite column_paths_df.
    exact (ex_paths_keys _ _ Hex).
  - intro f. split.
    + intros c Hc. now apply get_widen_left.
    + intros j Hj. rewrite get_widen_right.
      * unfold P. rewrite (ex_paths_df _ _ Hex). unfold nm.
        pose proof (lookup_paths_df_cell (name h) paths (get (name_col (name h)) f)) as Hl.
        destruct (lookup_row (name_col (name h)) (get (name_col (name h)) f)
                             (make_paths_df (name h) paths));
          destruct (dict_get (get (name_col (name h)) f) paths);
          try contradiction.
        -- now apply Hl.
        -- now destruct j.
      * intro Hin. apply fc_strings in Hin. discriminate.
      * rewrite (ex_paths_df _ _ Hex). unfold nm. rewrite brought_paths_df.
        now apply in_map.
Qed.
(** The row [melt] makes of fact row [f] and path column [j]. *)
Let melted (j : nat) (f : Row) : Row :=
  project cols f ++ [(LEVEL_COL, VInt (Z.of_nat j)); (val, nth j (P f) VNaN)].

Lemma val_not_level : val <> LEVEL_COL.
Proof.
  unfold val, LEVEL_COL, H_PREFIX. intro E. inversion E as [E'].
  apply (ex_name _ _ Hex). exact E'.
Qed.

Lemma get_melted_val (j : nat) (f : Row) : get val (melted j f) = nth j (P f) VNaN.
Proof.
  unfold melted. rewrite get_app_r by (rewrite labels_project; exact fc_val).
  cbn [get]. destruct (label_eqb val LEVEL_COL) eqn:E.
  - apply label_eqb_eq in E. now apply val_not_level in E.
  - now rewrite label_eqb_refl.
Qed.

Lemma get_melted_level (j : nat) (f : Row) :
  get LEVEL_COL (melted j f) = VInt (Z.of_nat j).
Proof.
  unfold melted. rewrite get_app_r by (rewrite labels_project; exact fc_level).
  reflexivity.
Qed.

Lemma get_melted_fact (j : nat) (f : Row) (c : label) :
  In c cols -> get c (melted j f) = get c f.
Proof.
  intro Hc. unfold melted. rewrite get_app_l by (now rewrite labels_project).
  now apply get_project.
Qed.

(** Stage 2: one row per path column and fact row. *)
Lemma stage_melt (t1 : DataFrame) :
  merge_left nm "_x" "_y" facts (paths_df h) = Ok t1 ->
  exists t2,
    melt cols LEVEL_COL val t1 = Ok t2
    /\ columns t2 = cols ++ [LEVEL_COL; val]
    /\ data t2 = flat_map (fun j => map (melted j) (data facts)) idx.
Proof.
  intro Hm. destruct stage_merge_paths as [t1' [Hm' [Hcols [W [Hdata HW]]]]].
  rewrite Hm in Hm'. inversion Hm'. subst t1'. clear Hm'.
  unfold melt.
  assert (Hall : forallb (fun c => has_column c t1) cols = true).
  { apply forallb_forall. intros c Hc. apply has_column_In.
    rewrite Hcols. apply in_or_app. now left. }
  rewrite Hall. eexists. split; [reflexivity|]. split; [reflexivity|].
  unfold data at 1. simpl rows. rewrite data_range_index.
  assert (Hvv : filter (fun c => negb (mem_label c cols)) (columns t1) = map LInt idx).
  { rewrite Hcols, filter_app.
    rewrite filter_none, filter_all; [reflexivity| |].
    - intros c Hc. apply in_map_iff in Hc. destruct Hc as [j [<- _]].
      apply negb_true_iff. apply mem_label_false. intro Hin.
      apply fc_strings in Hin. discriminate.
    - intros c Hc. apply negb_false_iff. now apply mem_label_In. }
  rewrite Hvv, flat_map_map, Hdata.
  apply flat_map_ext_in. intros j Hj. rewrite map_map.
  apply map_ext. intro f. unfold melted. destruct (HW f) as [HW1 HW2].
  f_equal.
  - unfold project. apply map_ext_in. intros c Hc. now rewrite HW1.
  - simpl. now rewrite HW2.
Qed.
(** A path cell survives the query and [dropna] when it is neither the
    root nor missing. *)
Let keep (j : nat) (f : Row) : bool :=
  negb (value_eqb (nth j (P f) VNaN) (VStr (str (root_node h))))
  && negb (isnull (nth j (P f) VNaN)).

(** The row handed to the merge with [def_df]. *)
Let renamed (j : nat) (f : Row) : Row :=
  project (filter (fun c => negb (label_eqb c nm)) cols) f
  ++ [(LEVEL_COL, VInt (Z.of_nat j)); (nm, nth j (P f) VNaN)].

Lemma dropped_columns :
  filter (fun c => negb (label_eqb c nm)) (cols ++ [LEVEL_COL; val])
  = filter (fun c => negb (label_eqb c nm)) cols ++ [LEVEL_COL; val].
Proof.
  rewrite filter_app. f_equal. cbn [filter].
  assert (H1 : label_eqb LEVEL_COL nm = false).
  { apply label_eqb_neq. intro E. apply fc_level. rewrite E. exact fc_name. }
  assert (H2 : label_eqb val nm = false).
  { apply label_eqb_neq. intro E. apply fc_val. rewrite E. exact fc_name. }
  now rewrite H1, H2.
Qed.

Lemma renamed_of_melted (j : nat) (f : Row) :
  map (fun c => (rename1 val nm c,
                 get c (project (filter (fun c => negb (label_eqb c nm))
                                        (cols ++ [LEVEL_COL; val]))
                                (melted j f))))
      (filter (fun c => negb (label_eqb c nm)) (cols ++ [LEVEL_COL; val]))
  = renamed j f.
Proof.
  rewrite dropped_columns. rewrite map_app. unfold renamed. f_equal.
  - unfold project at 2. apply map_ext_in. intros c Hc.
    assert (Hin : In c cols) by (apply filter_In in Hc; tauto).
    rewrite get_project by (apply in_or_app; now left).
    rewrite get_melted_fact by exact Hin.
    unfold rename1. destruct (label_eqb c val) eqn:E; [|reflexivity].
    apply label_eqb_eq in E. subst c. now apply fc_val in Hin.
  - cbn [map]. rewrite !get_project by (apply in_or_app; right; simpl; tauto).
    rewrite get_melted_level, get_melted_val. unfold rename1.
    rewrite label_eqb_refl.
    destruct (label_eqb LEVEL_COL val) eqn:E; [|reflexivity].
    apply label_eqb_eq in E. symmetry in E. now apply val_not_level in E.
Qed.

(** Stages 3 to 6: root and padding cells are dropped, and the ancestor
    takes the place of the node reference. *)
Lemma stage_rename (t2 : DataFrame) :
  columns t2 = cols ++ [LEVEL_COL; val] ->
  data t2 = flat_map (fun j => map (melted j) (data facts)) idx ->
  exists t5,
    drop nm (dropna val (query_ne val (str (root_node h)) t2)) = Ok t5
    /\ columns (rename_columns (rename1 val nm) t5) = expanded_columns h cols
    /\ data (rename_columns (rename1 val nm) t5)
       = flat_map (fun j => flat_map (fun f => if keep j f then [renamed j f] else [])
                                     (data facts)) idx.
Proof.
  intros Hcols Hdata. unfold drop.
  assert (Hc : has_column nm (dropna val (query_ne val (str (root_node h)) t2)) = true).
  { apply has_column_In. simpl. rewrite Hcols. apply in_or_app. left. exact fc_name. }
  rewrite Hc. eexists. split; [reflexivity|]. split.
  - simpl. rewrite Hcols, dropped_columns, map_app. unfold expanded_columns.
    fold nm cols. f_equal.
    + rewrite <- (map_id (filter _ cols)) at 2. apply map_ext_in. intros c Hin.
      apply filter_In in Hin. destruct Hin as [Hin _].
      unfold rename1. destruct (label_eqb c val) eqn:E; [|reflexivity].
      apply label_eqb_eq in E. subst c. now apply fc_val in Hin.
    + simpl. unfold rename1. rewrite label_eqb_refl.
      destruct (label_eqb LEVEL_COL val) eqn:E; [|reflexivity].
      apply label_eqb_eq in E. symmetry in E. now apply val_not_level in E.
  - rewrite data_rename_columns, data_reindex. simpl columns. rewrite Hcols.
    unfold dropna, query_ne. rewrite !data_filter_rows. rewrite Hdata.
    rewrite !filter_flat_map, !map_flat_map.
    apply flat_map_ext. intro j. clear Hdata.
    induction (data facts) as [|f fs IH]; [reflexivity|].
    cbn [map filter flat_map]. rewrite get_melted_val.
    unfold keep at 1.
    destruct (negb (value_eqb (nth j (P f) VNaN) (VStr (str (root_node h))))); cbn [andb].
    + cbn [filter]. rewrite get_melted_val.
      destruct (negb (isnull (nth j (P f) VNaN))); cbn [map app].
      * rewrite renamed_of_melted. rewrite IH. reflexivity.
      * exact IH.
    + exact IH.
Qed.
Lemma expanded_columns_strings :
  forall c, In c (expanded_columns h cols) -> is_LStr c = true.
Proof.
  intros c Hc. unfold expanded_columns in Hc. apply in_app_or in Hc.
  destruct Hc as [Hc|[<-|[<-|[]]]]; try reflexivity.
  apply filter_In in Hc. apply fc_strings. tauto.
Qed.

(** Stage 7: every row meets the definition row of its ancestor, once. *)
Lemma stage_join (t6 : DataFrame) :
  columns t6 = expanded_columns h cols ->
  exists t7,
    merge_left nm "" "_y" t6 (def_df h) = Ok t7
    /\ has_column IX_COL t7 = true
    /\ has_column LEVEL_COL t7 = true
    /\ data t7
       = map (fun r => joined_row nm "" "_y" (mkDF (expanded_columns h cols) [])
                                  (def_df h) r (node_row h (get nm r)))
             (data t6).
Proof.
  intro Hcols.
  assert (Hn6 : In nm (columns t6)).
  { rewrite Hcols. unfold expanded_columns. apply in_or_app. right. simpl. tauto. }
  destruct (ex_def_columns _ _ Hex) as [Hnd Hix].
  destruct (merge_left_ok nm "" "_y" t6 (def_df h) Hn6 Hnd) as [t7 Hm].
  exists t7. split; [exact Hm|].
  destruct (merge_left_inv _ _ _ _ _ _ Hm) as [_ [_ [Hc7 Hd7]]].
  assert (Hleft : map (left_label nm "" (def_df h)) (columns t6) = columns t6).
  { rewrite <- (map_id (columns t6)) at 2. apply map_ext_in. intros c Hc.
    apply left_label_empty_suffix. apply expanded_columns_strings.
    now rewrite <- Hcols. }
  split; [|split].
  - apply has_column_In. rewrite Hc7, Hleft.
    destruct (mem_label IX_COL (columns t6)) eqn:E.
    + apply in_or_app. left. now apply mem_label_In.
    + apply in_or_app. right.
      replace IX_COL with (right_label "_y" t6 IX_COL)
        by (unfold right_label; now rewrite E).
      apply in_map. unfold brought. apply filter_In. split; [exact Hix|].
      apply negb_true_iff. apply label_eqb_neq. intro Ei.
      apply mem_label_false in E. apply E. rewrite Ei. exact Hn6.
  - apply has_column_In. rewrite Hc7, Hleft. apply in_or_app. left.
    rewrite Hcols. unfold expanded_columns. apply in_or_app. right. simpl. tauto.
  - rewrite Hd7. rewrite <- flat_map_single. apply flat_map_ext. intro r.
    rewrite (joined_once nm (def_df h) (joined_row nm "" "_y" t6 (def_df h) r) r)
      by exact (ex_def_keys _ _ Hex).
    unfold joined_row, right_label, node_row. cbn [columns]. now rewrite Hcols.
Qed.

(** The merged row, read along the output columns, is the expected row. *)
Lemma project_joined (add_cols : list label) (j : nat) (f : Row) :
  project (cols ++ add_cols)
          (joined_row nm "" "_y" (mkDF (expanded_columns h cols) []) (def_df h)
                      (renamed j f) (node_row h (get nm (renamed j f))))
  = expanded_row h cols add_cols f (j, nth j (P f) VNaN).
Proof.
  assert (Hgn : get nm (renamed j f) = nth j (P f) VNaN).
  { unfold renamed. rewrite get_app_r.
    - cbn [get]. destruct (label_eqb nm LEVEL_COL) eqn:E.
      + apply label_eqb_eq in E. exfalso. apply fc_level. rewrite <- E. exact fc_name.
      + now rewrite label_eqb_refl.
    - rewrite labels_project. intro Hin. apply filter_In in Hin.
      destruct Hin as [_ Hin]. now rewrite label_eqb_refl in Hin. }
  rewrite Hgn. unfold expanded_row, project at 1 2. apply map_ext. intro c.
  f_equal. cbn [fst snd].
  unfold joined_row. cbn [columns].
  fold (node_attributes h cols (nth j (P f) VNaN)).
  assert (Hl : map (fun c0 => (left_label nm "" (def_df h) c0, get c0 (renamed j f)))
                   (expanded_columns h cols)
               = project (expanded_columns h cols) (renamed j f)).
  { unfold project. apply map_ext_in. intros c0 Hc0.
    now rewrite left_label_empty_suffix by (now apply expanded_columns_strings). }
  rewrite Hl. clear Hl.
  destruct (label_eqb c nm) eqn:En.
  { apply label_eqb_eq in En. subst c.
    rewrite get_app_l.
    - rewrite get_project.
      + rewrite Hgn. cbn [get]. fold nm. now rewrite label_eqb_refl.
      + unfold expanded_columns. apply in_or_app. right. simpl. tauto.
    - rewrite labels_project. unfold expanded_columns. apply in_or_app. right.
      simpl. tauto. }
  cbn [get]. fold nm. rewrite En.
  destruct (label_eqb c LEVEL_COL) eqn:El.
  { apply label_eqb_eq in El. subst c.
    rewrite get_app_l.
    - rewrite get_project.
      + unfold renamed. rewrite get_app_r; [reflexivity|].
        rewrite labels_project. intro Hin. apply filter_In in Hin.
        destruct Hin as [Hin _]. now apply fc_level in Hin.
      + unfold expanded_columns. apply in_or_app. right. simpl. tauto.
    - rewrite labels_project. unfold expanded_columns. apply in_or_app. right.
      simpl. tauto. }
  destruct (mem_label c (filter (fun c => negb (label_eqb c nm)) cols)) eqn:Em.
  - apply mem_label_In in Em.
    rewrite get_app_l.
    2:{ rewrite labels_project. unfold expanded_columns. apply in_or_app. now left. }
    rewrite get_project by (unfold expanded_columns; apply in_or_app; now left).
    rewrite (get_app_l c (project _ f)) by (now rewrite labels_project).
    unfold renamed. rewrite get_app_l by (now rewrite labels_project).
    reflexivity.
  - apply mem_label_false in Em.
    rewrite get_app_r.
    2:{ rewrite labels_project. unfold expanded_columns. intro Hin.
        apply in_app_or in Hin. destruct Hin as [Hin|[Hin|[Hin|[]]]].
        - contradiction.
        - subst c. now rewrite label_eqb_refl in El.
        - subst c. now rewrite label_eqb_refl in En. }
    now rewrite (get_app_r c (project _ f)) by (now rewrite labels_project).
Qed.
(** All stages together: what [expand] returns, in the order of [melt]. *)
Lemma expand_rows (add_cols : list label) :
  exists out,
    expand h facts add_cols = Ok out
    /\ columns out = cols ++ add_cols
    /\ Permutation
         (data out)
         (flat_map
            (fun j => flat_map
                        (fun f => if keep j f
                                  then [expanded_row h cols add_cols f
                                                     (j, nth j (P f) VNaN)]
                                  else [])
                        (data facts))
            idx).
Proof.
  unfold expand. fold cols nm val.
  rewrite (proj2 (mem_label_In nm cols) fc_name).
  destruct stage_merge_paths as [t1 [Hm1 _]]. rewrite Hm1. cbn [bind].
  destruct (stage_melt t1 Hm1) as [t2 [Hm2 [Hc2 Hd2]]]. rewrite Hm2. cbn [bind].
  destruct (stage_rename t2 Hc2 Hd2) as [t5 [Hm5 [Hc6 Hd6]]]. rewrite Hm5. cbn [bind].
  destruct (stage_join _ Hc6) as [t7 [Hm7 [Hix [Hlv Hd7]]]]. rewrite Hm7. cbn [bind].
  unfold sort_values. cbn [forallb]. rewrite Hix, Hlv. cbn [andb bind].
  eexists. split; [reflexivity|]. split; [reflexivity|].
  rewrite data_reindex.
  unfold data at 1. cbn [rows]. rewrite stable_sort_perm. fold (data t7).
  rewrite Hd7, Hd6. rewrite !map_flat_map.
  apply Permutation_refl'.
  apply flat_map_ext. intro j. rewrite !map_flat_map.
  apply flat_map_ext. intro f.
  destruct (keep j f); [|reflexivity].
  cbn [map]. now rewrite project_joined.
Qed.
Lemma stored_path_dict (k : value) : stored_path h k = dict_get k paths.
Proof.
  unfold stored_path. rewrite (ex_paths_df _ _ Hex).
  change (tl (columns (make_paths_df (name h) paths)))
    with (map LInt (seq 0 (max_len paths))).
  pose proof (lookup_paths_df (name h) paths k) as Hl.
  destruct (lookup_row (name_col (name h)) k (make_paths_df (name h) paths)) as [r|];
    destruct (dict_get k paths) as [p|] eqn:Hd; simpl in Hl; try discriminate;
    [|reflexivity].
  simpl. inversion Hl as [E]. rewrite E. f_equal.
  apply unpad_path.
  - eapply max_len_ge. apply dict_get_In. exact Hd.
  - apply (ex_paths_shape _ _ Hex _ _ Hd).
Qed.

(** For one fact row, the cells that survive are its ancestors below the
    root, each at its level. *)
Lemma kept_levels {B : Type} (G : nat * value -> B) (f : Row) :
  flat_map (fun j => if keep j f then [G (j, nth j (P f) VNaN)] else []) idx
  = map G (ancestor_levels h (get nm f)).
Proof.
  unfold ancestor_levels. fold nm. rewrite stored_path_dict. unfold keep, P.
  destruct (dict_get (get nm f) paths) as [p|] eqn:Hd.
  - destruct (ex_paths_shape _ _ Hex _ _ Hd) as [[q [Hp Hni]] Hnn].
    destruct (ex_root_str _ _ Hex) as [s Hs].
    subst p. cbn [tl length]. rewrite Nat.sub_succ, Nat.sub_0_r.
    apply (path_positions G
             (fun v => negb (value_eqb v (VStr (str (root_node h))))
                       && negb (isnull v))).
    + rewrite Hs. simpl. now rewrite String.eqb_refl.
    + intros v Hv. apply andb_true_iff. split.
      * apply negb_true_iff. apply value_eqb_neq. rewrite Hs. simpl.
        rewrite <- Hs. intro E. subst v. contradiction.
      * apply negb_true_iff. rewrite Forall_forall in Hnn. apply Hnn. now right.
    + apply andb_false_r.
    + change (1 + length q) with (length (root_node h :: q)).
      apply (max_len_ge paths (get nm f)). apply dict_get_In. exact Hd.
  - simpl. apply flat_map_nil. intros j _. destruct j; reflexivity.
Qed.

(** [expand] succeeds, and its rows are the expected ones in some order. *)
Lemma expand_expected (add_cols : list label) :
  exists out,
    expand h facts add_cols = Ok out
    /\ columns out = cols ++ add_cols
    /\ Permutation (data out) (expected_expansion h facts add_cols).
Proof.
  destruct (expand_rows add_cols) as [out [He [Hc Hp]]].
  exists out. split; [exact He|]. split; [exact Hc|].
  rewrite Hp.
  rewrite (flat_map_swap
             (fun j f => if keep j f
                         then [expanded_row h cols add_cols f (j, nth j (P f) VNaN)]
                         else [])).
  unfold expected_expansion. fold nm cols.
  apply Permutation_refl'. apply flat_map_ext. intro f.
  apply (kept_levels (expanded_row h cols add_cols f)).
Qed.
End ExpandStages.

(** ** A constructed hierarchy can be expanded *)

Lemma dict_set_keys {V : Type} (k : value) (v : V) (d : dict V) :
  NoDup (map fst d) -> NoDup (map fst (dict_set k v d)).
Proof.
  induction d as [|[k' v'] d IH]; simpl; intro H.
  - constructor; [tauto|constructor].
  - inversion H as [|x xs Hni Hnd]. subst.
    destruct (value_eqb k k') eqn:E; simpl.
    + now constructor.
    + constructor; [|now apply IH].
      intro Hin. apply Hni. clear - Hin E.
      induction d as [|[k0 v0] d IHd]; simpl in *.
      * destruct Hin as [Hin|[]]. subst. now rewrite value_eqb_refl in E.
      * destruct (value_eqb k k0) eqn:E0; simpl in Hin; tauto.
Qed.

Lemma get_paths_loop_keys (G : DiGraph) (root : value) (todo : list value) :
  forall paths levels paths' levels',
    get_paths_loop G root todo paths levels = Ok (paths', levels') ->
    NoDup (map fst paths) -> NoDup (map fst levels) ->
    NoDup (map fst paths') /\ NoDup (map fst levels').
Proof.
  induction todo as [|node todo IH]; intros paths levels paths' levels' H Hp Hl;
    simpl in H.
  - inversion H. subst. auto.
  - destruct (negb (value_eqb node root)); [|eauto].
    destruct (shortest_path G root node) as [path|e]; simpl in H; [|discriminate].
    eapply IH; [exact H| |]; now apply dict_set_keys.
Qed.

Lemma has_duplicates_NoDup (vs : list value) :
  has_duplicates vs = false -> NoDup vs.
Proof.
  induction vs as [|v vs IH]; simpl; intro H; [constructor|].
  apply orb_false_iff in H. destruct H as [H1 H2].
  constructor; [|auto]. intro Hin. apply mem_value_In in Hin. congruence.
Qed.

Lemma column_add_ix (df : DataFrame) (c : label) :
  In c (columns df) -> column c (add_ix df) = column c df.
Proof.
  intro Hc. unfold column.
  induction (data_add_ix df) as [|r r' l l' Hr _ IH]; simpl; [reflexivity|].
  now rewrite (Hr _ Hc), IH.
Qed.

Lemma column_levels_df (nm : string) (levels : dict Z) :
  column (name_col nm) (make_levels_df nm levels) = map fst levels.
Proof.
  unfold column, make_levels_df, data. simpl rows. rewrite data_range_index.
  rewrite map_map. apply map_ext. intro kv. simpl. now rewrite String.eqb_refl.
Qed.

(** The key column of the definition table the constructor stores is the key
    column it was given. *)
Lemma init_def_keys (df : DataFrame) (nm : string) (levels : dict Z) (merged : DataFrame) :
  In (name_col nm) (columns df) ->
  has_column LEVEL_COL df = false ->
  keys_present df nm = true ->
  NoDup (map fst levels) ->
  merge_left (name_col nm) "_x" "_y" (add_ix df) (make_levels_df nm levels) = Ok merged ->
  columns merged = columns (add_ix df) ++ [LEVEL_COL]
  /\ column (name_col nm) (fillna DEFAULT_LEVEL merged) = column (name_col nm) df.
Proof.
  intros Hn Hlev Hkp Hnd Hm.
  assert (Hne : name_col nm <> LEVEL_COL).
  { intro E. rewrite E in Hn. apply has_column_In in Hn. congruence. }
  assert (Hb : brought (name_col nm) (make_levels_df nm levels) = [LEVEL_COL])
    by (apply (brought_levels nm Hne)).
  assert (Hnc : no_clash (name_col nm) (add_ix df) (make_levels_df nm levels)).
  { intros c Hc. rewrite Hb in Hc. destruct Hc as [<-|[]]. now apply level_col_fresh. }
  assert (Hn1 : In (name_col nm) (columns (add_ix df)))
    by (apply columns_add_ix; now left).
  destruct (merge_left_no_clash _ _ _ _ _ _ Hm Hnc) as [_ [_ [Hcols Hdata]]].
  rewrite Hb in Hcols. split; [exact Hcols|].
  rewrite <- (column_add_ix df _ Hn).
  unfold column. rewrite data_fillna, map_map, Hdata, map_flat_map.
  rewrite <- flat_map_single. apply flat_map_ext_in. intros l Hl.
  rewrite (joined_once (name_col nm) (make_levels_df nm levels)
             (widen (name_col nm) (add_ix df) (make_levels_df nm levels) l) l)
    by (rewrite column_levels_df; exact Hnd).
  cbn [map]. f_equal.
  rewrite (get_map_cells (fun c => fill_cell DEFAULT_LEVEL (get c _)))
    by (rewrite Hcols; apply in_or_app; now left).
  rewrite get_widen_left by exact Hn1.
  apply fill_cell_present.
  destruct (Forall2_In_r _ _ _ _ (data_add_ix df) Hl) as [r [Hr Hc]].
  rewrite (Hc _ Hn). unfold keys_present in Hkp. rewrite forallb_forall in Hkp.
  specialize (Hkp r Hr). apply andb_true_iff in Hkp. destruct Hkp as [H1 _].
  now apply negb_true_iff in H1.
Qed.

Lemma init_expandable (df : DataFrame) (nm : string) (root : option value)
      (h : Hierarchy) :
  Hierarchy_init df nm root = Ok h ->
  has_column LEVEL_COL df = false ->
  keys_present df nm = true ->
  (exists s, root_node h = VStr s) ->
  nm <> "level" ->
  exists paths, expandable h paths
                /\ (forall k, stored_path h k = dict_get k paths).
Proof.
  intros Hinit Hlev Hkp Hroot Hnm.
  destruct (Hierarchy_init_inv _ _ _ _ Hinit)
    as [paths [levels [merged [Hname [_ [Hn [Hp [Hd [Hgp [Hpdf [Hm Hdef]]]]]]]]]]].
  destruct (_get_paths_spec _ _ _ _ _ Hgp) as [Hok _].
  assert (Hkeys : NoDup (map fst paths) /\ NoDup (map fst levels)).
  { unfold _get_paths in Hgp. eapply get_paths_loop_keys; [exact Hgp| |]; constructor. }
  destruct Hkeys as [Hkp' Hkl].
  destruct (init_def_keys _ _ _ _ Hn Hlev Hkp Hkl Hm) as [Hcols Hcol].
  assert (Hex : expandable h paths).
  { constructor.
    - now rewrite Hname.
    - now rewrite Hname.
    - exact Hkp'.
    - intros k p Hk. specialize (Hok k). rewrite Hk in Hok. destruct Hok as [Hsp [Hne _]].
      split.
      + destruct (init_path_sound _ _ _ _ Hinit _ _ Hsp Hne) as [q [Hq [Hni _]]].
        eauto.
      + eapply init_path_present; eauto.
    - exact Hroot.
    - rewrite Hdef, Hname. simpl. rewrite Hcols. split.
      + apply in_or_app. left. apply columns_add_ix. now left.
      + apply in_or_app. left. apply columns_add_ix. now right.
    - rewrite Hdef, Hname, Hcol. now apply has_duplicates_NoDup. }
  exists paths. split; [exact Hex|].
  intro k. now apply stored_path_dict.
Qed.

(** ** The cells of an expanded row *)

Section ExpandedRow.
Variables (h : Hierarchy) (cols add_cols : list label) (f : Row) (ja : nat * value).
Let nm := name_col (name h).
Hypothesis Hname : In nm cols.
Hypothesis Hlevel : ~ In LEVEL_COL cols.

Lemma expanded_row_node : get nm (expanded_row h cols add_cols f ja) = snd ja.
Proof.
  unfold expanded_row. rewrite get_project by (apply in_or_app; now left).
  cbn [get]. fold nm. now rewrite label_eqb_refl.
Qed.

Lemma expanded_row_fact (c : label) :
  In c cols -> c <> nm -> get c (expanded_row h cols add_cols f ja) = get c f.
Proof.
  intros Hc Hne. unfold expanded_row.
  rewrite get_project by (apply in_or_app; now left).
  cbn [get]. fold nm.
  apply label_eqb_neq in Hne. rewrite Hne.
  assert (Hl : label_eqb c LEVEL_COL = false).
  { apply label_eqb_neq. intro E. subst c. contradiction. }
  rewrite Hl.
  assert (Hin : In c (filter (fun c => negb (label_eqb c nm)) cols)).
  { apply filter_In. split; [exact Hc|]. now rewrite Hne. }
  rewrite get_app_l by (now rewrite labels_project).
  now apply get_project.
Qed.

Lemma expanded_row_level :
  In LEVEL_COL add_cols ->
  get LEVEL_COL (expanded_row h cols add_cols f ja) = VInt (Z.of_nat (fst ja)).
Proof.
  intro Hc. unfold expanded_row.
  rewrite get_project by (apply in_or_app; now right).
  cbn [get]. fold nm.
  assert (Hl : label_eqb LEVEL_COL nm = false).
  { apply label_eqb_neq. intro E. apply Hlevel. now rewrite E. }
  rewrite Hl. now rewrite label_eqb_refl.
Qed.

(** A requested column that only the definition table has, ahead of its
    level column, holds the cell of the ancestor's definition row. *)
Lemma expanded_row_attribute (c : label) (front : list label) :
  In c add_cols -> ~ In c cols -> c <> nm ->
  columns (def_df h) = front ++ [LEVEL_COL] ->
  In c front -> ~ In LEVEL_COL front ->
  (forall c', In c' cols -> c' <> nm -> ~ In c' front) ->
  get c (expanded_row h cols add_cols f ja)
  = match node_row h (snd ja) with Some d => get c d | None => VNaN end.
Proof.
  intros Hc Hnc Hne Hcols Hfront Hlf Hdis. unfold expanded_row.
  rewrite get_project by (apply in_or_app; now right).
  cbn [get]. fold nm.
  apply label_eqb_neq in Hne. rewrite Hne.
  assert (Hl : label_eqb c LEVEL_COL = false).
  { apply label_eqb_neq. intro E. subst c. contradiction. }
  rewrite Hl.
  rewrite get_app_r.
  2:{ rewrite labels_project. intro Hin. apply filter_In in Hin. tauto. }
  unfold node_attributes, brought. fold nm. rewrite Hcols, filter_app, map_app.
  assert (Hid : forall c', In c' (filter (fun c => negb (label_eqb c nm)) front) ->
             right_label "_y" (mkDF (expanded_columns h cols) []) c' = c').
  { intros c' Hc'. apply filter_In in Hc'. destruct Hc' as [Hf Hn].
    apply negb_true_iff in Hn. apply label_eqb_neq in Hn.
    unfold right_label. cbn [columns].
    destruct (mem_label c' (expanded_columns h cols)) eqn:Em; [|reflexivity].
    exfalso. apply mem_label_In in Em. unfold expanded_columns in Em. fold nm in Em.
    apply in_app_or in Em. destruct Em as [Em|[Em|[Em|[]]]].
    - apply filter_In in Em. destruct Em as [Em _]. exact (Hdis c' Em Hn Hf).
    - subst c'. contradiction.
    - now subst c'. }
  rewrite get_app_l.
  - rewrite (map_ext_in _ (fun c' => (c', match node_row h (snd ja) with
                                         | Some d => get c' d
                                         | None => VNaN
                                         end))).
    + apply (get_map_cells (fun c' => match node_row h (snd ja) with
                                      | Some d => get c' d
                                      | None => VNaN
                                      end)).
      apply filter_In. split; [exact Hfront|]. now rewrite Hne.
    + intros c' Hc'. now rewrite Hid.
  - rewrite map_map. cbn [fst].
    rewrite (map_ext_in _ (fun c' => c')) by exact Hid. rewrite map_id.
    apply filter_In. split; [exact Hfront|]. now rewrite Hne.
Qed.
End ExpandedRow.

(** ** expand on a constructed hierarchy *)

Lemma length_flat_map {A B : Type} (g : A -> list B) (l : list A) :
  length (flat_map g l) = list_sum (map (fun a => length (g a)) l).
Proof.
  induction l as [|a l IH]; simpl; [reflexivity|].
  now rewrite length_app, IH.
Qed.

Lemma map_fst_combine {A B : Type} (l1 : list A) (l2 : list B) :
  length l1 = length l2 -> map fst (combine l1 l2) = l1.
Proof.
  revert l2. induction l1 as [|a l1 IH]; intros [|b l2] H; simpl in *;
    try discriminate; [reflexivity|]. f_equal. apply IH. now inversion H.
Qed.

(** A node with a stored path at level [L] has its ancestors at the levels
    1 .. L. *)
Lemma ancestor_levels_count (df : DataFrame) (nm : string) (root : option value)
      (h : Hierarchy) (k : value) (L : Z) :
  Hierarchy_init df nm root = Ok h ->
  has_column LEVEL_COL df = false ->
  keys_present df nm = true ->
  stored_path h k <> None ->
  level_of h k = Some (VInt L) ->
  map fst (ancestor_levels h k) = seq 1 (Z.to_nat L).
Proof.
  intros Hinit Hlev Hkp Hsp Hl.
  unfold ancestor_levels.
  destruct (stored_path h k) as [p|] eqn:Hp; [|congruence].
  destruct (stored_path_level _ _ _ _ _ _ Hinit Hlev Hkp Hp) as [Hl' [_ [[q [Hq _]] _]]].
  rewrite Hl in Hl'. inversion Hl' as [E]. unfold path_level.
  replace (Z.to_nat (Z.of_nat (length p) - 1)) with (length p - 1) by lia.
  apply map_fst_combine. rewrite length_seq. subst p. simpl. lia.
Qed.

(** A key that is not in the definition table has no stored path. *)
Lemma stray_key_has_no_path (df : DataFrame) (nm : string) (root : option value)
      (h : Hierarchy) (k : value) :
  Hierarchy_init df nm root = Ok h ->
  has_column LEVEL_COL df = false ->
  keys_present df nm = true ->
  in_table df nm k = false ->
  stored_path h k = None.
Proof.
  intros Hinit Hlev Hkp Hk.
  destruct (stored_path h k) as [p|] eqn:Hp; [|reflexivity].
  destruct (stored_path_level _ _ _ _ _ _ Hinit Hlev Hkp Hp) as [Hl _].
  destruct (init_spec _ _ _ _ Hinit Hlev Hkp) as [paths [levels [_ [_ [_ [_ Hlv]]]]]].
  rewrite Hlv in Hl. unfold in_table in Hk.
  destruct (lookup_row (name_col nm) k df); discriminate.
Qed.




(** ** Fact rows without a node *)

Lemma flat_map_filter_nil {A B : Type} (p : A -> bool) (g : A -> list B) (l : list A) :
  (forall a, In a l -> p a = false -> g a = []) ->
  flat_map g (filter p l) = flat_map g l.
Proof.
  induction l as [|a l IH]; intro H; simpl; [reflexivity|].
  destruct (p a) eqn:E; simpl.
  - f_equal. apply IH. intros b Hb. apply H. now right.
  - rewrite (H a) by (auto; now left). apply IH. intros b Hb. apply H. now right.
Qed.



(** ** Structural strings *)

Lemma substring_all (s : string) : substring 0 (String.length s) s = s.
Proof. induction s as [|c s IH]; simpl; [reflexivity|now rewrite IH]. Qed.

Lemma occurs_at_0 (d s : string) : occurs_at d s 0 = String.prefix d s.
Proof.
  unfold occurs_at. rewrite Nat.sub_0_r, substring_all. reflexivity.
Qed.

Lemma occurs_at_S (d : string) (c : ascii) (s : string) (i : nat) :
  occurs_at d (String c s) (S i) = occurs_at d s i.
Proof. reflexivity. Qed.

Lemma occurs_at_empty (d : string) (i : nat) :
  occurs_at d "" (S i) = false.
Proof. reflexivity. Qed.

(** [rfind] returns the highest offset at which the delimiter occurs, and
    nothing when it occurs nowhere. *)
Lemma rfind_from_spec (d s : string) :
  forall off,
    match rfind_from d s off with
    | Some j => off <= j /\ occurs_at d s (j - off) = true
                /\ forall i, j - off < i -> occurs_at d s i = false
    | None => forall i, occurs_at d s i = false
    end.
Proof.
  induction s as [|c s IH]; intro off; cbn [rfind_from].
  - destruct (String.prefix d "") eqn:E.
    + rewrite Nat.sub_diag. split; [lia|]. split.
      * now rewrite occurs_at_0.
      * intros i Hi. destruct i; [lia|]. reflexivity.
    + intros [|i]; [now rewrite occurs_at_0|reflexivity].
  - specialize (IH (S off)). destruct (rfind_from d s (S off)) as [j|].
    + destruct IH as [Hle [Ho Hmax]]. split; [lia|].
      replace (j - off) with (S (j - S off)) by lia. split.
      * now rewrite occurs_at_S.
      * intros i Hi. destruct i; [lia|]. rewrite occurs_at_S. apply Hmax. lia.
    + destruct (String.prefix d (String c s)) eqn:E.
      * rewrite Nat.sub_diag. split; [lia|]. split.
        -- now rewrite occurs_at_0.
        -- intros i Hi. destruct i; [lia|]. rewrite occurs_at_S. apply IH.
      * intros [|i]; [now rewrite occurs_at_0|]. rewrite occurs_at_S. apply IH.
Qed.

Lemma prefix_split (d t : string) :
  String.prefix d t = true -> exists b, t = (d ++ b)%string.
Proof.
  revert t. induction d as [|c d IH]; intros t H.
  - exists t. reflexivity.
  - destruct t as [|c' t]; simpl in H; [discriminate|].
    destruct (ascii_dec c c') as [->|]; [|discriminate].
    destruct (IH t H) as [b ->]. exists b. reflexivity.
Qed.

Lemma occurs_at_split (d s : string) (i : nat) :
  occurs_at d s i = true ->
  exists b, s = (substring 0 i s ++ d ++ b)%string.
Proof.
  revert i. induction s as [|c s IH]; intros i H.
  - destruct i; [|discriminate]. rewrite occurs_at_0 in H.
    apply prefix_split in H. destruct H as [b Hb]. exists b. simpl. exact Hb.
  - destruct i.
    + rewrite occurs_at_0 in H. apply prefix_split in H. destruct H as [b Hb].
      exists b. simpl. exact Hb.
    + rewrite occurs_at_S in H. destruct (IH i H) as [b Hb]. exists b.
      simpl. now rewrite <- Hb.
Qed.

(** ** from_structure *)

Lemma from_structure_parents_columns (def_df0 : DataFrame) (nm : string)
      (sf : struc_spec) (root : option value) (delim : string) (df : DataFrame) :
  from_structure_parents def_df0 nm sf root delim = Ok df ->
  columns df = columns def_df0 ++ [parent_col nm].
Proof.
  unfold from_structure_parents. intro H.
  match type of H with
  | bind ?m _ = _ => destruct m as [dfs|e]; [|discriminate]
  end.
  cbn [bind] in H.
  match type of H with
  | bind ?m _ = _ => destruct m as [sel|e]; [|discriminate]
  end.
  cbn [bind] in H.
  match type of H with
  | bind ?m _ = _ => destruct m as [df1|e]; [|discriminate]
  end.
  cbn [bind] in H.
  match type of H with
  | bind ?m _ = _ => destruct m as [merged|e]; [|discriminate]
  end.
  cbn [bind] in H. inversion H. reflexivity.
Qed.

(** C7, where the code departs from it.  [from_structure] reads the error
    mask off the attribute [parent_dept], whatever the name column is: when
    the name is not 'dept' (and the table has no column 'parent_dept') the
    frame with the parents has no such column and the method raises
    AttributeError instead of dropping rows and going on.  So it does for
    the name 'oe' on a table in which every parent is there. *)
Theorem from_structure_reads_parent_dept
        (def_df0 : DataFrame) (nm : string) (sf : struc_spec)
        (root : option value) (delim : string) (df : DataFrame) :
  from_structure_parents def_df0 nm sf root delim = Ok df ->
  nm <> "dept" ->
  ~ In (LStr "parent_dept") (columns def_df0) ->
  from_structure def_df0 nm sf root delim = Raise AttributeError.
Proof.
  intros Hp Hnm Hcol. unfold from_structure. rewrite Hp. cbn [bind].
  assert (E : has_column (LStr "parent_dept") df = false).
  { apply mem_label_false. rewrite (from_structure_parents_columns _ _ _ _ _ _ Hp).
    intro Hin. apply in_app_or in Hin. destruct Hin as [Hin|[Hin|[]]]; [contradiction|].
    unfold parent_col, PARENT_PREFIX in Hin. inversion Hin as [E]. now apply Hnm. }
  now rewrite E.
Qed.

Lemma from_structure_reads_parent_dept_witness :
  from_structure src_oe "oe" (OneField "labels") (Some (VStr "0")) "|"
  = Raise AttributeError.
Proof.
  apply (from_structure_reads_parent_dept
           src_oe "oe" (OneField "labels") (Some (VStr "0")) "|"
           (from_ok no_frame
              (from_structure_parents src_oe "oe" (OneField "labels")
                                      (Some (VStr "0")) "|"))).
  - vm_compute. reflexivity.
  - discriminate.
  - simpl. intros [H|[H|[]]]; discriminate.
Defined.

(** Under the name 'dept' the row without parent is reported and dropped,
    and the hierarchy is built from the other rows. *)
Lemma from_structure_dept_drops_orphan :
  exists h,
    from_structure src_orphan "dept" (OneField "labels") (Some (VStr "0")) "|"
    = Ok ([[(LStr "labels", VStr "Legal|Contracts"); (LStr "dept", VInt 300);
            (LStr "parent_dept", VNaN)]], h)
    /\ column (LStr "dept") (def_df h) = [VInt 10; VInt 100; VInt 200].
Proof.
  eexists. split; vm_compute; reflexivity.
Qed.

(** *** The frame with the parents *)

Lemma mapM_rows {A : Type} (f : Row -> result A) (g : Row -> A -> Row)
      (rs rs' : list (Z * Row)) :
  mapM (fun ir => v <- f (snd ir) ;; Ok (fst ir, g (snd ir) v)) rs = Ok rs' ->
  exists vs, mapM f (map snd rs) = Ok vs
             /\ map snd rs' = map (fun lv => g (fst lv) (snd lv)) (combine (map snd rs) vs).
Proof.
  revert rs'. induction rs as [|[i r] rs IH]; intros rs' H; simpl in H.
  - inversion H. exists []. split; reflexivity.
  - destruct (f r) as [v|e] eqn:Ef; [|discriminate]. cbn [bind] in H.
    match type of H with
    | bind ?m _ = _ => destruct m as [rest|e] eqn:Em; [|discriminate]
    end.
    cbn [bind] in H. inversion H. subst rs'.
    destruct (IH _ eq_refl) as [vs [Hvs Hmap]].
    exists (v :: vs). simpl. rewrite Ef. cbn [bind]. rewrite Hvs. cbn [bind].
    split; [reflexivity|]. now rewrite Hmap.
Qed.

Lemma filter_map_comm {A B : Type} (p : B -> bool) (f : A -> B) (l : list A) :
  filter p (map f l) = map f (filter (fun a => p (f a)) l).
Proof.
  induction l as [|a l IH]; simpl; [reflexivity|].
  destruct (p (f a)); simpl; now rewrite IH.
Qed.

Lemma data_replace (old new : value) (df : DataFrame) :
  data (replace old new df)
  = map (fun r => map (fun c => (c, if value_eqb (get c r) old then new else get c r))
                      (columns df))
        (data df).
Proof. unfold replace, data. simpl. now rewrite !map_map. Qed.

Lemma data_append_row (r : Row) (df : DataFrame) :
  data (append_row r df) = map (project (columns df)) (data df ++ [r]).
Proof. unfold append_row, data. simpl. apply data_range_index. Qed.

Lemma mapM_combine {A B : Type} (f : A -> result B) (l : list A) (bs : list B) :
  mapM f l = Ok bs ->
  length bs = length l /\ forall a b, In (a, b) (combine l bs) -> f a = Ok b.
Proof.
  revert bs. induction l as [|a l IH]; intros bs H; simpl in H.
  - inversion H. split; [reflexivity|]. intros a b [].
  - destruct (f a) as [b|e] eqn:Ef; [|discriminate]. cbn [bind] in H.
    destruct (mapM f l) as [bs'|e]; [|discriminate]. cbn [bind] in H.
    inversion H. subst bs. destruct (IH _ eq_refl) as [Hlen Hall].
    split; [simpl; now rewrite Hlen|].
    intros a0 b0 [E|Hin]; [inversion E; now subst|auto].
Qed.

Section StructureParents.
Variables (def : DataFrame) (nm c : string) (r : value) (delim : string).
Hypothesis Hok : structure_ok def nm c = true.

Let keys := columns def.
Let df0 := fillna (VStr "") def.
Let parent_c := LStr ("parent_" ++ c).

Lemma so_name : In (name_col nm) keys.
Proof.
  unfold structure_ok in Hok. rewrite !andb_true_iff in Hok.
  destruct Hok as [[[[H _] _] _] _]. now apply has_column_In.
Qed.

Lemma so_struc : In (LStr c) keys.
Proof.
  unfold structure_ok in Hok. rewrite !andb_true_iff in Hok.
  destruct Hok as [[[[_ H] _] _] _]. now apply has_column_In.
Qed.

Lemma so_distinct : nm <> c.
Proof.
  unfold structure_ok in Hok. rewrite !andb_true_iff in Hok.
  destruct Hok as [[[[_ _] H] _] _]. apply negb_true_iff in H.
  now apply String.eqb_neq.
Qed.

Lemma so_parent_name : ~ In (parent_col nm) keys.
Proof.
  unfold structure_ok in Hok. rewrite !andb_true_iff in Hok.
  destruct Hok as [[[[_ _] _] H] _]. apply negb_true_iff in H.
  now apply mem_label_false.
Qed.

Lemma so_parent_struc : ~ In parent_c keys.
Proof.
  unfold structure_ok in Hok. rewrite !andb_true_iff in Hok.
  destruct Hok as [[[[_ _] _] _] H]. apply negb_true_iff in H.
  now apply mem_label_false.
Qed.

Lemma parents_differ : parent_col nm <> parent_c.
Proof.
  unfold parent_col, parent_c, PARENT_PREFIX. intro E. inversion E.
  now apply so_distinct.
Qed.

(** The lookup frame [struc_to_name]. *)
Let struc_to_name : DataFrame :=
  rename_columns (fun c' => if label_eqb c' (LStr c) then parent_c
                            else if label_eqb c' (name_col nm) then parent_col nm
                            else c')
    (append_row (root_entry nm c) (reindex [name_col nm; LStr c] df0)).

Let entry (x : Row) : Row :=
  [(parent_col nm, get (name_col nm) x); (parent_c, get (LStr c) x)].

Lemma struc_to_name_columns : columns struc_to_name = [parent_col nm; parent_c].
Proof.
  unfold struc_to_name. simpl.
  assert (E1 : (nm =? c)%string = false) by (apply String.eqb_neq, so_distinct).
  rewrite E1, !String.eqb_refl. reflexivity.
Qed.

Lemma struc_to_name_data :
  data struc_to_name = map entry (data df0 ++ [root_entry nm c]).
Proof.
  unfold struc_to_name. rewrite data_rename_columns, data_append_row.
  cbn [columns append_row reindex]. rewrite data_reindex.
  rewrite map_app, !map_map. rewrite map_app. cbn [map].
  assert (E1 : (nm =? c)%string = false) by (apply String.eqb_neq, so_distinct).
  rewrite (map_app entry). cbn [map]. rewrite !map_map.
  assert (L1 : label_eqb (name_col nm) (LStr c) = false) by exact E1.
  assert (L2 : label_eqb (name_col nm) (name_col nm) = true) by apply label_eqb_refl.
  assert (L3 : label_eqb (LStr c) (LStr c) = true) by apply label_eqb_refl.
  rewrite L1, L2, L3. apply (f_equal2 (@app Row)).
  - apply map_ext. intro x. unfold entry.
    repeat rewrite get_project by (simpl; tauto). reflexivity.
  - unfold entry. repeat rewrite get_project by (simpl; tauto). reflexivity.
Qed.
Lemma struc_to_name_brought : brought parent_c struc_to_name = [parent_col nm].
Proof.
  unfold brought. rewrite struc_to_name_columns. cbn [filter].
  assert (E1 : label_eqb (parent_col nm) parent_c = false)
    by (apply label_eqb_neq, parents_differ).
  now rewrite E1, label_eqb_refl.
Qed.

(** The row of the frame [df] is applied the parent string to. *)
Let with_parent_string (l : Row) (v : value) : Row :=
  map (fun c' => (c', if label_eqb c' parent_c then v else get c' l))
      (keys ++ [parent_c]).

Lemma get_with_parent_string (l : Row) (v : value) :
  get parent_c (with_parent_string l v) = v.
Proof.
  unfold with_parent_string.
  rewrite (get_map_cells (fun c' => if label_eqb c' parent_c then v else get c' l))
    by (apply in_or_app; right; now left).
  now rewrite label_eqb_refl.
Qed.

Lemma get_with_parent_string_key (l : Row) (v : value) (k : label) :
  In k keys -> get k (with_parent_string l v) = get k l.
Proof.
  intro Hk. unfold with_parent_string.
  rewrite (get_map_cells (fun c' => if label_eqb c' parent_c then v else get c' l))
    by (apply in_or_app; now left).
  destruct (label_eqb k parent_c) eqn:E; [|reflexivity].
  apply label_eqb_eq in E. subst k. now apply so_parent_struc in Hk.
Qed.

(** One merged row, with the root substituted and read along the output
    columns. *)
Lemma parent_row_of_merged (df1 : DataFrame) (l : Row) (v : value) (m : option Row) :
  columns df1 = keys ++ [parent_c] ->
  project (keys ++ [parent_col nm])
          (map (fun c' => (c', if value_eqb
                                    (get c' (widen parent_c df1 struc_to_name
                                                   (with_parent_string l v) m))
                                    (VStr "root")
                               then r
                               else get c' (widen parent_c df1 struc_to_name
                                                  (with_parent_string l v) m)))
               ((keys ++ [parent_c]) ++ [parent_col nm]))
  = parent_row keys nm r l (match m with
                            | Some m => get (parent_col nm) m
                            | None => VNaN
                            end).
Proof.
  intro Hc. unfold project, parent_row. rewrite map_app. cbn [map].
  apply (f_equal2 (@app (label * value))).
  - apply map_ext_in. intros k Hk. f_equal.
    rewrite (get_map_cells
               (fun c' => if value_eqb (get c' _) (VStr "root") then r else get c' _))
      by (apply in_or_app; left; apply in_or_app; now left).
    rewrite get_widen_left by (rewrite Hc; apply in_or_app; now left).
    now rewrite get_with_parent_string_key.
  - f_equal. f_equal.
    rewrite (get_map_cells
               (fun c' => if value_eqb (get c' _) (VStr "root") then r else get c' _))
      by (apply in_or_app; right; now left).
    rewrite get_widen_right.
    + reflexivity.
    + rewrite Hc. intro Hin. apply in_app_or in Hin.
      destruct Hin as [Hin|[Hin|[]]].
      * now apply so_parent_name in Hin.
      * symmetry in Hin. now apply parents_differ in Hin.
    + rewrite struc_to_name_brought. now left.
Qed.
(** The frame with the parents, row by row. *)
Lemma from_structure_parents_rows (out : DataFrame) :
  from_structure_parents def nm (OneField c) (Some r) delim = Ok out ->
  exists ps,
    mapM (strip_from_right (LStr c) delim) (data df0) = Ok ps
    /\ data out
       = flat_map (fun lp => parent_rows df0 keys nm c r (fst lp) (snd lp))
                  (combine (data df0) ps).
Proof.
  unfold from_structure_parents. cbn [bind fst snd]. fold df0 keys parent_c.
  rewrite select_ok.
  2:{ intros c' [<-|[<-|[]]]; [exact so_name|exact so_struc]. }
  cbn [bind]. fold struc_to_name.
  unfold apply_column.
  assert (Hpc : has_column parent_c df0 = false)
    by (apply mem_label_false; exact so_parent_struc).
  rewrite Hpc. cbn [columns fillna df0]. fold keys.
  match goal with
  | |- bind (bind ?m _) _ = _ -> _ => destruct m as [rows1|e] eqn:Hm1
  end; [|discriminate].
  cbn [bind].
  destruct (mapM_rows (strip_from_right (LStr c) delim)
                      with_parent_string _ _ Hm1) as [ps [Hps Hrows1]].
  set (df1 := mkDF (keys ++ [parent_c]) rows1).
  assert (Hnc : no_clash parent_c df1 struc_to_name).
  { intros c' Hc'. rewrite struc_to_name_brought in Hc'. destruct Hc' as [<-|[]].
    cbn [columns df1]. intro Hin. apply in_app_or in Hin.
    destruct Hin as [Hin|[Hin|[]]].
    - now apply so_parent_name in Hin.
    - symmetry in Hin. now apply parents_differ in Hin. }
  destruct (merge_left_ok parent_c "_x" "_y" df1 struc_to_name) as [merged Hm].
  { cbn [columns df1]. apply in_or_app. right. now left. }
  { rewrite struc_to_name_columns. simpl. tauto. }
  destruct (merge_left_no_clash _ _ _ _ _ _ Hm Hnc) as [_ [_ [Hcols Hdata]]].
  unfold struc_to_name, root_entry in Hm. rewrite Hm. clear Hm.
  cbn [bind]. intro H. inversion H. subst out. clear H.
  exists ps. split; [exact Hps|].
  rewrite data_reindex, data_replace, Hcols, Hdata.
  rewrite struc_to_name_brought. cbn [columns df1].
  unfold data at 2. cbn [rows df1]. rewrite Hrows1.
  rewrite flat_map_map, !map_flat_map.
  apply flat_map_ext. intros [l v]. cbn [fst snd].
  rewrite get_with_parent_string, struc_to_name_data, filter_map_comm.
  unfold parent_rows, resolve.
  assert (Hf : filter (fun a => value_eqb (get parent_c (entry a)) v)
                      (data df0 ++ [root_entry nm c])
               = filter (fun x => value_eqb (get (LStr c) x) v)
                        (data df0 ++ [root_entry nm c])).
  { apply filter_ext. intro x. unfold entry. cbn [get].
    assert (E : label_eqb parent_c (parent_col nm) = false).
    { apply label_eqb_neq. intro E. symmetry in E. now apply parents_differ in E. }
    now rewrite E, label_eqb_refl. }
  rewrite Hf.
  destruct (filter (fun x => value_eqb (get (LStr c) x) v)
                   (data df0 ++ [root_entry nm c])) as [|x xs].
  - cbn [map]. now rewrite (parent_row_of_merged df1 l v None eq_refl).
  - assert (He : forall x0, get (parent_col nm) (entry x0) = get (name_col nm) x0).
    { intro x0. unfold entry. cbn [get]. now rewrite label_eqb_refl. }
    cbn [map].
    rewrite (parent_row_of_merged df1 l v (Some (entry x)) eq_refl), He.
    apply f_equal. rewrite !map_map. apply map_ext. intro x0.
    now rewrite (parent_row_of_merged df1 l v (Some (entry x0)) eq_refl), He.
Qed.
Lemma df0_present (x : Row) (k : label) :
  In x (data df0) -> In k keys -> isnull (get k x) = false.
Proof.
  intros Hx Hk. unfold df0 in Hx. rewrite data_fillna in Hx.
  apply in_map_iff in Hx. destruct Hx as [x0 [<- _]].
  rewrite (get_map_cells (fun c0 => fill_cell (VStr "") (get c0 x0))) by exact Hk.
  unfold fill_cell. destruct (get k x0); reflexivity.
Qed.

(** A row is left without parent exactly when its parent string resolves
    to no key. *)
Lemma parent_rows_null (l : Row) (p : value) (row : Row) :
  isnull r = false ->
  In row (parent_rows df0 keys nm c r l p) ->
  (isnull (get (parent_col nm) row) = true <-> resolve df0 nm c p = []).
Proof.
  intros Hr Hin.
  assert (Hg : forall k, get (parent_col nm) (parent_row keys nm r l k)
                         = substitute_root r k).
  { intro k. unfold parent_row. rewrite get_app_r.
    - cbn [get]. now rewrite label_eqb_refl.
    - rewrite map_map. cbn [fst]. rewrite map_id. exact so_parent_name. }
  unfold parent_rows in Hin.
  destruct (resolve df0 nm c p) as [|k ks] eqn:Hres.
  - destruct Hin as [<-|[]]. rewrite Hg. split; reflexivity.
  - split; [|discriminate]. intro Hnull. exfalso.
    apply in_map_iff in Hin. destruct Hin as [k' [<- Hk']].
    rewrite Hg in Hnull. unfold substitute_root in Hnull.
    destruct (value_eqb k' (VStr "root")); [congruence|].
    rewrite <- Hres in Hk'. unfold resolve in Hk'.
    apply in_map_iff in Hk'. destruct Hk' as [x [<- Hx]].
    apply filter_In in Hx. destruct Hx as [Hx _].
    apply in_app_or in Hx. destruct Hx as [Hx|[<-|[]]].
    + rewrite (df0_present x _ Hx so_name) in Hnull. discriminate.
    + unfold root_entry in Hnull. cbn [get] in Hnull.
      rewrite label_eqb_refl in Hnull. discriminate.
Qed.

(** With no structural string 'root' in the table, the parent string
    'root' resolves to the root. *)
Lemma parent_rows_root (l : Row) :
  (forall x, In x (data df0) -> get (LStr c) x <> VStr "root") ->
  parent_rows df0 keys nm c r l (VStr "root") = [parent_row keys nm r l (VStr "root")]
  /\ get (parent_col nm) (parent_row keys nm r l (VStr "root")) = r.
Proof.
  intro Hno. split.
  - assert (Hc : get (LStr c) (root_entry nm c) = VStr "root").
    { unfold root_entry. cbn [get].
      assert (E : label_eqb (LStr c) (name_col nm) = false).
      { apply label_eqb_neq. intro E. inversion E as [E']. symmetry in E'.
        now apply so_distinct in E'. }
      now rewrite E, label_eqb_refl. }
    assert (Hn : get (name_col nm) (root_entry nm c) = VStr "root").
    { unfold root_entry. cbn [get]. now rewrite label_eqb_refl. }
    unfold parent_rows, resolve. rewrite filter_app, filter_none.
    + cbn [filter app]. rewrite Hc. cbn [value_eqb]. rewrite String.eqb_refl.
      cbn [map]. now rewrite Hn.
    + intros x Hx. apply value_eqb_neq. now apply Hno.
  - unfold parent_row. rewrite get_app_r.
    + cbn [get]. now rewrite label_eqb_refl.
    + rewrite map_map. cbn [fst]. rewrite map_id. exact so_parent_name.
Qed.
End StructureParents.



(** ** Sorting *)

Lemma value_leb_total (a b : value) : value_leb a b = false -> value_leb b a = true.
Proof.
  destruct a as [s|x|], b as [t|y|]; simpl; intro H; try reflexivity; try discriminate.
  - destruct (String.leb_total s t) as [E|E]; congruence.
  - apply Z.leb_gt in H. apply Z.leb_le. lia.
Qed.

Lemma row_leb_total (by_ : list label) (r1 r2 : Row) :
  row_leb by_ r1 r2 = false -> row_leb by_ r2 r1 = true.
Proof.
  induction by_ as [|c by_ IH]; simpl; [discriminate|].
  rewrite (value_eqb_sym (get c r2) (get c r1)).
  destruct (value_eqb (get c r1) (get c r2)); [exact IH|apply value_leb_total].
Qed.

Section SortFacts.
Context {A : Type} (leb : A -> A -> bool).
Hypothesis leb_total : forall a b, leb a b = false -> leb b a = true.

Let R (a b : A) : Prop := leb a b = true.

Lemma insert_sorted_HdRel (x a : A) (l : list A) :
  HdRel R a l -> R a x -> HdRel R a (insert_sorted leb x l).
Proof.
  intros Hl Hax. destruct l as [|y l]; simpl.
  - now constructor.
  - destruct (leb x y); constructor; auto. now inversion Hl.
Qed.

Lemma insert_sorted_Sorted (x : A) (l : list A) :
  Sorted R l -> Sorted R (insert_sorted leb x l).
Proof.
  induction 1 as [|y l Hs IH Hh]; simpl.
  - constructor; constructor.
  - destruct (leb x y) eqn:E.
    + constructor; [now constructor|]. now constructor.
    + constructor; [exact IH|].
      apply insert_sorted_HdRel; [exact Hh|]. now apply leb_total.
Qed.

Lemma stable_sort_Sorted (l : list A) : Sorted R (stable_sort leb l).
Proof.
  induction l as [|a l IH]; simpl; [constructor|].
  now apply insert_sorted_Sorted.
Qed.
End SortFacts.

Section Stability.
Context {A : Type} (leb : A -> A -> bool).

Lemma insert_sorted_In (x y : A) (l : list A) :
  In y (insert_sorted leb x l) <-> y = x \/ In y l.
Proof.
  induction l as [|z l IH]; simpl; [intuition|].
  destruct (leb x z); simpl; [intuition|]. rewrite IH. intuition.
Qed.

Lemma stable_sort_In (y : A) (l : list A) : In y (stable_sort leb l) <-> In y l.
Proof.
  induction l as [|z l IH]; simpl; [tauto|].
  rewrite insert_sorted_In, IH. intuition.
Qed.

Lemma insert_keeps_before (x a b : A) (l : list A) :
  before a b l -> before a b (insert_sorted leb x l).
Proof.
  induction 1 as [l Hb|y l Hbf IH]; simpl.
  - destruct (leb x a).
    + apply before_later. now apply before_here.
    + apply before_here. apply insert_sorted_In. now right.
  - destruct (leb x y).
    + apply before_later. now apply before_later.
    + now apply before_later.
Qed.

Lemma insert_goes_before (a b : A) (l : list A) :
  leb a b = true -> In b l -> before a b (insert_sorted leb a l).
Proof.
  intros Hab. induction l as [|y l IH]; simpl; [tauto|].
  intro Hin. destruct (leb a y) eqn:E.
  - now apply before_here.
  - apply before_later. apply IH. destruct Hin as [->|Hin]; [congruence|exact Hin].
Qed.

(** The sort is stable: of two elements in order, the first stays first
    when it does not compare above the second. *)
Lemma stable_sort_before (a b : A) (l : list A) :
  leb a b = true -> before a b l -> before a b (stable_sort leb l).
Proof.
  intros Hab. induction 1 as [l Hb|y l Hbf IH]; simpl.
  - apply insert_goes_before; [exact Hab|]. now apply stable_sort_In.
  - now apply insert_keeps_before.
Qed.
End Stability.

Lemma before_app {A : Type} (a b : A) (l1 l2 : list A) :
  In a l1 -> In b l2 -> before a b (l1 ++ l2).
Proof.
  induction l1 as [|x l1 IH]; simpl; [tauto|].
  intros [->|Ha] Hb.
  - apply before_here. apply in_or_app. now right.
  - apply before_later. now apply IH.
Qed.

Lemma before_map {A B : Type} (f : A -> B) (a b : A) (l : list A) :
  before a b l -> before (f a) (f b) (map f l).
Proof.
  induction 1 as [l Hb|y l Hbf IH]; simpl.
  - apply before_here. now apply in_map.
  - now apply before_later.
Qed.

(** ** wrap_in_def_df, stage by stage *)

Lemma Sorted_map {A B : Type} (f : A -> B) (R : B -> B -> Prop) (l : list A) :
  Sorted (fun a b => R (f a) (f b)) l -> Sorted R (map f l).
Proof.
  induction 1 as [|a l Hs IH Hh]; simpl; constructor; auto.
  destruct Hh; simpl; constructor; auto.
Qed.

Lemma before_combine {A B : Type} (x y : B) (l : list B) (idx : list A) :
  length idx = length l -> before x y l ->
  exists i j, before (i, x) (j, y) (combine idx l).
Proof.
  intros Hlen Hb. revert idx Hlen.
  induction Hb as [l Hy|z l Hbf IH]; intros [|i idx] Hlen; simpl in Hlen;
    try discriminate.
  - assert (Hj : exists j, In (j, y) (combine idx l)).
    { clear - Hlen Hy. revert idx Hlen. induction l as [|b l IH]; intros idx Hlen;
        [destruct Hy|].
      destruct idx as [|i idx]; [discriminate|]. simpl.
      destruct Hy as [->|Hy]; [eauto|].
      destruct (IH Hy idx) as [j Hj]; [now inversion Hlen|]. eauto. }
    destruct Hj as [j Hj]. exists i, j. simpl. now apply before_here.
  - destruct (IH idx) as [i' [j' H]]; [now inversion Hlen|].
    exists i', j'. simpl. now apply before_later.
Qed.

Lemma NoDup_key_eq {A : Type} (key : A -> value) (l : list A) (a b : A) :
  NoDup (map key l) -> In a l -> In b l -> key a = key b -> a = b.
Proof.
  induction l as [|x l IH]; simpl; intros Hnd Ha Hb E; [tauto|].
  inversion Hnd as [|k ks Hni Hnd']. subst.
  destruct Ha as [->|Ha], Hb as [->|Hb]; auto.
  - exfalso. apply Hni. rewrite E. now apply in_map.
  - exfalso. apply Hni. rewrite <- E. now apply in_map.
Qed.

(** With unique keys, the row found under the key of a row is that row. *)
Lemma lookup_row_own (c : label) (df : DataFrame) (d : Row) :
  NoDup (column c df) -> In d (data df) -> lookup_row c (get c d) df = Some d.
Proof.
  intros Hnd Hin.
  destruct (lookup_row c (get c d) df) as [d'|] eqn:E.
  - apply lookup_row_Some in E. destruct E as [Hin' E].
    f_equal. eapply NoDup_key_eq; eauto.
  - eapply lookup_row_None in E; eauto. congruence.
Qed.

Lemma fill_cell_idem (v x : value) :
  isnull v = false -> fill_cell v (fill_cell v x) = fill_cell v x.
Proof.
  intro Hv. unfold fill_cell. destruct (isnull x) eqn:E.
  - now rewrite Hv.
  - now rewrite E.
Qed.

Lemma data_pd_concat (a b : DataFrame) :
  data (pd_concat a b)
  = map (project (columns (pd_concat a b))) (data a ++ data b).
Proof. unfold pd_concat, data. simpl. now rewrite data_range_index. Qed.

Lemma length_range_index (rs : list Row) :
  length (map fst (range_index rs)) = length rs.
Proof.
  unfold range_index. rewrite length_map, length_combine, length_map, length_seq.
  apply Nat.min_id.
Qed.

Lemma combine_map_r {A B C : Type} (F : B -> C) (idx : list A) (l : list B) :
  map (fun ir => (fst ir, F (snd ir))) (combine idx l) = combine idx (map F l).
Proof.
  revert l. induction idx as [|i idx IH]; intros [|b l]; simpl; try reflexivity.
  now rewrite IH.
Qed.

Lemma rows_fillna_range (v : value) (cs : list label) (rs : list Row) :
  rows (fillna v (mkDF cs (range_index rs)))
  = combine (map Z.of_nat (seq 0 (length rs)))
            (map (fun r => map (fun c => (c, fill_cell v (get c r))) cs) rs).
Proof.
  unfold fillna, range_index. cbn [rows columns].
  apply (combine_map_r (fun r => map (fun c => (c, fill_cell v (get c r))) cs)).
Qed.

Lemma rows_combine (df : DataFrame) :
  rows df = combine (map fst (rows df)) (data df).
Proof.
  unfold data. induction (rows df) as [|[i r] l IH]; simpl; [reflexivity|].
  now rewrite <- IH.
Qed.

(** [sort_values] on columns that are there: the rows are permuted, come
    out in order, and the sort is stable. *)
Lemma sort_values_ok (by_ : list label) (df : DataFrame) :
  (forall c, In c by_ -> In c (columns df)) ->
  exists out,
    sort_values by_ df = Ok out
    /\ columns out = columns df
    /\ Permutation (data out) (data df)
    /\ Sorted (fun a b => row_leb by_ a b = true) (data out)
    /\ (forall a b, row_leb by_ a b = true -> before a b (data df) ->
                    before a b (data out)).
Proof.
  intro Hby. unfold sort_values.
  assert (E : forallb (fun c => has_column c df) by_ = true).
  { apply forallb_forall. intros c Hc. apply has_column_In. auto. }
  rewrite E.
  set (leb := fun a b : Z * Row => row_leb by_ (snd a) (snd b)).
  exists (mkDF (columns df) (stable_sort leb (rows df))).
  split; [reflexivity|]. split; [reflexivity|].
  unfold data at 1 3 4. cbn [rows]. split; [|split].
  - apply Permutation_map. apply stable_sort_perm.
  - apply Sorted_map. apply (stable_sort_Sorted leb).
    intros a b. unfold leb. apply row_leb_total.
  - intros a b Hle Hb.
    destruct (before_combine a b (data df) (map fst (rows df))) as [i [j Hij]].
    + unfold data. now rewrite !length_map.
    + exact Hb.
    + rewrite <- rows_combine in Hij.
      apply (stable_sort_before leb) in Hij; [|exact Hle].
      apply (before_map snd) in Hij. exact Hij.
Qed.

Section Wrap.
Variables (h : Hierarchy) (facts : DataFrame).
Hypothesis Hw : wrappable h facts.

Let nm := name_col (name h).
Let dcols := columns (def_df h).
Let fcols := columns facts.

Lemma wr_level_fresh : ~ In LEVEL_COL fcols.
Proof.
  intro Hin. destruct (wr_def_columns _ _ Hw) as [_ [_ Hl]].
  apply (wr_disjoint _ _ Hw LEVEL_COL Hin); [|exact Hl].
  intro E. now apply (wr_name _ _ Hw).
Qed.

(** A fact row with the level 999 set. *)
Let tag (f : Row) : Row :=
  map (fun c' => (c', if label_eqb c' LEVEL_COL then DEFAULT_LEVEL else get c' f))
      (fcols ++ [LEVEL_COL]).

Let tagged : DataFrame :=
  mkDF (fcols ++ [LEVEL_COL]) (map (fun ir => (fst ir, tag (snd ir))) (rows facts)).

Lemma tagged_frame :
  with_column LEVEL_COL (fun _ _ => DEFAULT_LEVEL) facts = tagged.
Proof.
  unfold with_column.
  assert (E : has_column LEVEL_COL facts = false)
    by (apply mem_label_false; exact wr_level_fresh).
  rewrite E. reflexivity.
Qed.

Lemma get_tag (f : Row) (c : label) :
  In c fcols -> get c (tag f) = get c f.
Proof.
  intro Hc. unfold tag.
  rewrite (get_map_cells (fun c' => if label_eqb c' LEVEL_COL then DEFAULT_LEVEL
                                    else get c' f))
    by (apply in_or_app; now left).
  destruct (label_eqb c LEVEL_COL) eqn:E; [|reflexivity].
  apply label_eqb_eq in E. subst c. now apply wr_level_fresh in Hc.
Qed.

Lemma get_tag_level (f : Row) : get LEVEL_COL (tag f) = DEFAULT_LEVEL.
Proof.
  unfold tag.
  rewrite (get_map_cells (fun c' => if label_eqb c' LEVEL_COL then DEFAULT_LEVEL
                                    else get c' f))
    by (apply in_or_app; right; now left).
  now rewrite label_eqb_refl.
Qed.

(** The definition table without its level column. *)
Let attrs : DataFrame :=
  reindex (filter (fun c' => negb (label_eqb c' LEVEL_COL)) dcols) (def_df h).

Lemma drop_level : drop LEVEL_COL (def_df h) = Ok attrs.
Proof.
  unfold drop. destruct (wr_def_columns _ _ Hw) as [_ [_ Hl]].
  now rewrite (has_column_true _ _ Hl).
Qed.

Lemma attrs_name : In nm (columns attrs).
Proof.
  cbn [columns attrs reindex]. apply filter_In.
  destruct (wr_def_columns _ _ Hw) as [Hn _]. split; [exact Hn|].
  apply negb_true_iff. apply label_eqb_neq. exact (wr_name _ _ Hw).
Qed.

Lemma brought_attrs (c : label) :
  In c (brought nm attrs) <-> In c dcols /\ c <> LEVEL_COL /\ c <> nm.
Proof.
  unfold brought. cbn [columns attrs reindex]. rewrite !filter_In.
  rewrite !negb_true_iff, !label_eqb_neq. tauto.
Qed.

Lemma wrap_no_clash : no_clash nm tagged attrs.
Proof.
  intros c Hc Hin. apply brought_attrs in Hc. destruct Hc as [Hd [Hl Hn]].
  cbn [columns tagged] in Hin. apply in_app_or in Hin.
  destruct Hin as [Hin|[Hin|[]]]; [|congruence].
  exact (wr_disjoint _ _ Hw c Hin Hn Hd).
Qed.

Lemma data_attrs :
  data attrs
  = map (project (filter (fun c' => negb (label_eqb c' LEVEL_COL)) dcols))
        (data (def_df h)).
Proof. apply data_reindex. Qed.

Lemma column_attrs : column nm attrs = column nm (def_df h).
Proof.
  unfold column. rewrite data_attrs, map_map. apply map_ext. intro d.
  apply get_project. exact attrs_name.
Qed.

(** The row of [attrs] under a key is the definition row under that key,
    read along the columns of [attrs]. *)
Lemma lookup_attrs (k : value) (c : label) :
  In c (columns attrs) ->
  match lookup_row nm k attrs with Some m => get c m | None => VNaN end
  = match node_row h k with Some d => get c d | None => VNaN end.
Proof.
  intro Hc. unfold node_row, lookup_row. fold nm. rewrite data_attrs, find_map.
  rewrite (find_ext_in _ (fun r => value_eqb (get nm r) k)).
  - destruct (find (fun r => value_eqb (get nm r) k) (data (def_df h))); simpl;
      [|reflexivity].
    now apply get_project.
  - intros d _. rewrite get_project; [reflexivity|exact attrs_name].
Qed.

(** Stage 1: every fact row with level 999, widened with the definition
    row of its node. *)
Lemma wrap_merge :
  exists w,
    merge_left nm "_x" "_y" tagged attrs = Ok w
    /\ columns w = (fcols ++ [LEVEL_COL]) ++ brought nm attrs
    /\ data w
       = map (fun f => widen nm tagged attrs (tag f) (lookup_row nm (get nm f) attrs))
             (data facts).
Proof.
  assert (Hn : In nm (columns tagged)).
  { cbn [columns tagged]. apply in_or_app. left. exact (wr_fact_name _ _ Hw). }
  destruct (merge_left_ok nm "_x" "_y" tagged attrs Hn attrs_name) as [w Hm].
  exists w. split; [exact Hm|].
  destruct (merge_left_no_clash _ _ _ _ _ _ Hm wrap_no_clash) as [_ [_ [Hc Hd]]].
  split; [exact Hc|].
  assert (Hdt : data tagged = map tag (data facts)).
  { unfold data. cbn [rows tagged]. now rewrite !map_map. }
  rewrite Hd, Hdt, flat_map_map, <- flat_map_single.
  apply flat_map_ext. intro f.
  rewrite (joined_once nm attrs (widen nm tagged attrs (tag f)) (tag f)).
  - now rewrite (get_tag f nm (wr_fact_name _ _ Hw)).
  - rewrite column_attrs. exact (wr_def_keys _ _ Hw).
Qed.
Lemma wrap_columns (w : DataFrame) (spec : Z -> Z) :
  columns w = (fcols ++ [LEVEL_COL]) ++ brought nm attrs ->
  columns (pd_concat (rename_index spec (def_df h)) (fillna (VStr "") w))
  = wrapped_columns h facts.
Proof.
  intro Hc. unfold pd_concat, wrapped_columns. cbn [columns rename_index fillna].
  fold dcols fcols. f_equal. rewrite Hc, !filter_app.
  rewrite (filter_none _ [LEVEL_COL]), (filter_none _ (brought nm attrs)).
  - now rewrite !app_nil_r.
  - intros c Hin. apply brought_attrs in Hin. apply negb_false_iff.
    apply mem_label_In. tauto.
  - intros c [<-|[]]. apply negb_false_iff. apply mem_label_In.
    destruct (wr_def_columns _ _ Hw) as [_ [_ Hl]]. exact Hl.
Qed.

Lemma wrapped_columns_cases (c : label) :
  In c (wrapped_columns h facts) ->
  c = LEVEL_COL \/ In c fcols \/ In c (brought nm attrs).
Proof.
  unfold wrapped_columns. fold dcols fcols. intro Hin. apply in_app_or in Hin.
  destruct Hin as [Hin|Hin].
  - destruct (label_eqb c LEVEL_COL) eqn:El; [left; now apply label_eqb_eq|].
    destruct (label_eqb c nm) eqn:En.
    + apply label_eqb_eq in En. subst c. right. left. exact (wr_fact_name _ _ Hw).
    + right. right. apply brought_attrs. apply label_eqb_neq in El, En. tauto.
  - apply filter_In in Hin. tauto.
Qed.

(** The cell of a widened fact row. *)
Lemma get_widened (f : Row) (c : label) :
  In c (wrapped_columns h facts) ->
  get c (widen nm tagged attrs (tag f) (lookup_row nm (get nm f) attrs))
  = if label_eqb c LEVEL_COL then DEFAULT_LEVEL
    else if mem_label c fcols then get c f
         else match node_row h (get nm f) with
              | Some d => get c d
              | None => VNaN
              end.
Proof.
  intro Hc. destruct (label_eqb c LEVEL_COL) eqn:El.
  - apply label_eqb_eq in El. subst c.
    rewrite get_widen_left by (cbn [columns tagged]; apply in_or_app; right; now left).
    apply get_tag_level.
  - destruct (mem_label c fcols) eqn:Ef.
    + apply mem_label_In in Ef.
      rewrite get_widen_left by (cbn [columns tagged]; apply in_or_app; now left).
      now apply get_tag.
    + apply mem_label_false in Ef.
      destruct (wrapped_columns_cases c Hc) as [E|[Hin|Hin]].
      * subst c. now rewrite label_eqb_refl in El.
      * contradiction.
      * rewrite get_widen_right.
        -- apply lookup_attrs. unfold brought in Hin. apply filter_In in Hin. tauto.
        -- cbn [columns tagged]. intro H. apply in_app_or in H.
           destruct H as [H|[H|[]]]; [contradiction|].
           subst c. now rewrite label_eqb_refl in El.
        -- exact Hin.
Qed.

(** The rows that go into the sort. *)
Lemma wrap_rows (w : DataFrame) (spec : Z -> Z) :
  columns w = (fcols ++ [LEVEL_COL]) ++ brought nm attrs ->
  data w = map (fun f => widen nm tagged attrs (tag f) (lookup_row nm (get nm f) attrs))
               (data facts) ->
  data (fillna (VStr "")
          (pd_concat (rename_index spec (def_df h)) (fillna (VStr "") w)))
  = map (wrapped_def_row h facts) (data (def_df h))
    ++ map (wrapped_fact_row h facts) (data facts).
Proof.
  intros Hc Hd.
  rewrite data_fillna, data_pd_concat, (wrap_columns w spec Hc).
  assert (Hdefs : data (rename_index spec (def_df h)) = data (def_df h)).
  { unfold rename_index, data. cbn [rows]. now rewrite map_map. }
  rewrite Hdefs, data_fillna, Hd, !map_app, !map_map.
  apply (f_equal2 (@app Row)).
  - apply map_ext. intro d. unfold wrapped_def_row.
    apply map_ext_in. intros c Hin. now rewrite get_project.
  - apply map_ext. intro f. unfold wrapped_fact_row.
    apply map_ext_in. intros c Hin. f_equal.
    rewrite get_project by exact Hin.
    rewrite (get_map_cells (fun c0 => fill_cell (VStr "") (get c0 _))).
    + rewrite fill_cell_idem by reflexivity. fold nm fcols. f_equal.
      now apply get_widened.
    + rewrite Hc. destruct (wrapped_columns_cases c Hin) as [E|[H|H]].
      * subst c. apply in_or_app. left. apply in_or_app. right. now left.
      * apply in_or_app. left. apply in_or_app. now left.
      * apply in_or_app. now right.
Qed.
(** All stages together. *)
Lemma wrap_spec (spec : Z -> Z) :
  exists out,
    wrap_in_def_df h facts spec = Ok out
    /\ columns out = wrapped_columns h facts
    /\ Permutation (data out)
                   (map (wrapped_def_row h facts) (data (def_df h))
                    ++ map (wrapped_fact_row h facts) (data facts))
    /\ Sorted (fun a b => row_leb [IX_COL; LEVEL_COL] a b = true) (data out)
    /\ (forall d f,
           In d (data (def_df h)) -> In f (data facts) ->
           row_leb [IX_COL; LEVEL_COL]
                   (wrapped_def_row h facts d) (wrapped_fact_row h facts f) = true ->
           before (wrapped_def_row h facts d) (wrapped_fact_row h facts f) (data out)).
Proof.
  unfold wrap_in_def_df. fold nm. rewrite tagged_frame, drop_level. cbn [bind].
  destruct wrap_merge as [w [Hm [Hc Hd]]]. rewrite Hm. cbn [bind].
  pose proof (wrap_columns w spec Hc) as Hcols.
  pose proof (wrap_rows w spec Hc Hd) as Hrows.
  destruct (wr_def_columns _ _ Hw) as [_ [Hix Hlv]].
  destruct (sort_values_ok [IX_COL; LEVEL_COL]
              (fillna (VStr "")
                 (pd_concat (rename_index spec (def_df h)) (fillna (VStr "") w))))
    as [out [Hs [Hco [Hperm [Hsorted Hbefore]]]]].
  { intros c [<-|[<-|[]]]; cbn [columns fillna]; rewrite Hcols;
      unfold wrapped_columns; apply in_or_app; now left. }
  exists out. split; [exact Hs|]. split; [|split; [|split]].
  - rewrite Hco. exact Hcols.
  - rewrite Hperm, Hrows. reflexivity.
  - exact Hsorted.
  - intros d f Hd' Hf Hle. apply Hbefore; [exact Hle|].
    rewrite Hrows. apply before_app; now apply in_map.
Qed.
End Wrap.

(** A definition row at level 999 at most and a fact row under the same
    index compare in that order. *)
Lemma def_row_leb_fact_row (h : Hierarchy) (facts : DataFrame) (d f : Row) (L : Z) :
  wrappable h facts ->
  get IX_COL (wrapped_def_row h facts d) = get IX_COL (wrapped_fact_row h facts f) ->
  get LEVEL_COL d = VInt L -> (L <= 999)%Z ->
  row_leb [IX_COL; LEVEL_COL] (wrapped_def_row h facts d) (wrapped_fact_row h facts f)
  = true.
Proof.
  intros Hw Hix Hl HL.
  destruct (wr_def_columns _ _ Hw) as [_ [_ Hlv]].
  assert (Hin : In LEVEL_COL (wrapped_columns h facts))
    by (unfold wrapped_columns; apply in_or_app; now left).
  cbn [row_leb]. rewrite Hix, value_eqb_refl.
  unfold wrapped_def_row, wrapped_fact_row.
  rewrite (get_map_cells (fun c => fill_cell (VStr "") (get c d))) by exact Hin.
  rewrite (get_map_cells
             (fun c => fill_cell (VStr "")
                         (if label_eqb c LEVEL_COL then DEFAULT_LEVEL
                          else if mem_label c (columns facts) then get c f
                               else match node_row h (get (name_col (name h)) f) with
                                    | Some d0 => get c d0
                                    | None => VNaN
                                    end))) by exact Hin.
  rewrite label_eqb_refl, Hl. cbn [fill_cell isnull DEFAULT_LEVEL value_eqb value_leb].
  destruct (Z.eqb L 999); [reflexivity|]. apply Z.leb_le. exact HL.
Qed.

(** A fact row has, in the wrapped table, the index of its node's
    definition row. *)
Lemma fact_row_index (h : Hierarchy) (facts : DataFrame) (d f : Row) :
  wrappable h facts ->
  In d (data (def_df h)) ->
  get (name_col (name h)) d = get (name_col (name h)) f ->
  get IX_COL (wrapped_def_row h facts d) = get IX_COL (wrapped_fact_row h facts f).
Proof.
  intros Hw Hd Hk.
  destruct (wr_def_columns _ _ Hw) as [_ [Hix _]].
  assert (Hin : In IX_COL (wrapped_columns h facts))
    by (unfold wrapped_columns; apply in_or_app; now left).
  unfold wrapped_def_row, wrapped_fact_row.
  rewrite (get_map_cells (fun c => fill_cell (VStr "") (get c d))) by exact Hin.
  rewrite (get_map_cells
             (fun c => fill_cell (VStr "")
                         (if label_eqb c LEVEL_COL then DEFAULT_LEVEL
                          else if mem_label c (columns facts) then get c f
                               else match node_row h (get (name_col (name h)) f) with
                                    | Some d0 => get c d0
                                    | None => VNaN
                                    end))) by exact Hin.
  f_equal. change (label_eqb IX_COL LEVEL_COL) with false. cbn iota.
  destruct (mem_label IX_COL (columns facts)) eqn:E.
  - apply mem_label_In in E.
    destruct (label_eqb IX_COL (name_col (name h))) eqn:En.
    + apply label_eqb_eq in En. now rewrite En.
    + apply label_eqb_neq in En. exfalso.
      exact (wr_disjoint _ _ Hw IX_COL E En Hix).
  - unfold node_row. rewrite <- Hk.
    now rewrite (lookup_row_own _ _ d (wr_def_keys _ _ Hw) Hd).
Qed.

(** The constructor leaves a hierarchy that [wrap_in_def_df] can work on. *)
Lemma init_wrappable (df : DataFrame) (nm : string) (root : option value)
      (h : Hierarchy) (facts : DataFrame) :
  Hierarchy_init df nm root = Ok h ->
  has_column LEVEL_COL df = false ->
  keys_present df nm = true ->
  In (name_col nm) (columns facts) ->
  (forall c, In c (columns facts) -> c <> name_col nm ->
             ~ In c (columns (def_df h))) ->
  wrappable h facts.
Proof.
  intros Hinit Hlev Hkp Hfn Hdis.
  destruct (Hierarchy_init_inv _ _ _ _ Hinit)
    as [paths [levels [merged [Hname [_ [Hn [_ [Hd [Hgp [_ [Hm Hdef]]]]]]]]]]].
  assert (Hkl : NoDup (map fst levels)).
  { unfold _get_paths in Hgp. eapply get_paths_loop_keys; [exact Hgp| |]; constructor. }
  destruct (init_def_keys _ _ _ _ Hn Hlev Hkp Hkl Hm) as [Hcols Hcol].
  constructor; rewrite ?Hname.
  - intro E. rewrite E in Hn. apply has_column_In in Hn. congruence.
  - rewrite Hdef. cbn [columns fillna]. rewrite Hcols. repeat split.
    + apply in_or_app. left. apply columns_add_ix. now left.
    + apply in_or_app. left. apply columns_add_ix. now right.
    + apply in_or_app. right. now left.
  - rewrite Hdef, Hcol. now apply has_duplicates_NoDup.
  - exact Hfn.
  - exact Hdis.
Qed.


Lemma org_mgr_wrappable : wrappable org_mgr_h pers.
Proof.
  apply (init_wrappable org_mgr "oe" (Some (VStr "0"))).
  - vm_compute. reflexivity.
  - reflexivity.
  - reflexivity.
  - simpl. tauto.
  - intros c Hc Hne Hin. vm_compute in Hin. simpl in Hc.
    destruct Hc as [<-|[<-|[]]].
    + now apply Hne.
    + repeat (destruct Hin as [Hin|Hin]; [discriminate|]). destruct Hin.
Qed.


(** ** Paths are prefixes of one another *)

(** The walk does not look at what it prepends to. *)
Lemma walk_back_acc (G : DiGraph) (s : value) (fuel : nat) :
  forall v acc0 p,
    walk_back G s fuel v acc0 = Some p ->
    exists C, p = C ++ acc0
              /\ forall acc, walk_back G s fuel v acc = Some (C ++ acc).
Proof.
  induction fuel as [|fuel IH]; intros v acc0 p H; simpl in H.
  - destruct (value_eqb v s) eqn:E; [|discriminate]. inversion H.
    exists [v]. split; [reflexivity|]. intro acc. simpl. now rewrite E.
  - destruct (value_eqb v s) eqn:E.
    + inversion H. exists [v]. split; [reflexivity|]. intro acc. simpl.
      now rewrite E.
    + destruct (pred G v) as [|u us] eqn:Hp; [discriminate|].
      destruct (IH _ _ _ H) as [C [HC Hall]].
      exists (C ++ [v]). split.
      * rewrite HC, <- app_assoc. reflexivity.
      * intro acc. simpl. rewrite E, Hp, Hall, <- app_assoc. reflexivity.
Qed.

Lemma walk_back_more_fuel (G : DiGraph) (s : value) (fuel : nat) :
  forall v acc p,
    walk_back G s fuel v acc = Some p -> walk_back G s (S fuel) v acc = Some p.
Proof.
  induction fuel as [|fuel IH]; intros v acc p H.
  - simpl in H. simpl. destruct (value_eqb v s); [exact H|discriminate].
  - cbn [walk_back] in H. cbn [walk_back].
    destruct (value_eqb v s); [exact H|].
    destruct (pred G v) as [|u us]; [discriminate|].
    apply IH in H. exact H.
Qed.

(** The node found on a path has the path up to it for its own path. *)
Lemma walk_back_prefix (G : DiGraph) (s : value) (fuel : nat) :
  forall v C1 a C2,
    walk_back G s fuel v [] = Some (C1 ++ a :: C2) ->
    walk_back G s fuel a [] = Some (C1 ++ [a]).
Proof.
  induction fuel as [|fuel IH]; intros v C1 a C2 H.
  - simpl in H. destruct (value_eqb v s) eqn:E; [|discriminate].
    inversion H as [Hp]. destruct C1 as [|x C1].
    + simpl in Hp. inversion Hp. subst. simpl. now rewrite E.
    + inversion Hp. destruct C1; discriminate.
  - assert (Hfull := H). cbn [walk_back] in H.
    destruct (value_eqb v s) eqn:E.
    + inversion H as [Hp]. destruct C1 as [|x C1].
      * simpl in Hp. inversion Hp. subst. cbn [walk_back]. now rewrite E.
      * inversion Hp. destruct C1; discriminate.
    + destruct (pred G v) as [|u us] eqn:Hp; [discriminate|].
      destruct (walk_back_acc _ _ _ _ _ _ H) as [C [HC Hall]].
      destruct (exists_last (l := a :: C2)) as [C2' [x Hx]]; [discriminate|].
      rewrite Hx, app_assoc in HC. apply app_inj_tail in HC. destruct HC as [HC ->].
      destruct C2' as [|y C2'].
      * simpl in Hx. inversion Hx. subst. exact Hfull.
      * simpl in Hx. inversion Hx. subst y C2.
        apply walk_back_more_fuel. apply (IH u C1 a C2').
        rewrite Hall, app_nil_r, <- HC. reflexivity.
Qed.

Lemma split_determines_NoDup (q : list value) :
  (forall q1 a q2 q1' q2',
      q = q1 ++ a :: q2 -> q = q1' ++ a :: q2' -> q1 = q1') ->
  NoDup q.
Proof.
  induction q as [|x q IH]; intro H; constructor.
  - intro Hin. apply in_split in Hin. destruct Hin as [l1 [l2 Hq]].
    specialize (H [] x q (x :: l1) l2 eq_refl). rewrite Hq in H.
    specialize (H eq_refl). discriminate.
  - apply IH. intros q1 a q2 q1' q2' E1 E2.
    specialize (H (x :: q1) a q2 (x :: q1') q2').
    simpl in H. rewrite <- E1 in H. specialize (H eq_refl).
    rewrite <- E2 in H. specialize (H eq_refl). now inversion H.
Qed.

Section PathPrefix.
Variables (df : DataFrame) (nm : string) (root : option value) (h : Hierarchy).
Hypothesis Hinit : Hierarchy_init df nm root = Ok h.
Hypothesis Hlev : has_column LEVEL_COL df = false.
Hypothesis Hkp : keys_present df nm = true.

(** The stored path of a node on a stored path is the path up to it. *)
Lemma stored_path_prefix (k : value) (q1 q2 : list value) (a : value) :
  stored_path h k = Some (root_node h :: q1 ++ a :: q2) ->
  stored_path h a = Some (root_node h :: q1 ++ [a]).
Proof.
  intro Hk.
  destruct (init_spec _ _ _ _ Hinit Hlev Hkp) as [paths [levels [Hok [Hcov [_ [Hst _]]]]]].
  destruct (stored_path_level _ _ _ _ _ _ Hinit Hlev Hkp Hk)
    as [_ [Hne [[q [Hq Hni]] Hw]]].
  assert (Ha : a <> root_node h).
  { intro E. inversion Hq as [Hq']. rewrite <- Hq' in Hni. apply Hni.
    apply in_or_app. right. now left. }
  assert (Hnode : exists u, edge df nm u a \/ edge df nm a u).
  { apply (walk_endpoints _ _ Hw).
    - simpl. rewrite length_app. simpl. lia.
    - right. apply in_or_app. right. now left. }
  rewrite Hst in *. specialize (Hcov a Hnode Ha).
  pose proof (Hok k) as Hokk. rewrite Hk in Hokk. destruct Hokk as [Hspk _].
  pose proof (Hok a) as Hoka.
  destruct (dict_get a paths) as [pa|]; [|congruence].
  destruct Hoka as [Hspa _]. f_equal.
  unfold shortest_path in Hspk, Hspa.
  destruct (mem_value (root_node h) (nodes _) && mem_value k (nodes _));
    [|discriminate].
  destruct (mem_value (root_node h) (nodes _) && mem_value a (nodes _));
    [|discriminate].
  destruct (walk_back _ (root_node h) _ k []) as [pk|] eqn:Hwk; [|discriminate].
  destruct (walk_back _ (root_node h) _ a []) as [pa'|] eqn:Hwa; [|discriminate].
  inversion Hspk. inversion Hspa. subst pk pa'.
  apply (walk_back_prefix _ _ _ k (root_node h :: q1) a q2) in Hwk.
  rewrite Hwk in Hwa. now inversion Hwa.
Qed.

Lemma stored_path_NoDup (k : value) (p : list value) :
  stored_path h k = Some p -> NoDup (tl p).
Proof.
  intro Hk.
  destruct (stored_path_level _ _ _ _ _ _ Hinit Hlev Hkp Hk)
    as [_ [_ [[q [Hq _]] _]]].
  subst p. cbn [tl]. apply split_determines_NoDup.
  intros q1 a q2 q1' q2' E1 E2.
  pose proof Hk as Hk'. rewrite E1 in Hk. rewrite E2 in Hk'.
  apply stored_path_prefix in Hk. apply stored_path_prefix in Hk'.
  rewrite Hk in Hk'. inversion Hk' as [E]. now apply app_inj_tail in E.
Qed.
End PathPrefix.

(** ** Subtrees and reachability *)

Lemma walk_suffix (E : value -> value -> Prop) (l1 l2 : list value) :
  walk E (l1 ++ l2) -> l2 <> [] -> walk E l2.
Proof.
  induction l1 as [|x l1 IH]; intros Hw Hne; [exact Hw|].
  apply IH; [|exact Hne]. simpl in Hw. inversion Hw as [v Hv|u v p Huv Hp Hl].
  - destruct l1; [destruct l2; [congruence|discriminate]|discriminate].
  - exact Hp.
Qed.

Lemma unique_parent (df : DataFrame) (nm : string) (u u' v : value) :
  has_duplicates (column (name_col nm) df) = false ->
  edge df nm u v -> edge df nm u' v -> u = u'.
Proof.
  intros Hd [r [Hr [Hu Hv]]] [r' [Hr' [Hu' Hv']]].
  apply has_duplicates_NoDup in Hd.
  assert (r = r').
  { apply (NoDup_key_eq (get (name_col nm)) (data df)); auto. congruence. }
  subst r'. congruence.
Qed.

Section Subtree.
Variables (df : DataFrame) (nm : string) (root : option value) (h : Hierarchy).
Hypothesis Hinit : Hierarchy_init df nm root = Ok h.
Hypothesis Hlev : has_column LEVEL_COL df = false.
Hypothesis Hkp : keys_present df nm = true.
Hypothesis Hroot : in_table df nm (root_node h) = false.

Lemma init_no_duplicates : has_duplicates (column (name_col nm) df) = false.
Proof.
  destruct (Hierarchy_init_inv _ _ _ _ Hinit) as [? [? [? [? [? [? [? [? _]]]]]]]].
  assumption.
Qed.

Lemma no_edge_into_root (u : value) : ~ edge df nm u (root_node h).
Proof.
  intros [r [Hr [_ Hv]]]. unfold in_table in Hroot.
  destruct (lookup_row (name_col nm) (root_node h) df) eqn:E; [discriminate|].
  eapply lookup_row_None in E; eauto.
Qed.

Lemma node_has_path (k : value) :
  (exists u, edge df nm u k \/ edge df nm k u) -> k <> root_node h ->
  exists p, stored_path h k = Some p.
Proof.
  intros Hk Hne.
  destruct (init_spec _ _ _ _ Hinit Hlev Hkp) as [paths [levels [_ [Hcov [_ [Hst _]]]]]].
  rewrite Hst. specialize (Hcov k Hk Hne).
  destruct (dict_get k paths) as [p|]; [eauto|congruence].
Qed.

(** A node with a parent has a stored path, which ends in parent, node. *)
Lemma child_path (w k : value) :
  edge df nm w k ->
  exists A, stored_path h k = Some (A ++ [w; k]).
Proof.
  intro He.
  assert (Hk : k <> root_node h) by (intro E; subst k; exact (no_edge_into_root w He)).
  destruct (node_has_path k) as [p Hp]; [eauto|exact Hk|].
  destruct (stored_path_level _ _ _ _ _ _ Hinit Hlev Hkp Hp)
    as [_ [_ [[q [Hq _]] Hw]]].
  subst p.
  destruct (exists_last (l := root_node h :: q)) as [A [u HA]]; [discriminate|].
  assert (Hp' : root_node h :: q ++ [k] = A ++ [u; k]).
  { rewrite app_comm_cons, HA, <- app_assoc. reflexivity. }
  rewrite Hp' in Hw, Hp.
  assert (Hu : edge df nm u k).
  { apply walk_suffix in Hw; [|discriminate]. now inversion Hw. }
  rewrite (unique_parent df nm w u k init_no_duplicates He Hu).
  exists A. exact Hp.
Qed.
Lemma root_has_no_path : stored_path h (root_node h) = None.
Proof.
  destruct (stored_path h (root_node h)) as [p|] eqn:Hp; [|reflexivity].
  destruct (stored_path_level _ _ _ _ _ _ Hinit Hlev Hkp Hp) as [_ [Hne _]].
  congruence.
Qed.

Lemma in_subtree_reachable (c k : value) :
  in_subtree h c k = true -> k = c \/ reachable (edge df nm) c k.
Proof.
  unfold in_subtree. destruct (stored_path h k) as [p|] eqn:Hp; [|discriminate].
  intro Hin. apply mem_value_In in Hin.
  destruct (stored_path_level _ _ _ _ _ _ Hinit Hlev Hkp Hp)
    as [_ [_ [[q [Hq _]] Hw]]].
  subst p. cbn [tl] in Hin. apply in_split in Hin. destruct Hin as [l1 [l2 Hs]].
  destruct (exists_last (l := c :: l2)) as [m [x Hx]]; [discriminate|].
  assert (Hk : x = k).
  { rewrite Hx, app_assoc in Hs. apply app_inj_tail in Hs. now destruct Hs. }
  subst x. destruct m as [|y m].
  - simpl in Hx. inversion Hx. now left.
  - simpl in Hx. inversion Hx. subst y l2. right.
    apply walk_reachable with (q := m).
    rewrite Hs in Hw.
    change (root_node h :: l1 ++ c :: m ++ [k])
      with ((root_node h :: l1) ++ (c :: m ++ [k])) in Hw.
    apply walk_suffix in Hw; [exact Hw|discriminate].
Qed.

Lemma reachable_in_subtree (c k : value) :
  stored_path h c <> None ->
  k = c \/ reachable (edge df nm) c k ->
  in_subtree h c k = true.
Proof.
  intros Hc [->|Hr].
  - unfold in_subtree. destruct (stored_path h c) as [p|] eqn:Hp; [|congruence].
    destruct (stored_path_level _ _ _ _ _ _ Hinit Hlev Hkp Hp)
      as [_ [_ [[q [Hq _]] _]]].
    subst p. cbn [tl]. apply mem_value_In. apply in_or_app. right. now left.
  - induction Hr as [k He|w k Hr IH He].
    + destruct (child_path c k He) as [A HA].
      unfold in_subtree. rewrite HA.
      destruct (stored_path_level _ _ _ _ _ _ Hinit Hlev Hkp HA)
        as [_ [_ [[q [Hq _]] _]]].
      destruct A as [|x A].
      * simpl in Hq. inversion Hq as [[E1 E2]]. subst c.
        now rewrite root_has_no_path in Hc.
      * cbn [tl app]. apply mem_value_In. apply in_or_app. right. now left.
    + destruct (child_path w k He) as [A HA].
      unfold in_subtree in IH.
      destruct (stored_path h w) as [pw|] eqn:Hpw; [|discriminate].
      apply mem_value_In in IH.
      destruct (stored_path_level _ _ _ _ _ _ Hinit Hlev Hkp HA)
        as [_ [_ [[q [Hq _]] _]]].
      destruct A as [|x A].
      * simpl in Hq. inversion Hq as [[E1 E2]]. subst w.
        now rewrite root_has_no_path in Hpw.
      * simpl in Hq. inversion Hq as [[E1 E2]]. subst x.
        assert (Hw' : stored_path h w = Some (root_node h :: A ++ [w])).
        { apply (stored_path_prefix df nm root h Hinit Hlev Hkp k A [k] w).
          exact HA. }
        rewrite Hw' in Hpw. inversion Hpw. subst pw. cbn [tl] in IH.
        unfold in_subtree. rewrite HA. cbn [tl app]. apply mem_value_In.
        apply in_app_or in IH. apply in_or_app.
        destruct IH as [IH|[IH|[]]]; [now left|right; now left].
Qed.
End Subtree.

(** ** groupby *)

Lemma find_value (c : value) (l : list value) :
  find (fun k => value_eqb k c) l = if mem_value c l then Some c else None.
Proof.
  induction l as [|k l IH]; simpl; [reflexivity|].
  rewrite (value_eqb_sym c k). destruct (value_eqb k c) eqn:E; simpl; [|exact IH].
  apply value_eqb_eq in E. now subst.
Qed.

Lemma mem_value_iff (c : value) (l l' : list value) :
  (In c l <-> In c l') -> mem_value c l = mem_value c l'.
Proof.
  intro H. destruct (mem_value c l) eqn:E1, (mem_value c l') eqn:E2; auto.
  - apply mem_value_In in E1. apply H in E1. apply mem_value_In in E1. congruence.
  - apply mem_value_In in E2. apply H in E2. apply mem_value_In in E2. congruence.
Qed.

(** The row of the grouped table under key [c]: there when a row of the
    frame has that key, with every other column reduced over those rows. *)
Lemma groupby_lookup (key : label) (fn : list value -> value) (e g : DataFrame)
      (c : value) :
  groupby_agg key fn e = Ok g ->
  isnull c = false ->
  lookup_row key c g
  = if mem_value c (column key e)
    then Some ((key, c)
               :: map (fun c' => (c', fn (map (get c')
                                             (filter (fun r => value_eqb (get key r) c)
                                                     (data e)))))
                      (filter (fun c' => negb (label_eqb c' key)) (columns e)))
    else None.
Proof.
  unfold groupby_agg. intros H Hc.
  destruct (has_column key e); [|discriminate]. inversion H. subst g. clear H.
  unfold lookup_row, data. cbn [rows]. rewrite data_range_index, find_map.
  cbn [get]. rewrite label_eqb_refl.
  rewrite find_value.
  rewrite (mem_value_iff c _ (column key e)).
  - destruct (mem_value c (column key e)); reflexivity.
  - rewrite stable_sort_In, unique_In, filter_In. split; [tauto|].
    intro Hin. split; [exact Hin|]. now rewrite Hc.
Qed.

Lemma Permutation_filter' {A : Type} (p : A -> bool) (l l' : list A) :
  Permutation l l' -> Permutation (filter p l) (filter p l').
Proof.
  induction 1 as [|x l l' Hp IH|x y l|l l' l'' H1 IH1 H2 IH2]; simpl.
  - constructor.
  - destruct (p x); [now constructor|exact IH].
  - destruct (p x), (p y); try reflexivity. apply perm_swap.
  - now rewrite IH1.
Qed.

Lemma length_filter_combine {A : Type} (P : value -> bool) (l1 : list A) (l2 : list value) :
  length l1 = length l2 ->
  length (filter (fun ja => P (snd ja)) (combine l1 l2)) = length (filter P l2).
Proof.
  revert l2. induction l1 as [|a l1 IH]; intros [|b l2] H; simpl in *;
    try discriminate; [reflexivity|].
  destruct (P b); simpl; rewrite IH; auto.
Qed.

Lemma count_in_NoDup (c : value) (q : list value) :
  NoDup q ->
  length (filter (fun a => value_eqb a c) q) = if mem_value c q then 1 else 0.
Proof.
  induction 1 as [|x q Hni Hnd IH]; simpl; [reflexivity|].
  rewrite (value_eqb_sym c x). destruct (value_eqb x c) eqn:E; simpl.
  - apply value_eqb_eq in E. subst x. rewrite IH.
    destruct (mem_value c q) eqn:Em; [|reflexivity].
    apply mem_value_In in Em. contradiction.
  - exact IH.
Qed.

Lemma length_filter_flat_map {A B : Type} (P : B -> bool) (g : A -> list B) (l : list A) :
  length (filter P (flat_map g l))
  = list_sum (map (fun a => length (filter P (g a))) l).
Proof.
  induction l as [|a l IH]; simpl; [reflexivity|].
  now rewrite filter_app, length_app, IH.
Qed.

Lemma list_sum_indicator {A : Type} (P : A -> bool) (l : list A) :
  list_sum (map (fun a => if P a then 1 else 0) l) = length (filter P l).
Proof.
  induction l as [|a l IH]; simpl; [reflexivity|].
  destruct (P a); simpl; now rewrite IH.
Qed.

(** ** The roll-up: grouping the expanded rows by node *)

Lemma mem_value_filter (k : label) (c : value) (rs : list Row) :
  mem_value c (map (get k) rs)
  = negb (Nat.eqb (length (filter (fun r => value_eqb (get k r) c) rs)) 0).
Proof.
  induction rs as [|r rs IH]; simpl; [reflexivity|].
  rewrite (value_eqb_sym c (get k r)).
  destruct (value_eqb (get k r) c); simpl; [reflexivity|exact IH].
Qed.

Lemma map_const_one {A B : Type} (v : B) (l : list A) (b : bool) :
  length l = (if b then 1 else 0) ->
  map (fun _ => v) l = if b then [v] else [].
Proof.
  destruct b, l as [|a [|a' l]]; simpl; intro H; try discriminate; reflexivity.
Qed.

Section RollUp.
Variables (h : Hierarchy) (paths : dict (list value)) (facts : DataFrame) (val : label).
Let nm := name_col (name h).
Let tdf := reindex [nm; val] facts.
Hypothesis Hex : expandable h paths.
Hypothesis Hnd : forall k p, stored_path h k = Some p -> NoDup (tl p).
Hypothesis Hfc : fact_columns_ok h tdf = true.
Hypothesis Hvn : val <> nm.

Let key_is (c : value) (r : Row) : bool := value_eqb (get nm r) c.

Lemma tdf_level : ~ In LEVEL_COL (columns tdf).
Proof.
  unfold fact_columns_ok in Hfc. repeat (apply andb_true_iff in Hfc; destruct Hfc as [Hfc ?]).
  intro Hin. apply mem_label_In in Hin.
  match goal with H : negb (mem_label LEVEL_COL _) = true |- _ =>
    rewrite Hin in H; discriminate H end.
Qed.

(** A node is on the path of [k] at one level or at none. *)
Lemma ancestor_once (c k : value) :
  length (filter (fun ja => value_eqb (snd ja) c) (ancestor_levels h k))
  = if in_subtree h c k then 1 else 0.
Proof.
  unfold ancestor_levels, in_subtree.
  destruct (stored_path h k) as [p|] eqn:Hp; [|reflexivity].
  rewrite (length_filter_combine (fun a => value_eqb a c)).
  - apply count_in_NoDup. now apply (Hnd k).
  - rewrite length_seq. destruct p; simpl; [reflexivity|]. now rewrite Nat.sub_0_r.
Qed.

(** The measures that one fact row brings to the group of node [c]: its
    own, once, when its node lies in the subtree of [c]. *)
Lemma measures_of_fact (c : value) (f : Row) :
  map (get val)
      (filter (key_is c)
              (map (expanded_row h (columns tdf) [] (project [nm; val] f))
                   (ancestor_levels h (get nm (project [nm; val] f)))))
  = if in_subtree h c (get nm f) then [get val f] else [].
Proof.
  assert (Hk : get nm (project [nm; val] f) = get nm f).
  { apply get_project. now left. }
  assert (Hv : get val (project [nm; val] f) = get val f).
  { apply get_project. right. now left. }
  rewrite Hk, filter_map_comm, map_map.
  rewrite (map_ext_in _ (fun _ => get val f)).
  - rewrite (filter_ext _ (fun ja => value_eqb (snd ja) c)).
    + apply map_const_one. apply ancestor_once.
    + intro ja. unfold key_is, nm. rewrite expanded_row_node; [reflexivity|].
      simpl. now left.
  - intros ja _. rewrite expanded_row_fact.
    + exact Hv.
    + exact tdf_level.
    + simpl. right. now left.
    + exact Hvn.
Qed.

Lemma measures_of_group (c : value) :
  map (get val) (filter (key_is c) (expected_expansion h tdf []))
  = map (get val) (filter (fun f => in_subtree h c (get nm f)) (data facts)).
Proof.
  assert (Hd : data tdf = map (project [nm; val]) (data facts)) by apply data_reindex.
  unfold expected_expansion. fold nm. rewrite Hd. clear Hd.
  induction (data facts) as [|f fs IH]; [reflexivity|].
  cbn [map flat_map filter]. rewrite filter_app, map_app, IH, measures_of_fact.
  destruct (in_subtree h c (get nm f)); reflexivity.
Qed.

(** Roll-up, for any reducer: the measures grouped under node [c] are those
    of the fact rows whose node lies in the subtree of [c]. *)
Lemma rollup_measures (e : DataFrame) (c : value) :
  expand h tdf [] = Ok e ->
  Permutation (map (get val) (filter (key_is c) (data e)))
              (map (get val) (filter (fun f => in_subtree h c (get nm f)) (data facts))).
Proof.
  intro He. destruct (expand_expected h paths tdf Hex Hfc []) as [out [Ho [_ Hp]]].
  rewrite He in Ho. inversion Ho. subst out.
  rewrite <- measures_of_group. apply Permutation_map. now apply Permutation_filter'.
Qed.

Lemma expand_columns (e : DataFrame) :
  expand h tdf [] = Ok e -> columns e = [nm; val].
Proof.
  intro He. destruct (expand_expected h paths tdf Hex Hfc []) as [out [Ho [Hc _]]].
  rewrite He in Ho. inversion Ho. subst out. rewrite Hc. reflexivity.
Qed.

(** The cell of the grouped table: the reducer over the measures of the
    group, and no row when the group is empty. *)
Lemma grouped_cell (fn : list value -> value) (e g : DataFrame) (c : value) :
  expand h tdf [] = Ok e ->
  groupby_agg nm fn e = Ok g ->
  isnull c = false ->
  option_map (get val) (lookup_row nm c g)
  = if Nat.eqb (subtree_count h facts c) 0 then None
    else Some (fn (map (get val) (filter (key_is c) (data e)))).
Proof.
  intros He Hg Hc. rewrite (groupby_lookup _ _ _ _ _ Hg Hc).
  unfold column. rewrite mem_value_filter. fold (key_is c).
  assert (Hlen : length (filter (key_is c) (data e)) = subtree_count h facts c).
  { rewrite <- (length_map (get val)).
    rewrite (Permutation_length (rollup_measures e c He)).
    now rewrite length_map. }
  rewrite Hlen. destruct (Nat.eqb (subtree_count h facts c) 0); [reflexivity|].
  cbn [negb option_map]. f_equal. rewrite (expand_columns e He).
  cbn [filter]. rewrite label_eqb_refl. cbn [negb].
  assert (E : label_eqb val nm = false) by now apply label_eqb_neq.
  rewrite E. cbn [negb map get]. rewrite E, label_eqb_refl. reflexivity.
Qed.

(** With the count reducer, and no measure missing, the cell is the number
    of fact rows in the subtree. *)
Lemma grouped_count (e g : DataFrame) (c : value) :
  expand h tdf [] = Ok e ->
  groupby_agg nm agg_count e = Ok g ->
  isnull c = false ->
  forallb (fun f => negb (isnull (get val f))) (data facts) = true ->
  option_map (get val) (lookup_row nm c g)
  = if Nat.eqb (subtree_count h facts c) 0 then None
    else Some (VInt (Z.of_nat (subtree_count h facts c))).
Proof.
  intros He Hg Hc Hm. rewrite (grouped_cell agg_count e g c He Hg Hc).
  destruct (Nat.eqb (subtree_count h facts c) 0); [reflexivity|].
  f_equal. unfold agg_count. f_equal. f_equal.
  rewrite (Permutation_length (Permutation_filter' _ _ _ (rollup_measures e c He))).
  rewrite filter_map_comm, length_map.
  unfold subtree_count. fold nm. f_equal.
  rewrite forallb_forall in Hm.
  apply forallb_filter_id. apply forallb_forall. intros f Hf.
  apply filter_In in Hf. now apply Hm.
Qed.
End RollUp.



(** ** Sorting two lists that agree on what the order looks at *)

Section SortRelated.
Context {A B : Type} (R : A -> B -> Prop).
Variables (leA : A -> A -> bool) (leB : B -> B -> bool).
Hypothesis Hle : forall x y x' y', R x x' -> R y y' -> leA x y = leB x' y'.

Lemma insert_sorted_related (x : A) (x' : B) (l : list A) (l' : list B) :
  R x x' -> Forall2 R l l' ->
  Forall2 R (insert_sorted leA x l) (insert_sorted leB x' l').
Proof.
  intros Hx Hl. induction Hl as [|y y' l l' Hy Hl IH]; simpl.
  - constructor; [exact Hx|constructor].
  - rewrite (Hle x y x' y' Hx Hy). destruct (leB x' y').
    + constructor; [exact Hx|]. constructor; assumption.
    + constructor; assumption.
Qed.

Lemma stable_sort_related (l : list A) (l' : list B) :
  Forall2 R l l' -> Forall2 R (stable_sort leA l) (stable_sort leB l').
Proof.
  induction 1 as [|x x' l l' Hx Hl IH]; simpl; [constructor|].
  now apply insert_sorted_related.
Qed.
End SortRelated.

Lemma Forall2_map_eq {A B C : Type} (R : A -> B -> Prop) (f : A -> C) (g : B -> C)
      (l : list A) (l' : list B) :
  (forall x y, R x y -> f x = g y) -> Forall2 R l l' -> map f l = map g l'.
Proof.
  intros H. induction 1 as [|x y l l' Hxy Hl IH]; simpl; [reflexivity|].
  now rewrite (H x y Hxy), IH.
Qed.

Lemma Forall2_map_same {A B C : Type} (R : B -> C -> Prop) (f : A -> B) (g : A -> C)
      (l : list A) :
  (forall x, In x l -> R (f x) (g x)) -> Forall2 R (map f l) (map g l).
Proof.
  induction l as [|x l IH]; simpl; intro H; constructor.
  - apply H. now left.
  - apply IH. intros y Hy. apply H. now right.
Qed.

Lemma Forall2_combine {A B C : Type} (R : B -> C -> Prop) (ixs : list A)
      (l : list B) (l' : list C) :
  Forall2 R l l' ->
  Forall2 (fun a b => fst a = fst b /\ R (snd a) (snd b))
          (combine ixs l) (combine ixs l').
Proof.
  intro H. revert ixs. induction H as [|x y l l' Hxy Hl IH]; intros [|i ixs]; simpl;
    constructor; auto.
Qed.

Lemma range_index_related (R : Row -> Row -> Prop) (l l' : list Row) :
  Forall2 R l l' ->
  Forall2 (fun a b => fst a = fst b /\ R (snd a) (snd b))
          (range_index l) (range_index l').
Proof.
  intro H. unfold range_index. rewrite (Forall2_length H).
  now apply Forall2_combine.
Qed.

Lemma merge_left_rows (on : label) (sx sy : string) (left right M : DataFrame) :
  merge_left on sx sy left right = Ok M -> rows M = range_index (data M).
Proof.
  unfold merge_left. destruct (has_column on left && has_column on right);
    [|discriminate].
  intro H. inversion H. unfold data. cbn [rows]. now rewrite data_range_index.
Qed.

(** ** Reading a relabelled row *)

Lemma get_relabelled (g : label -> label) (v : label -> value) (cs : list label)
      (c : label) :
  In c cs -> (forall c', In c' cs -> g c' = g c -> c' = c) ->
  get (g c) (map (fun c' => (g c', v c')) cs) = v c.
Proof.
  induction cs as [|c0 cs IH]; simpl; [tauto|].
  intros Hin Hinj. destruct (label_eqb (g c) (g c0)) eqn:E.
  - apply label_eqb_eq in E. symmetry in E. apply Hinj in E; [|now left]. now subst.
  - destruct Hin as [->|Hin]; [now rewrite label_eqb_refl in E|].
    apply IH; [exact Hin|]. intros c' Hc'. apply Hinj. now right.
Qed.

Lemma get_tabulate (v : label -> value) (cs : list label) (c : label) :
  In c cs -> get c (map (fun c' => (c', v c')) cs) = v c.
Proof.
  intro Hin. apply (get_relabelled (fun c => c) v cs c Hin). auto.
Qed.

Lemma get_relabelled_out (g : label -> label) (v : label -> value) (cs : list label)
      (c : label) :
  (forall c', In c' cs -> g c' <> c) ->
  get c (map (fun c' => (g c', v c')) cs) = VNaN.
Proof.
  induction cs as [|c0 cs IH]; simpl; [reflexivity|].
  intro H. destruct (label_eqb c (g c0)) eqn:E.
  - apply label_eqb_eq in E. symmetry in E. apply H in E; [tauto|now left].
  - apply IH. intros c' Hc'. apply H. now right.
Qed.

(** ** Suffixes *)

Lemma append_x_y (s : string) : (s ++ "_x")%string <> (s ++ "_y")%string.
Proof.
  induction s as [|a s IH]; simpl; [discriminate|].
  intro H. inversion H. contradiction.
Qed.

Lemma add_suffix_x_y (c : label) : add_suffix c "_x" <> add_suffix c "_y".
Proof.
  destruct c as [s|n]; simpl; intro H; inversion H as [E]; now apply append_x_y in E.
Qed.

Lemma append_y_not_ix (s : string) : (s ++ "_y")%string <> "h_ix"%string.
Proof.
  intro H.
  repeat (destruct s as [|? s]; simpl in H; [discriminate H|];
          injection H as _ H).
  destruct s; discriminate H.
Qed.

Lemma add_suffix_y_not_ix (c : label) : add_suffix c "_y" <> IX_COL.
Proof.
  destruct c as [s|n]; simpl; intro H; inversion H as [E];
    now apply append_y_not_ix in E.
Qed.

(** ** The cells of a row joined with its definition row *)

Section JoinedCells.
Variables (nm : label) (ecols : list label) (D : DataFrame) (r : Row) (m : option Row).
Hypothesis Hstr : forall c, In c ecols -> is_LStr c = true.

Let J := joined_row nm "" "_y" (mkDF ecols []) D r m.

Lemma joined_left_part :
  map (fun c => (left_label nm "" D c, get c r)) ecols = project ecols r.
Proof.
  unfold project. apply map_ext_in. intros c Hc.
  now rewrite left_label_empty_suffix by (now apply Hstr).
Qed.

(** A column of the left frame keeps its cell. *)
Lemma joined_left_cell (c : label) : In c ecols -> get c J = get c r.
Proof.
  intro Hc. unfold J, joined_row. cbn [columns]. rewrite joined_left_part.
  rewrite get_app_l by (now rewrite labels_project). now apply get_project.
Qed.

(** The index column: the left cell if the left frame has the column, the
    cell of the definition row otherwise. *)
Lemma joined_ix_cell :
  In IX_COL (columns D) -> In nm ecols ->
  get IX_COL J
  = if mem_label IX_COL ecols then get IX_COL r
    else match m with Some d => get IX_COL d | None => VNaN end.
Proof.
  intros Hix Hnm. destruct (mem_label IX_COL ecols) eqn:E.
  - apply joined_left_cell. now apply mem_label_In.
  - pose proof (proj1 (mem_label_false _ _) E) as Hni.
    unfold J, joined_row. cbn [columns]. rewrite joined_left_part.
    rewrite get_app_r by (now rewrite labels_project).
    assert (Hg : right_label "_y" (mkDF ecols []) IX_COL = IX_COL).
    { unfold right_label. cbn [columns]. now rewrite E. }
    pose proof (get_relabelled
                  (right_label "_y" (mkDF ecols []))
                  (fun c => match m with Some d => get c d | None => VNaN end)
                  (brought nm D) IX_COL) as G.
    rewrite Hg in G. apply G.
    + unfold brought. apply filter_In. split; [exact Hix|].
      apply negb_true_iff. apply label_eqb_neq. intro Ei. apply Hni.
      now rewrite Ei.
    + intros c' _. unfold right_label. cbn [columns].
      destruct (mem_label c' ecols); [|auto].
      intro Hs. now apply add_suffix_y_not_ix in Hs.
Qed.
End JoinedCells.

(** ** Expanding against a node table with more columns *)

Section ExpandAgain.
Variables (h h' : Hierarchy) (paths : dict (list value)) (facts : DataFrame).
Hypothesis Hex : expandable h paths.
Hypothesis Hex' : expandable h' paths.
Hypothesis Hname : name h' = name h.
Hypothesis Hroot : root_node h' = root_node h.
Hypothesis Hpaths : paths_df h' = paths_df h.
Hypothesis Hfc : fact_columns_ok h facts = true.
Hypothesis Hix : forall k, option_map (get IX_COL) (node_row h' k)
                           = option_map (get IX_COL) (node_row h k).

Let nm := name_col (name h).
Let ecols := expanded_columns h (columns facts).

(** Two rows with the same cells in the expanded columns and the same
    index cell. *)
Let Q (r r' : Row) : Prop :=
  (forall c, In c ecols -> get c r = get c r') /\ get IX_COL r = get IX_COL r'.

Lemma fact_columns_expanded (c : label) : In c (columns facts) -> In c ecols.
Proof.
  intro Hc. unfold ecols, expanded_columns. apply in_or_app.
  destruct (label_eqb c (name_col (name h))) eqn:E.
  - apply label_eqb_eq in E. subst c. right. simpl. tauto.
  - left. apply filter_In. split; [exact Hc|]. now rewrite E.
Qed.

Lemma expanded_has_name : In nm ecols.
Proof. apply fact_columns_expanded. now apply fc_name. Qed.

Lemma expanded_has_level : In LEVEL_COL ecols.
Proof. unfold ecols, expanded_columns. apply in_or_app. right. simpl. tauto. Qed.

Lemma joined_rows_agree (r : Row) :
  Q (joined_row nm "" "_y" (mkDF ecols []) (def_df h') r (node_row h' (get nm r)))
    (joined_row nm "" "_y" (mkDF ecols []) (def_df h) r (node_row h (get nm r))).
Proof.
  assert (Hs : forall c, In c ecols -> is_LStr c = true)
    by (apply expanded_columns_strings; exact Hfc).
  split.
  - intros c Hc. now rewrite !joined_left_cell.
  - rewrite !joined_ix_cell; try assumption; try exact expanded_has_name.
    + destruct (mem_label IX_COL ecols); [reflexivity|].
      specialize (Hix (get nm r)).
      destruct (node_row h' (get nm r)), (node_row h (get nm r)); simpl in Hix;
        congruence.
    + apply (ex_def_columns _ _ Hex).
    + apply (ex_def_columns _ _ Hex').
Qed.

(** [expand] returns the same frame for both objects. *)
Lemma expand_again : expand h' facts [] = expand h facts [].
Proof.
  assert (Hfc' : fact_columns_ok h' facts = true).
  { unfold fact_columns_ok. rewrite Hname. exact Hfc. }
  assert (He' : expanded_columns h' (columns facts) = ecols).
  { unfold ecols, expanded_columns. now rewrite Hname. }
  unfold expand. rewrite Hname, Hroot, Hpaths. fold nm.
  rewrite (proj2 (mem_label_In nm (columns facts)) (fc_name h facts Hfc)).
  destruct (stage_merge_paths h paths facts Hex Hfc) as [t1 [Hm1 _]].
  fold nm in Hm1. rewrite Hm1. cbn [bind].
  destruct (stage_melt h paths facts Hex Hfc t1 Hm1) as [t2 [Hm2 [Hc2 Hd2]]].
  fold nm in Hm2. rewrite Hm2. cbn [bind].
  destruct (stage_rename h paths facts Hex Hfc t2 Hc2 Hd2) as [t5 [Hm5 [Hc6 _]]].
  fold nm in Hm5, Hc6. rewrite Hm5. cbn [bind].
  set (t6 := rename_columns (rename1 (LStr (H_PREFIX ++ name h)) nm) t5) in *.
  destruct (stage_join h paths facts Hex Hfc t6 Hc6) as [t7 [Hm7 [Hi7 [Hl7 Hd7]]]].
  assert (Hc6' : columns t6 = expanded_columns h' (columns facts)).
  { now rewrite He'. }
  destruct (stage_join h' paths facts Hex' Hfc' t6 Hc6')
    as [t7' [Hm7' [Hi7' [Hl7' Hd7']]]].
  rewrite Hname in Hm7'. rewrite He', Hname in Hd7'.
  fold nm ecols in Hm7, Hd7, Hm7', Hd7'.
  rewrite Hm7, Hm7'. cbn [bind].
  unfold sort_values. cbn [forallb]. rewrite Hi7, Hl7, Hi7', Hl7'. cbn [andb bind].
  f_equal. unfold reindex. cbn [rows columns]. f_equal.
  apply (Forall2_map_eq (fun a b => fst a = fst b /\ Q (snd a) (snd b))).
  - intros [i r] [i' r'] [Hi [Hc _]]. cbn [fst snd] in *. subst i'. f_equal.
    unfold project. apply map_ext_in. intros c Hin. f_equal. apply Hc.
    apply fact_columns_expanded. rewrite app_nil_r in Hin. exact Hin.
  - apply stable_sort_related.
    + intros [i r] [j s] [i' r'] [j' s'] [_ [Hc Hx]] [_ [Hc' Hx']].
      cbn [fst snd] in *. cbn [row_leb].
      rewrite Hx, Hx', (Hc LEVEL_COL expanded_has_level),
        (Hc' LEVEL_COL expanded_has_level). reflexivity.
    + rewrite (merge_left_rows _ _ _ _ _ _ Hm7), (merge_left_rows _ _ _ _ _ _ Hm7').
      apply range_index_related. rewrite Hd7, Hd7'.
      apply Forall2_map_same. intros r _. apply joined_rows_agree.
Qed.
(** The same for requested columns on which the joined rows agree. *)
Lemma expand_again_cols (add_cols : list label) :
  (forall r c, In c add_cols ->
     get c (joined_row nm "" "_y" (mkDF ecols []) (def_df h') r (node_row h' (get nm r)))
     = get c (joined_row nm "" "_y" (mkDF ecols []) (def_df h) r (node_row h (get nm r)))) ->
  expand h' facts add_cols = expand h facts add_cols.
Proof.
  intro Hadd.
  assert (Hfc' : fact_columns_ok h' facts = true).
  { unfold fact_columns_ok. rewrite Hname. exact Hfc. }
  assert (He' : expanded_columns h' (columns facts) = ecols).
  { unfold ecols, expanded_columns. now rewrite Hname. }
  unfold expand. rewrite Hname, Hroot, Hpaths. fold nm.
  rewrite (proj2 (mem_label_In nm (columns facts)) (fc_name h facts Hfc)).
  destruct (stage_merge_paths h paths facts Hex Hfc) as [t1 [Hm1 _]].
  fold nm in Hm1. rewrite Hm1. cbn [bind].
  destruct (stage_melt h paths facts Hex Hfc t1 Hm1) as [t2 [Hm2 [Hc2 Hd2]]].
  fold nm in Hm2. rewrite Hm2. cbn [bind].
  destruct (stage_rename h paths facts Hex Hfc t2 Hc2 Hd2) as [t5 [Hm5 [Hc6 _]]].
  fold nm in Hm5, Hc6. rewrite Hm5. cbn [bind].
  set (t6 := rename_columns (rename1 (LStr (H_PREFIX ++ name h)) nm) t5) in *.
  destruct (stage_join h paths facts Hex Hfc t6 Hc6) as [t7 [Hm7 [Hi7 [Hl7 Hd7]]]].
  assert (Hc6' : columns t6 = expanded_columns h' (columns facts)).
  { now rewrite He'. }
  destruct (stage_join h' paths facts Hex' Hfc' t6 Hc6')
    as [t7' [Hm7' [Hi7' [Hl7' Hd7']]]].
  rewrite Hname in Hm7'. rewrite He', Hname in Hd7'.
  fold nm ecols in Hm7, Hd7, Hm7', Hd7'.
  rewrite Hm7, Hm7'. cbn [bind].
  unfold sort_values. cbn [forallb]. rewrite Hi7, Hl7, Hi7', Hl7'. cbn [andb bind].
  f_equal. unfold reindex. cbn [rows columns]. f_equal.
  apply (Forall2_map_eq
           (fun a b => fst a = fst b
                       /\ Q (snd a) (snd b)
                       /\ forall c, In c add_cols -> get c (snd a) = get c (snd b))).
  - intros [i r] [i' r'] [Hi [[Hc _] Ha]]. cbn [fst snd] in *. subst i'. f_equal.
    unfold project. apply map_ext_in. intros c Hin. f_equal.
    apply in_app_or in Hin. destruct Hin as [Hin|Hin].
    + apply Hc. now apply fact_columns_expanded.
    + now apply Ha.
  - apply stable_sort_related.
    + intros [i r] [j s] [i' r'] [j' s'] [_ [[Hc Hx] _]] [_ [[Hc' Hx'] _]].
      cbn [fst snd] in *. cbn [row_leb].
      rewrite Hx, Hx', (Hc LEVEL_COL expanded_has_level),
        (Hc' LEVEL_COL expanded_has_level). reflexivity.
    + rewrite (merge_left_rows _ _ _ _ _ _ Hm7), (merge_left_rows _ _ _ _ _ _ Hm7').
      assert (HF : Forall2 (fun a b => Q a b
                                       /\ forall c, In c add_cols -> get c a = get c b)
                           (data t7') (data t7)).
      { rewrite Hd7, Hd7'. apply Forall2_map_same. intros r _. split.
        - apply joined_rows_agree.
        - intros c Hc. now apply Hadd. }
      apply (range_index_related _ _ _ HF).
Qed.
End ExpandAgain.

(** ** The grouped frame *)

Lemma unique_NoDup (vs : list value) : NoDup (unique vs).
Proof.
  induction vs as [|v vs IH]; simpl; constructor.
  - intro Hin. apply filter_In in Hin. destruct Hin as [_ Hin].
    now rewrite value_eqb_refl in Hin.
  - now apply NoDup_filter.
Qed.

Lemma groupby_shape (key : label) (fn : list value -> value) (e g : DataFrame) :
  groupby_agg key fn e = Ok g ->
  columns g = key :: filter (fun c => negb (label_eqb c key)) (columns e)
  /\ NoDup (column key g).
Proof.
  unfold groupby_agg. destruct (has_column key e); [|discriminate].
  intro H. inversion H. subst g. clear H. split; [reflexivity|].
  unfold column, data. cbn [rows]. rewrite data_range_index, map_map.
  rewrite (map_ext _ (fun k => k)).
  - rewrite map_id.
    apply (Permutation_NoDup (Permutation_sym (stable_sort_perm _ _))).
    apply unique_NoDup.
  - intro k. cbn [get]. now rewrite label_eqb_refl.
Qed.

(** The grouped frame with the measure column renamed: its columns, its
    keys and its cells. *)
Lemma renamed_group (nm val agg : label) (g : DataFrame) :
  columns g = [nm; val] -> val <> nm -> agg <> nm ->
  columns (rename_columns (rename1 val agg) g) = [nm; agg]
  /\ column nm (rename_columns (rename1 val agg) g) = column nm g.
Proof.
  intros Hc Hvn Han. apply label_eqb_neq in Hvn.
  assert (Hnv : label_eqb nm val = false).
  { rewrite label_eqb_neq. rewrite label_eqb_neq in Hvn. congruence. }
  split.
  - cbn [rename_columns columns]. rewrite Hc. cbn [map]. unfold rename1.
    now rewrite Hnv, label_eqb_refl.
  - unfold column. rewrite data_rename_columns, map_map. apply map_ext. intro r.
    rewrite Hc. cbn [map get]. unfold rename1. rewrite Hnv.
    now rewrite label_eqb_refl.
Qed.

(** ** Merging an aggregate into a node table *)

Section MergeAggregate.
Variables (nm agg : label) (L t : DataFrame).
Hypothesis HnL : In nm (columns L).
Hypothesis Hct : columns t = [nm; agg].
Hypothesis Han : agg <> nm.
Hypothesis Hkeys : NoDup (column nm t).

(** The aggregate of the node of row [l], missing when it has none. *)
Let cell (l : Row) : value :=
  match lookup_row nm (get nm l) t with Some m => get agg m | None => VNaN end.

Lemma brought_agg : brought nm t = [agg].
Proof.
  unfold brought. rewrite Hct. cbn [filter]. rewrite label_eqb_refl. cbn [negb].
  apply label_eqb_neq in Han. now rewrite Han.
Qed.

Lemma left_label_other (c : label) : c <> agg -> left_label nm "_x" t c = c.
Proof.
  intro Hc. unfold left_label. rewrite brought_agg. unfold mem_label.
  cbn [existsb]. apply label_eqb_neq in Hc. rewrite Hc. now rewrite andb_false_r.
Qed.

Lemma left_label_agg : left_label nm "_x" t agg = add_suffix agg "_x".
Proof.
  unfold left_label. rewrite brought_agg. unfold mem_label. cbn [existsb].
  rewrite label_eqb_refl. apply label_eqb_neq in Han. now rewrite Han.
Qed.

Lemma merge_aggregate :
  exists M,
    merge_left nm "_x" "_y" L t = Ok M
    /\ columns M = map (left_label nm "_x" t) (columns L) ++ [right_label "_y" L agg]
    /\ data M
       = map (fun l => map (fun c => (left_label nm "_x" t c, get c l)) (columns L)
                       ++ [(right_label "_y" L agg, cell l)])
             (data L).
Proof.
  assert (Hnt : In nm (columns t)) by (rewrite Hct; now left).
  destruct (merge_left_ok nm "_x" "_y" L t HnL Hnt) as [M HM].
  exists M. split; [exact HM|].
  destruct (merge_left_inv _ _ _ _ _ _ HM) as [_ [_ [Hc Hd]]].
  rewrite brought_agg in Hc. split; [exact Hc|].
  rewrite Hd, <- flat_map_single. apply flat_map_ext. intro l.
  rewrite (joined_once nm t (joined_row nm "_x" "_y" L t l) l Hkeys).
  unfold joined_row. now rewrite brought_agg.
Qed.
End MergeAggregate.

(** ** [add_to_def_df], called once and called again *)

Lemma lookup_mapped (nm : label) (F : Row -> Row) (rs : list Row) (k : value) :
  (forall l, In l rs -> get nm (F l) = get nm l) ->
  find (fun r => value_eqb (get nm r) k) (map F rs)
  = option_map F (find (fun r => value_eqb (get nm r) k) rs).
Proof.
  induction rs as [|l rs IH]; intro H; [reflexivity|].
  cbn [map find]. rewrite (H l) by now left.
  destruct (value_eqb (get nm l) k); [reflexivity|].
  apply IH. intros l' Hl'. apply H. now right.
Qed.

Section AggregateTwice.
Variables (h : Hierarchy) (paths : dict (list value)) (facts : DataFrame).
Variables (val agg : label) (fn : list value -> value).
Variables (e g M1 M2 : DataFrame).

Let nm := name_col (name h).
Let D := def_df h.
Let tdf := reindex [nm; val] facts.
Let ax := add_suffix agg "_x".
Let ay := add_suffix agg "_y".
Let t := rename_columns (rename1 val agg) g.
Let D1 := fillna (VStr "") M1.
Let D2 := fillna (VStr "") M2.

Hypothesis Hex : expandable h paths.
Hypothesis Hfc : fact_columns_ok h tdf = true.
Hypothesis Hin : forall c, In c [nm; val] -> In c (columns facts).
Hypothesis Hvn : val <> nm.
Hypothesis Hcomplete : complete D = true.
Hypothesis Hagg : ~ In agg (columns D).
Hypothesis Hax : ~ In ax (columns D).
Hypothesis Hay : ~ In ay (columns D).
Hypothesis He : expand h tdf [] = Ok e.
Hypothesis Hg : groupby_agg nm fn e = Ok g.
Hypothesis HM1 : merge_left nm "_x" "_y" D t = Ok M1.
Hypothesis HM2 : merge_left nm "_x" "_y" D1 t = Ok M2.

(** The aggregate of the node of row [l], missing when it has none. *)
Let cell (l : Row) : value :=
  match lookup_row nm (get nm l) t with Some m => get agg m | None => VNaN end.

Let fill := fill_cell (VStr "").

(** The row of the node table after one call and after two. *)
Let row1 (l : Row) : Row :=
  map (fun c => (c, fill (get c (project (columns D) l ++ [(agg, cell l)]))))
      (columns D ++ [agg]).

Let row2 (l : Row) : Row :=
  map (fun c => (c, fill (get c (project (columns D) l
                                 ++ [(ax, get agg l); (ay, cell l)]))))
      (columns D ++ [ax; ay]).

Lemma def_has_name : In nm (columns D).
Proof. apply (ex_def_columns _ _ Hex). Qed.

Lemma agg_not_name : agg <> nm.
Proof. intro E. apply Hagg. rewrite E. exact def_has_name. Qed.

Lemma def_not_agg (c : label) : In c (columns D) -> c <> agg.
Proof. intros Hc E. apply Hagg. now rewrite <- E. Qed.

Lemma group_columns : columns g = [nm; val].
Proof.
  destruct (groupby_shape _ _ _ _ Hg) as [Hc _]. rewrite Hc.
  rewrite (expand_columns h paths facts val Hex Hfc e He). fold nm.
  cbn [filter]. rewrite label_eqb_refl. apply label_eqb_neq in Hvn.
  now rewrite Hvn.
Qed.

Lemma aggregate_columns : columns t = [nm; agg].
Proof. apply renamed_group; [exact group_columns|exact Hvn|exact agg_not_name]. Qed.

Lemma aggregate_keys : NoDup (column nm t).
Proof.
  destruct (renamed_group nm val agg g group_columns Hvn agg_not_name) as [_ Hk].
  unfold t. rewrite Hk. apply (groupby_shape _ _ _ _ Hg).
Qed.

Lemma left_labels_def :
  map (left_label nm "_x" t) (columns D) = columns D.
Proof.
  rewrite <- (map_id (columns D)) at 2. apply map_ext_in. intros c Hc.
  apply (left_label_other nm agg t aggregate_columns agg_not_name).
  now apply def_not_agg.
Qed.

Lemma left_cells_def (l : Row) :
  map (fun c => (left_label nm "_x" t c, get c l)) (columns D)
  = project (columns D) l.
Proof.
  unfold project. apply map_ext_in. intros c Hc.
  rewrite (left_label_other nm agg t aggregate_columns agg_not_name); [reflexivity|].
  now apply def_not_agg.
Qed.

(** The node table after one call. *)
Lemma first_merge :
  columns D1 = columns D ++ [agg] /\ data D1 = map row1 (data D).
Proof.
  destruct (merge_aggregate nm agg D t def_has_name aggregate_columns
                            agg_not_name aggregate_keys) as [M [HM [Hc Hd]]].
  rewrite HM1 in HM. inversion HM. subst M. clear HM.
  assert (Hr : right_label "_y" D agg = agg).
  { unfold right_label. now rewrite (proj2 (mem_label_false _ _) Hagg). }
  rewrite left_labels_def, Hr in Hc.
  split; [exact Hc|].
  unfold D1. rewrite data_fillna, Hd, map_map, Hc. apply map_ext. intro l.
  unfold row1. apply map_ext. intro c. now rewrite left_cells_def, Hr.
Qed.

Lemma first_call :
  add_to_def_df h facts val agg fn = Ok (set_def_df h D1).
Proof.
  unfold add_to_def_df. fold nm. rewrite (select_ok _ _ Hin). cbn [bind].
  fold tdf. rewrite He. cbn [bind]. rewrite Hg. cbn [bind]. fold t D.
  rewrite HM1. reflexivity.
Qed.

Lemma def_cell_present (l : Row) (c : label) :
  In l (data D) -> In c (columns D) -> isnull (get c l) = false.
Proof.
  intros Hl Hc. unfold complete in Hcomplete.
  rewrite forallb_forall in Hcomplete. specialize (Hcomplete l Hl).
  rewrite forallb_forall in Hcomplete. specialize (Hcomplete c Hc).
  now apply negb_true_iff in Hcomplete.
Qed.

(** After one call a row keeps its cells, and holds its aggregate, blank
    when it has none. *)
Lemma row1_def_cell (l : Row) (c : label) :
  In l (data D) -> In c (columns D) -> get c (row1 l) = get c l.
Proof.
  intros Hl Hc. unfold row1.
  rewrite (get_tabulate _ (columns D ++ [agg]) c) by (apply in_or_app; now left).
  rewrite get_app_l by (now rewrite labels_project).
  rewrite get_project by exact Hc.
  apply fill_cell_present. now apply def_cell_present.
Qed.

Lemma row1_agg_cell (l : Row) : get agg (row1 l) = fill (cell l).
Proof.
  unfold row1.
  rewrite (get_tabulate _ (columns D ++ [agg]) agg)
    by (apply in_or_app; right; now left).
  rewrite get_app_r by (now rewrite labels_project).
  cbn [get]. now rewrite label_eqb_refl.
Qed.
(** The object after one call can be expanded as before. *)
Lemma once_expandable : expandable (set_def_df h D1) paths.
Proof.
  destruct first_merge as [Hc Hd].
  destruct Hex as [H1 H2 H3 H4 H5 [H6 H6'] H7].
  constructor; unfold set_def_df; cbn [name root_node paths_df def_df];
    try assumption.
  - rewrite Hc. split; apply in_or_app; now left.
  - fold nm. unfold column. rewrite Hd, map_map.
    rewrite (map_ext_in _ (get nm)); [exact H7|].
    intros l Hl. apply row1_def_cell; [exact Hl|exact def_has_name].
Qed.

Lemma once_index (k : value) :
  option_map (get IX_COL) (node_row (set_def_df h D1) k)
  = option_map (get IX_COL) (node_row h k).
Proof.
  destruct first_merge as [_ Hd].
  unfold node_row, set_def_df. cbn [name def_df]. fold nm D.
  unfold lookup_row. rewrite Hd.
  rewrite lookup_mapped
    by (intros l Hl; apply row1_def_cell; [exact Hl|exact def_has_name]).
  destruct (find (fun r => value_eqb (get nm r) k) (data D)) as [l|] eqn:F;
    [|reflexivity].
  cbn [option_map]. f_equal. apply find_some in F. destruct F as [Hl _].
  apply row1_def_cell; [exact Hl|]. apply (ex_def_columns _ _ Hex).
Qed.

Lemma expand_once_more : expand (set_def_df h D1) tdf [] = Ok e.
Proof.
  rewrite <- He.
  apply (expand_again h (set_def_df h D1) paths tdf Hex once_expandable
                      eq_refl eq_refl eq_refl Hfc once_index).
Qed.

(** The node table after the second call. *)
Lemma second_merge :
  columns D2 = columns D ++ [ax; ay] /\ data D2 = map row2 (data D1).
Proof.
  destruct first_merge as [Hc1 _].
  assert (Hn1 : In nm (columns D1)).
  { rewrite Hc1. apply in_or_app. left. exact def_has_name. }
  destruct (merge_aggregate nm agg D1 t Hn1 aggregate_columns
                            agg_not_name aggregate_keys) as [M [HM [Hc Hd]]].
  rewrite HM2 in HM. inversion HM. subst M. clear HM.
  assert (Hr : right_label "_y" D1 agg = ay).
  { unfold right_label.
    assert (Hm : mem_label agg (columns D1) = true).
    { apply mem_label_In. rewrite Hc1. apply in_or_app. right. now left. }
    now rewrite Hm. }
  assert (Hl : left_label nm "_x" t agg = ax)
    by apply (left_label_agg nm agg t aggregate_columns agg_not_name).
  rewrite Hc1, map_app, left_labels_def, Hr in Hc. cbn [map] in Hc.
  rewrite Hl, <- app_assoc in Hc. cbn [app] in Hc.
  split; [exact Hc|].
  unfold D2. rewrite data_fillna, Hd, map_map, Hc. apply map_ext. intro l.
  unfold row2. apply map_ext. intro c. f_equal. f_equal. f_equal.
  rewrite Hc1, map_app, left_cells_def, Hr. cbn [map]. rewrite Hl.
  now rewrite <- app_assoc.
Qed.

Lemma second_call :
  add_to_def_df (set_def_df h D1) facts val agg fn = Ok (set_def_df h D2).
Proof.
  unfold add_to_def_df. cbn [set_def_df name def_df]. fold nm.
  rewrite (select_ok _ _ Hin). cbn [bind]. fold tdf.
  rewrite expand_once_more. cbn [bind]. rewrite Hg. cbn [bind]. fold t.
  rewrite HM2. reflexivity.
Qed.

Lemma aggregate_same_key (l : Row) : In l (data D) -> cell (row1 l) = cell l.
Proof.
  intro Hl. unfold cell.
  now rewrite (row1_def_cell l nm Hl def_has_name).
Qed.

Lemma row2_def_cell (l : Row) (c : label) :
  In l (data D) -> In c (columns D) -> get c (row2 (row1 l)) = get c (row1 l).
Proof.
  intros Hl Hc. unfold row2.
  rewrite (get_tabulate _ (columns D ++ [ax; ay]) c) by (apply in_or_app; now left).
  rewrite get_app_l by (now rewrite labels_project).
  rewrite get_project by exact Hc.
  apply fill_cell_present. rewrite (row1_def_cell l c Hl Hc).
  now apply def_cell_present.
Qed.

Lemma row2_x_cell (l : Row) : get ax (row2 (row1 l)) = get agg (row1 l).
Proof.
  unfold row2.
  rewrite (get_tabulate _ (columns D ++ [ax; ay]) ax)
    by (apply in_or_app; right; now left).
  rewrite get_app_r by (now rewrite labels_project).
  cbn [get]. rewrite label_eqb_refl, row1_agg_cell.
  now apply fill_cell_idem.
Qed.

Lemma row2_y_cell (l : Row) :
  In l (data D) -> get ay (row2 (row1 l)) = get agg (row1 l).
Proof.
  intro Hl. unfold row2.
  rewrite (get_tabulate _ (columns D ++ [ax; ay]) ay)
    by (apply in_or_app; right; right; now left).
  rewrite get_app_r by (now rewrite labels_project).
  cbn [get].
  assert (Hyx : label_eqb ay ax = false).
  { apply label_eqb_neq. intro E. symmetry in E. now apply add_suffix_x_y in E. }
  rewrite Hyx, label_eqb_refl, row1_agg_cell.
  now rewrite aggregate_same_key.
Qed.

(** After the second call the aggregate is in two columns, with the cells
    the one column had after the first call; the other columns are as
    they were. *)
Lemma twice_columns :
  column ax D2 = column agg D1
  /\ column ay D2 = column agg D1
  /\ forall c, In c (columns D) -> column c D2 = column c D1.
Proof.
  destruct first_merge as [_ Hd1]. destruct second_merge as [_ Hd2].
  unfold column. rewrite Hd2, Hd1, !map_map.
  split; [|split].
  - apply map_ext. intro l. apply row2_x_cell.
  - apply map_ext_in. intros l Hl. now apply row2_y_cell.
  - intros c Hc. rewrite !map_map. apply map_ext_in. intros l Hl.
    now apply row2_def_cell.
Qed.
(** The aggregate frame, row by row. *)
Lemma aggregate_lookup (k : value) :
  lookup_row nm k t
  = option_map (fun r => [(nm, get nm r); (agg, get val r)]) (lookup_row nm k g).
Proof.
  assert (Hd : data t = map (fun r => [(nm, get nm r); (agg, get val r)]) (data g)).
  { unfold t. rewrite data_rename_columns, group_columns. apply map_ext. intro r.
    cbn [map]. unfold rename1. rewrite label_eqb_refl.
    assert (Hnv : label_eqb nm val = false).
    { apply label_eqb_neq. intro E. now apply Hvn. }
    now rewrite Hnv. }
  unfold lookup_row. rewrite Hd. apply lookup_mapped. intros r _.
  cbn [get]. now rewrite label_eqb_refl.
Qed.

(** After one call: the cell of the new column in the row of node [k]. *)
Lemma once_lookup (k : value) :
  option_map (get agg) (lookup_row nm k D1)
  = option_map (fun _ => fill (match option_map (get val) (lookup_row nm k g) with
                               | Some v => v
                               | None => VNaN
                               end))
               (lookup_row nm k D).
Proof.
  destruct first_merge as [_ Hd].
  unfold lookup_row at 1. rewrite Hd.
  rewrite lookup_mapped
    by (intros l Hl; apply row1_def_cell; [exact Hl|exact def_has_name]).
  fold (lookup_row nm k D).
  destruct (lookup_row nm k D) as [l|] eqn:El; [|reflexivity].
  cbn [option_map]. f_equal. rewrite row1_agg_cell. f_equal.
  unfold lookup_row in El. apply find_some in El. destruct El as [_ Ek].
  apply value_eqb_eq in Ek. unfold cell. rewrite Ek, aggregate_lookup.
  destruct (lookup_row nm k g) as [r|]; [|reflexivity].
  cbn [option_map get].
  assert (Han : label_eqb agg nm = false).
  { apply label_eqb_neq. exact agg_not_name. }
  now rewrite Han, label_eqb_refl.
Qed.

Lemma once_other_columns (c : label) :
  In c (columns D) -> column c D1 = column c D.
Proof.
  intro Hc. destruct first_merge as [_ Hd]. unfold column. rewrite Hd, map_map.
  apply map_ext_in. intros l Hl. now apply row1_def_cell.
Qed.
Lemma get_app_other (c c' : label) (v : value) (X : Row) :
  c <> c' -> get c (X ++ [(c', v)]) = get c X.
Proof.
  intro Hne. induction X as [|[c0 v0] X IH]; cbn [app get].
  - apply label_eqb_neq in Hne. now rewrite Hne.
  - now rewrite IH.
Qed.

Lemma once_node_row (k : value) :
  node_row (set_def_df h D1) k = option_map row1 (node_row h k).
Proof.
  destruct first_merge as [_ Hd].
  unfold node_row, set_def_df. cbn [name def_df]. fold nm D.
  unfold lookup_row. rewrite Hd.
  apply lookup_mapped. intros l Hl.
  apply row1_def_cell; [exact Hl|exact def_has_name].
Qed.

(** Expanding against the node table of the first call gives what it gave
    before the call, for requested columns other than the new one. *)
Lemma expand_unchanged (facts' : DataFrame) (add_cols : list label) :
  fact_columns_ok h facts' = true ->
  (forall c, In c add_cols -> c <> agg /\ c <> ay) ->
  expand (set_def_df h D1) facts' add_cols = expand h facts' add_cols.
Proof.
  intros Hfc' Hadd.
  apply (expand_again_cols h (set_def_df h D1) paths facts' Hex once_expandable
                           eq_refl eq_refl eq_refl Hfc' once_index add_cols).
  intros r c Hc. destruct (Hadd c Hc) as [Hca Hcy].
  set (ecols := expanded_columns h (columns facts')).
  assert (Hs : forall c, In c ecols -> is_LStr c = true)
    by (apply expanded_columns_strings; exact Hfc').
  unfold joined_row. cbn [columns set_def_df def_df name]. fold nm D.
  rewrite !(joined_left_part nm ecols _ r Hs).
  destruct (mem_label c ecols) eqn:Em.
  { apply mem_label_In in Em. now rewrite !get_app_l by (now rewrite labels_project). }
  apply mem_label_false in Em.
  rewrite !get_app_r by (now rewrite labels_project).
  destruct first_merge as [Hc1 _].
  assert (Hb : brought nm D1 = brought nm D ++ [agg]).
  { unfold brought. rewrite Hc1, filter_app. cbn [filter].
    assert (Han : label_eqb agg nm = false)
      by (apply label_eqb_neq; exact agg_not_name).
    now rewrite Han. }
  rewrite Hb, map_app. cbn [map].
  rewrite get_app_other.
  2:{ unfold right_label. cbn [columns]. destruct (mem_label agg ecols); assumption. }
  f_equal. apply map_ext_in. intros c' Hc'. f_equal.
  change (mkHierarchy (name h) (mandatory h) (root_node h) D1 (aggs_df h) (paths_df h))
    with (set_def_df h D1).
  rewrite once_node_row.
  destruct (node_row h (get nm r)) as [l|] eqn:El; [|reflexivity].
  cbn [option_map]. apply row1_def_cell.
  - unfold node_row, lookup_row in El. apply find_some in El. tauto.
  - unfold brought in Hc'. apply filter_In in Hc'. tauto.
Qed.
Lemma once_lookup_other (k : value) (c : label) :
  In c (columns D) ->
  option_map (get c) (lookup_row nm k D1) = option_map (get c) (lookup_row nm k D).
Proof.
  intro Hc. destruct first_merge as [_ Hd].
  unfold lookup_row at 1. rewrite Hd.
  rewrite lookup_mapped
    by (intros l Hl; apply row1_def_cell; [exact Hl|exact def_has_name]).
  fold (lookup_row nm k D).
  destruct (lookup_row nm k D) as [l|] eqn:El; [|reflexivity].
  cbn [option_map]. f_equal. apply row1_def_cell; [|exact Hc].
  unfold lookup_row in El. apply find_some in El. tauto.
Qed.
End AggregateTwice.

Lemma complete_fillna (v : value) (df : DataFrame) :
  isnull v = false -> complete (fillna v df) = true.
Proof.
  intro Hv. unfold complete. apply forallb_forall. intros r Hr.
  rewrite data_fillna in Hr. apply in_map_iff in Hr. destruct Hr as [r0 [<- _]].
  apply forallb_forall. intros c Hc. cbn [fillna columns] in Hc.
  rewrite (get_tabulate _ _ c Hc). apply negb_true_iff.
  unfold fill_cell. destruct (isnull (get c r0)) eqn:E; assumption.
Qed.

(** The node table of a constructed hierarchy has no missing cell. *)
Lemma init_complete (df : DataFrame) (nm : string) (root : option value)
      (h : Hierarchy) :
  Hierarchy_init df nm root = Ok h -> complete (def_df h) = true.
Proof.
  intro Hinit.
  destruct (Hierarchy_init_inv _ _ _ _ Hinit)
    as [paths [levels [merged [_ [_ [_ [_ [_ [_ [_ [_ Hd]]]]]]]]]]].
  rewrite Hd. now apply complete_fillna.
Qed.

Lemma append_not_self (s : string) : (s ++ "_x")%string <> s /\ (s ++ "_y")%string <> s.
Proof.
  induction s as [|a s [IHx IHy]]; simpl.
  - split; discriminate.
  - split; intro H; inversion H; contradiction.
Qed.

Lemma add_suffix_not_self (c : label) :
  add_suffix c "_x" <> c /\ add_suffix c "_y" <> c.
Proof.
  destruct c as [s|n]; simpl; [|split; discriminate].
  destruct (append_not_self s) as [Hx Hy].
  split; intro H; inversion H; contradiction.
Qed.

(** C8 (calling the aggregation twice). For a constructed hierarchy, a fact
    table with the node reference and the measure, and an output column
    [agg] such that the node table has no column [agg], [agg_x] or [agg_y]:
    both calls succeed; after the first the node table has the column
    [agg]; after the second it has no column [agg] but the columns [agg_x]
    and [agg_y], each with the cells that [agg] had after the first call,
    and every other column keeps its cells. *)
Theorem second_aggregation_splits_the_column
        (df : DataFrame) (nm : string) (root : option value) (h : Hierarchy)
        (facts : DataFrame) (val agg : label) (fn : list value -> value) :
  Hierarchy_init df nm root = Ok h ->
  has_column LEVEL_COL df = false ->
  keys_present df nm = true ->
  (exists s, root_node h = VStr s) ->
  nm <> "level" ->
  In (name_col nm) (columns facts) ->
  In val (columns facts) ->
  val <> name_col nm ->
  fact_columns_ok h (reindex [name_col nm; val] facts) = true ->
  has_column agg (def_df h) = false ->
  has_column (add_suffix agg "_x") (def_df h) = false ->
  has_column (add_suffix agg "_y") (def_df h) = false ->
  exists h1 h2,
    add_to_def_df h facts val agg fn = Ok h1
    /\ add_to_def_df h1 facts val agg fn = Ok h2
    /\ columns (def_df h1) = columns (def_df h) ++ [agg]
    /\ columns (def_df h2)
       = columns (def_df h) ++ [add_suffix agg "_x"; add_suffix agg "_y"]
    /\ has_column agg (def_df h2) = false
    /\ column (add_suffix agg "_x") (def_df h2) = column agg (def_df h1)
    /\ column (add_suffix agg "_y") (def_df h2) = column agg (def_df h1)
    /\ (forall c, In c (columns (def_df h)) ->
                  column c (def_df h2) = column c (def_df h1)).
Proof.
  intros Hinit Hlev Hkp Hrs Hnm Hin Hval Hvn Hfc Hagg Hax Hay.
  pose proof (init_name _ _ _ _ Hinit) as Hn.
  pose proof (init_complete _ _ _ _ Hinit) as Hcomp.
  destruct (init_expandable _ _ _ _ Hinit Hlev Hkp Hrs Hnm) as [paths [Hex _]].
  rewrite <- Hn in Hfc, Hvn, Hin.
  apply mem_label_false in Hagg, Hax, Hay.
  assert (Hcols : forall c, In c [name_col (name h); val] -> In c (columns facts)).
  { intros c [<-|[<-|[]]]; assumption. }
  destruct (expand_expected h paths _ Hex Hfc []) as [e [He _]].
  pose proof (expand_columns h paths facts val Hex Hfc e He) as Hce.
  assert (Hg : exists g, groupby_agg (name_col (name h)) fn e = Ok g).
  { assert (Hh : has_column (name_col (name h)) e = true).
    { apply has_column_In. rewrite Hce. now left. }
    unfold groupby_agg. rewrite Hh. eexists. reflexivity. }
  destruct Hg as [g Hg].
  pose proof (aggregate_columns h paths facts val agg fn e g Hex Hfc Hvn Hagg He Hg)
    as Hct.
  destruct (ex_def_columns _ _ Hex) as [Hdn _].
  assert (Hnt : In (name_col (name h)) (columns (rename_columns (rename1 val agg) g))).
  { rewrite Hct. now left. }
  destruct (merge_left_ok (name_col (name h)) "_x" "_y" (def_df h) _ Hdn Hnt)
    as [M1 HM1].
  destruct (first_merge h paths facts val agg fn e g M1 Hex Hfc Hvn Hagg He Hg HM1)
    as [Hc1 _].
  assert (Hn1 : In (name_col (name h)) (columns (fillna (VStr "") M1))).
  { rewrite Hc1. apply in_or_app. now left. }
  destruct (merge_left_ok (name_col (name h)) "_x" "_y" (fillna (VStr "") M1) _ Hn1 Hnt)
    as [M2 HM2].
  destruct (second_merge h paths facts val agg fn e g M1 M2
                         Hex Hfc Hvn Hagg He Hg HM1 HM2) as [Hc2 _].
  destruct (twice_columns h paths facts val agg fn e g M1 M2
                          Hex Hfc Hvn Hcomp Hagg Hax Hay He Hg HM1 HM2)
    as [Hx [Hy Hother]].
  exists (set_def_df h (fillna (VStr "") M1)), (set_def_df h (fillna (VStr "") M2)).
  cbn [set_def_df def_df].
  split; [exact (first_call h facts val agg fn e g M1 Hcols He Hg HM1)|].
  split; [exact (second_call h paths facts val agg fn e g M1 M2
                             Hex Hfc Hcols Hvn Hcomp Hagg He Hg HM1 HM2)|].
  split; [exact Hc1|]. split; [exact Hc2|].
  split; [|split; [exact Hx|split; [exact Hy|exact Hother]]].
  apply mem_label_false. rewrite Hc2. intro Hi. apply in_app_or in Hi.
  destruct (add_suffix_not_self agg) as [Nx Ny].
  destruct Hi as [Hi|[Hi|[Hi|[]]]]; [now apply Hagg|now apply Nx|now apply Ny].
Qed.

Lemma second_aggregation_splits_the_column_witness :
  add_to_def_df org_h pers (LStr "persnr") (LStr "n") agg_count = Ok org_h_n
  /\ add_to_def_df org_h_n pers (LStr "persnr") (LStr "n") agg_count = Ok org_h_nn
  /\ column (LStr "n_y") (def_df org_h_nn) = column (LStr "n") (def_df org_h_n).
Proof.
  assert (Hinit : Hierarchy_init org "oe" (Some (VStr "0")) = Ok org_h)
    by (vm_compute; reflexivity).
  assert (Hne : "oe" <> "level") by discriminate.
  assert (Hv : LStr "persnr" <> name_col "oe") by discriminate.
  assert (Hfc : fact_columns_ok org_h (reindex [name_col "oe"; LStr "persnr"] pers)
                = true) by (vm_compute; reflexivity).
  assert (Ha : has_column (LStr "n") (def_df org_h) = false)
    by (vm_compute; reflexivity).
  assert (Hx : has_column (add_suffix (LStr "n") "_x") (def_df org_h) = false)
    by (vm_compute; reflexivity).
  assert (Hy : has_column (add_suffix (LStr "n") "_y") (def_df org_h) = false)
    by (vm_compute; reflexivity).
  destruct (second_aggregation_splits_the_column
              org "oe" (Some (VStr "0")) org_h pers (LStr "persnr") (LStr "n")
              agg_count
              Hinit eq_refl eq_refl (ex_intro _ "0" eq_refl) Hne
              (or_introl eq_refl) (or_intror (or_introl eq_refl)) Hv
              Hfc Ha Hx Hy)
    as [h1 [h2 [H1 [H2 [_ [_ [_ [_ [Hy2 _]]]]]]]]].
  assert (E1 : h1 = org_h_n) by (unfold org_h_n; rewrite H1; reflexivity).
  subst h1.
  assert (E2 : h2 = org_h_nn) by (unfold org_h_nn; rewrite H2; reflexivity).
  subst h2.
  split; [exact H1|]. split; [exact H2|exact Hy2].
Defined.

(** C8, as stated, fails on the demonstration: after the second call the
    node table has no column 'n' any more, so the object is not the one
    the first call left. *)
Lemma second_call_drops_the_output_column :
  add_to_def_df org_h pers (LStr "persnr") (LStr "n") agg_count = Ok org_h_n
  /\ add_to_def_df org_h_n pers (LStr "persnr") (LStr "n") agg_count = Ok org_h_nn
  /\ has_column (LStr "n") (def_df org_h_n) = true
  /\ has_column (LStr "n") (def_df org_h_nn) = false
  /\ select [LStr "n"] (def_df org_h_nn) = Raise KeyError
  /\ columns (def_df org_h_nn)
     = [LStr "oe"; LStr "parent_oe"; LStr "h_ix"; LStr "h_level";
        LStr "n_x"; LStr "n_y"]
  /\ org_h_nn <> org_h_n.
Proof.
  split; [vm_compute; reflexivity|].
  split; [vm_compute; reflexivity|].
  split; [vm_compute; reflexivity|].
  split; [vm_compute; reflexivity|].
  split; [vm_compute; reflexivity|].
  split; [vm_compute; reflexivity|].
  intro H. apply (f_equal (fun x => columns (def_df x))) in H.
  vm_compute in H. discriminate H.
Qed.

(** * Further properties of the code *)

(** ** Construction: the input contract *)

Lemma has_column_add_ix (df : DataFrame) (c : label) :
  has_column c (add_ix df) = has_column c df || label_eqb c IX_COL.
Proof.
  destruct (has_column c (add_ix df)) eqn:E.
  - apply has_column_In in E. apply columns_add_ix in E. symmetry.
    apply orb_true_iff. destruct E as [E| ->].
    + left. now apply has_column_In.
    + right. apply label_eqb_refl.
  - symmetry. apply orb_false_iff. split.
    + destruct (has_column c df) eqn:F; [|reflexivity].
      apply has_column_In in F.
      assert (G : has_column c (add_ix df) = true).
      { apply has_column_In. apply columns_add_ix. now left. }
      congruence.
    + destruct (label_eqb c IX_COL) eqn:F; [|reflexivity].
      apply label_eqb_eq in F. subst c.
      assert (G : has_column IX_COL (add_ix df) = true).
      { apply has_column_In. apply columns_add_ix. now right. }
      congruence.
Qed.

(** X1. A definition table without the [<name>] column cannot be used:
    with the root given, construction raises KeyError, from the selection
    of the key column for [aggs_df], before the guard on the columns is
    reached.  The one exception is the name 'h_ix': the constructor has then
    just added that column to its copy, the selection passes and the guard
    raises ValueError. *)
Theorem init_without_name_column (df : DataFrame) (nm : string) (r : value) :
  has_column (name_col nm) df = false ->
  Hierarchy_init df nm (Some r)
  = Raise (if String.eqb nm "h_ix" then ValueError else KeyError).
Proof.
  intro H. unfold Hierarchy_init. cbn [bind]. unfold select. cbn [forallb].
  rewrite has_column_add_ix, H. cbn [orb name_col label_eqb IX_COL].
  change (H_PREFIX ++ "ix")%string with "h_ix"%string.
  rewrite andb_true_r.
  destruct (String.eqb nm "h_ix"); reflexivity.
Qed.

Lemma init_without_name_column_witness :
  Hierarchy_init org "dept" (Some (VStr "0")) = Raise KeyError
  /\ Hierarchy_init org "h_ix" (Some (VStr "0")) = Raise ValueError.
Proof.
  split.
  - apply (init_without_name_column org "dept" (VStr "0")). reflexivity.
  - apply (init_without_name_column org "h_ix" (VStr "0")). reflexivity.
Defined.

(** X2. A definition table with the [<name>] column but without the
    [parent_<name>] column: with the root given, construction raises the
    ValueError of the guard; with the default root it raises KeyError, from
    the lookup of the root in the missing column. *)
Theorem init_without_parent_column (df : DataFrame) (nm : string) (r : value) :
  has_column (name_col nm) df = true ->
  has_column (parent_col nm) df = false ->
  Hierarchy_init df nm (Some r) = Raise ValueError
  /\ Hierarchy_init df nm None = Raise KeyError.
Proof.
  intros Hn Hp. split.
  - unfold Hierarchy_init. cbn [bind]. unfold select. cbn [forallb].
    rewrite has_column_add_ix, Hn. cbn [orb andb bind]. now rewrite Hp.
  - unfold Hierarchy_init, at_. now rewrite Hp.
Qed.

Lemma init_without_parent_column_witness :
  Hierarchy_init pers "oe" (Some (VStr "0")) = Raise ValueError
  /\ Hierarchy_init pers "oe" None = Raise KeyError.
Proof.
  apply (init_without_parent_column pers "oe" (VStr "0")); reflexivity.
Defined.

(** X3. A definition table in which a node key occurs twice is refused:
    construction raises ValueError, whatever the edges are. *)
Theorem init_duplicate_keys (df : DataFrame) (nm : string) (r : value) :
  has_column (name_col nm) df = true ->
  has_column (parent_col nm) df = true ->
  has_duplicates (column (name_col nm) df) = true ->
  Hierarchy_init df nm (Some r) = Raise ValueError.
Proof.
  intros Hn Hp Hd. unfold Hierarchy_init. cbn [bind]. unfold select. cbn [forallb].
  rewrite has_column_add_ix, Hn. cbn [orb andb bind]. now rewrite Hp, Hd.
Qed.

Lemma init_duplicate_keys_witness :
  Hierarchy_init org_twice "oe" (Some (VStr "0")) = Raise ValueError.
Proof.
  apply (init_duplicate_keys org_twice "oe" (VStr "0")); reflexivity.
Defined.

(** X4. The default root.  With [root=None] the root is the parent cell of
    the row whose index label is 0, and construction goes on as if that
    value had been given; a table with no row under label 0 (an empty one,
    or one whose first rows were filtered out) raises KeyError. *)
Theorem init_default_root (df : DataFrame) (nm : string) :
  has_column (parent_col nm) df = true ->
  Hierarchy_init df nm None
  = match loc 0 (rows df) with
    | Some r0 => Hierarchy_init df nm (Some (get (parent_col nm) r0))
    | None => Raise KeyError
    end.
Proof.
  intro Hp. unfold Hierarchy_init, at_. rewrite Hp.
  destruct (loc 0 (rows df)); reflexivity.
Qed.

Lemma init_default_root_witness :
  Hierarchy_init org "oe" None = Ok org_h
  /\ Hierarchy_init (filter_rows (fun r => negb (value_eqb (get (LStr "oe") r) (VStr "1")))
                                 org) "oe" None
     = Raise KeyError.
Proof.
  split.
  - rewrite (init_default_root org "oe"); [|reflexivity].
    vm_compute. reflexivity.
  - rewrite init_default_root; [|reflexivity]. vm_compute. reflexivity.
Defined.

(** ** Construction: what becomes of the definition table *)

Lemma init_merged_column (df : DataFrame) (nm : string) (levels : dict Z)
      (merged : DataFrame) (c : label) :
  In (name_col nm) (columns df) ->
  has_column LEVEL_COL df = false ->
  NoDup (map fst levels) ->
  merge_left (name_col nm) "_x" "_y" (add_ix df) (make_levels_df nm levels) = Ok merged ->
  In c (columns (add_ix df)) ->
  column c (fillna DEFAULT_LEVEL merged)
  = map (fill_cell DEFAULT_LEVEL) (column c (add_ix df)).
Proof.
  intros Hn Hlev Hnd Hm Hc.
  assert (Hne : name_col nm <> LEVEL_COL).
  { intro E. rewrite E in Hn. apply has_column_In in Hn. congruence. }
  assert (Hb : brought (name_col nm) (make_levels_df nm levels) = [LEVEL_COL])
    by (apply (brought_levels nm Hne)).
  assert (Hnc : no_clash (name_col nm) (add_ix df) (make_levels_df nm levels)).
  { intros c' Hc'. rewrite Hb in Hc'. destruct Hc' as [<-|[]].
    now apply level_col_fresh. }
  destruct (merge_left_no_clash _ _ _ _ _ _ Hm Hnc) as [_ [_ [Hcols Hdata]]].
  rewrite Hb in Hcols.
  unfold column. rewrite data_fillna, !map_map, Hdata, map_flat_map.
  rewrite <- flat_map_single. apply flat_map_ext_in. intros l Hl.
  rewrite (joined_once (name_col nm) (make_levels_df nm levels)
             (widen (name_col nm) (add_ix df) (make_levels_df nm levels) l) l)
    by (rewrite column_levels_df; exact Hnd).
  cbn [map]. f_equal.
  rewrite (get_map_cells (fun c => fill_cell DEFAULT_LEVEL (get c _)))
    by (rewrite Hcols; apply in_or_app; now left).
  now rewrite get_widen_left by exact Hc.
Qed.

Lemma column_ix_added (df : DataFrame) :
  has_column IX_COL df = false ->
  column IX_COL (add_ix df) = map (fun ir => VInt (fst ir)) (rows df).
Proof.
  intro H. unfold add_ix, column, with_column, data. rewrite H. cbn [rows].
  rewrite !map_map. apply map_ext. intros [i r]. cbn [fst snd].
  rewrite (get_map_cells
             (fun c' => if label_eqb c' IX_COL then VInt i else get c' r))
    by (apply in_or_app; right; now left).
  now rewrite label_eqb_refl.
Qed.

(** X5. Construction keeps the rows of the definition table, in order, and
    appends the level column (and the index column [h_ix] when the table
    has none, holding the index labels).  The closing [fillna(999)] applies
    to the whole table: a missing cell of any input column reads 999
    afterwards, and no cell of the node table is missing. *)
Theorem init_keeps_rows_and_fills_999
        (df : DataFrame) (nm : string) (root : option value) (h : Hierarchy) :
  Hierarchy_init df nm root = Ok h ->
  has_column LEVEL_COL df = false ->
  columns (def_df h)
  = (if has_column IX_COL df then columns df else columns df ++ [IX_COL])
    ++ [LEVEL_COL]
  /\ (forall c, In c (columns df) ->
                column c (def_df h) = map (fill_cell (VInt 999)) (column c df))
  /\ (has_column IX_COL df = false ->
      column IX_COL (def_df h) = map (fun ir => VInt (fst ir)) (rows df))
  /\ complete (def_df h) = true.
Proof.
  intros Hinit Hlev.
  destruct (Hierarchy_init_inv _ _ _ _ Hinit)
    as [paths [levels [merged [_ [_ [Hn [_ [_ [Hgp [_ [Hm Hd]]]]]]]]]]].
  assert (Hnd : NoDup (map fst levels)).
  { unfold _get_paths in Hgp.
    eapply (get_paths_loop_keys _ _ _ [] []); [exact Hgp| |]; constructor. }
  assert (Hne : name_col nm <> LEVEL_COL).
  { intro E. rewrite E in Hn. apply has_column_In in Hn. congruence. }
  assert (Hb : brought (name_col nm) (make_levels_df nm levels) = [LEVEL_COL])
    by (apply (brought_levels nm Hne)).
  assert (Hnc : no_clash (name_col nm) (add_ix df) (make_levels_df nm levels)).
  { intros c' Hc'. rewrite Hb in Hc'.
    destruct Hc' as [<-|[]]. now apply level_col_fresh. }
  destruct (merge_left_no_clash _ _ _ _ _ _ Hm Hnc) as [_ [_ [Hcols _]]].
  rewrite Hb in Hcols.
  split; [|split; [|split]].
  - rewrite Hd. cbn [fillna columns]. rewrite Hcols. f_equal.
    unfold add_ix, with_column. destruct (has_column IX_COL df); reflexivity.
  - intros c Hc. rewrite Hd.
    rewrite (init_merged_column df nm levels merged c Hn Hlev Hnd Hm)
      by (apply columns_add_ix; now left).
    now rewrite column_add_ix.
  - intro Hix. rewrite Hd.
    rewrite (init_merged_column df nm levels merged IX_COL Hn Hlev Hnd Hm)
      by (apply columns_add_ix; now right).
    rewrite (column_ix_added df Hix), map_map. apply map_ext. intros [i r].
    reflexivity.
  - rewrite Hd. now apply complete_fillna.
Qed.

Lemma init_keeps_rows_and_fills_999_witness :
  column (LStr "manager") (def_df org_gap_h) = [VStr "Ann"; VInt 999]
  /\ column IX_COL (def_df org_gap_h) = [VInt 0; VInt 1].
Proof.
  assert (Hinit : Hierarchy_init org_gap "oe" (Some (VStr "0")) = Ok org_gap_h)
    by (vm_compute; reflexivity).
  destruct (init_keeps_rows_and_fills_999 org_gap "oe" (Some (VStr "0")) org_gap_h
                                          Hinit eq_refl)
    as [_ [Hc [Hix _]]].
  split.
  - rewrite (Hc (LStr "manager")); [reflexivity|]. simpl. tauto.
  - rewrite Hix; reflexivity.
Defined.

(** ** Paths and levels along the edges *)

(** X6. In a hierarchy built from a table that does not list the root as a
    node, the stored path of a child is the stored path of its parent with
    the child appended (after the root alone when the parent is the root);
    it holds no node twice, and the level of the child is the number of
    nodes before it on that path: one more than the level of its parent. *)
Theorem child_path_extends_parent_path
        (df : DataFrame) (nm : string) (root : option value) (h : Hierarchy)
        (u v : value) :
  Hierarchy_init df nm root = Ok h ->
  has_column LEVEL_COL df = false ->
  keys_present df nm = true ->
  in_table df nm (root_node h) = false ->
  edge df nm u v ->
  exists p,
    stored_path h v = Some (p ++ [v])
    /\ NoDup (p ++ [v])
    /\ level_of h v = Some (VInt (Z.of_nat (length p)))
    /\ (if value_eqb u (root_node h) then p = [u]
        else stored_path h u = Some p
             /\ level_of h u = Some (VInt (Z.of_nat (length p) - 1))).
Proof.
  intros Hinit Hlev Hkp Hroot He.
  destruct (child_path df nm root h Hinit Hlev Hkp Hroot u v He) as [A HA].
  destruct (stored_path_level _ _ _ _ _ _ Hinit Hlev Hkp HA)
    as [Hl [_ [[q [Hq Hni]] _]]].
  pose proof (stored_path_NoDup df nm root h Hinit Hlev Hkp v _ HA) as Hnd.
  exists (A ++ [u]).
  assert (Hp : (A ++ [u]) ++ [v] = A ++ [u; v]) by now rewrite <- app_assoc.
  rewrite Hp. split; [exact HA|]. split.
  { rewrite Hq in Hnd |- *. cbn [tl] in Hnd. now constructor. }
  split.
  { rewrite Hl. unfold path_level. do 2 f_equal.
    rewrite !length_app. cbn [length]. lia. }
  destruct (value_eqb u (root_node h)) eqn:Eu.
  - apply value_eqb_eq in Eu. destruct A as [|x A]; [reflexivity|].
    exfalso. cbn [app] in Hq. inversion Hq as [[Hx Hr]].
    apply Hni. rewrite <- Hr, <- Eu. apply in_or_app. right. now left.
  - apply value_eqb_neq in Eu. destruct A as [|x A].
    + cbn [app] in Hq. inversion Hq. contradiction.
    + cbn [app] in Hq. inversion Hq as [[Hx Hr]]. subst x.
      assert (Hu : stored_path h u = Some (root_node h :: A ++ [u])).
      { apply (stored_path_prefix df nm root h Hinit Hlev Hkp v A [v] u).
        exact HA. }
      split; [exact Hu|].
      destruct (stored_path_level _ _ _ _ _ _ Hinit Hlev Hkp Hu) as [Hlu _].
      rewrite Hlu. unfold path_level. reflexivity.
Qed.

Lemma child_path_extends_parent_path_witness :
  stored_path org_h (VStr "121") = Some [VStr "0"; VStr "1"; VStr "12"; VStr "121"]
  /\ level_of org_h (VStr "121") = Some (VInt 3).
Proof.
  assert (Hinit : Hierarchy_init org "oe" (Some (VStr "0")) = Ok org_h)
    by (vm_compute; reflexivity).
  assert (He : edge org "oe" (VStr "12") (VStr "121")).
  { exists [(LStr "oe", VStr "121"); (LStr "parent_oe", VStr "12")].
    split; [|split; reflexivity]. vm_compute. tauto. }
  destruct (child_path_extends_parent_path
              org "oe" (Some (VStr "0")) org_h (VStr "12") (VStr "121")
              Hinit eq_refl eq_refl eq_refl He)
    as [p [Hv [_ [Hl Hu]]]].
  assert (Hp : stored_path org_h (VStr "12") = Some [VStr "0"; VStr "1"; VStr "12"])
    by (vm_compute; reflexivity).
  change (value_eqb (VStr "12") (root_node org_h)) with false in Hu.
  destruct Hu as [Hu _]. rewrite Hp in Hu. inversion Hu. subst p.
  split; [exact Hv|exact Hl].
Defined.

(** ** The order of the rows that [expand] returns *)

Lemma Sorted_map_related {A B : Type} (R : A -> A -> Prop) (R' : B -> B -> Prop)
      (f : A -> B) (l : list A) :
  (forall a b, R a b -> R' (f a) (f b)) -> Sorted R l -> Sorted R' (map f l).
Proof.
  intros H. induction 1 as [|a l Hs IH Hh]; simpl; constructor.
  - exact IH.
  - destruct Hh as [|b l Hab]; simpl; constructor. now apply H.
Qed.

Lemma row_leb_project (by_ cs : list label) (a b : Row) :
  (forall c, In c by_ -> In c cs) ->
  row_leb by_ (project cs a) (project cs b) = row_leb by_ a b.
Proof.
  induction by_ as [|c by_ IH]; intro H; [reflexivity|].
  cbn [row_leb]. rewrite !get_project by (apply H; now left).
  rewrite IH by (intros c' Hc'; apply H; now right). reflexivity.
Qed.

Lemma expand_sorted (h : Hierarchy) (paths : dict (list value)) (facts : DataFrame)
      (add_cols : list label) :
  expandable h paths ->
  fact_columns_ok h facts = true ->
  In IX_COL (columns facts ++ add_cols) ->
  In LEVEL_COL (columns facts ++ add_cols) ->
  exists out,
    expand h facts add_cols = Ok out
    /\ Sorted (fun a b => row_leb [IX_COL; LEVEL_COL] a b = true) (data out).
Proof.
  intros Hex Hfc Hix Hlv. unfold expand.
  rewrite (proj2 (mem_label_In _ (columns facts)) (fc_name h facts Hfc)).
  destruct (stage_merge_paths h paths facts Hex Hfc) as [t1 [Hm1 _]].
  rewrite Hm1. cbn [bind].
  destruct (stage_melt h paths facts Hex Hfc t1 Hm1) as [t2 [Hm2 [Hc2 Hd2]]].
  rewrite Hm2. cbn [bind].
  destruct (stage_rename h paths facts Hex Hfc t2 Hc2 Hd2) as [t5 [Hm5 [Hc6 _]]].
  rewrite Hm5. cbn [bind].
  destruct (stage_join h paths facts Hex Hfc _ Hc6) as [t7 [Hm7 [Hi7 [Hl7 _]]]].
  rewrite Hm7. cbn [bind].
  destruct (sort_values_ok [IX_COL; LEVEL_COL] t7) as [t8 [Hs [_ [_ [Hsorted _]]]]].
  { intros c [<-|[<-|[]]]; now apply has_column_In. }
  rewrite Hs. cbn [bind]. eexists. split; [reflexivity|].
  rewrite data_reindex.
  apply (Sorted_map_related (fun a b => row_leb [IX_COL; LEVEL_COL] a b = true));
    [|exact Hsorted].
  intros a b Hab. rewrite row_leb_project; [exact Hab|].
  intros c [<-|[<-|[]]]; assumption.
Qed.

(** X7. When the index and the level column are asked for, the rows that
    [expand] returns are in ascending order of [h_ix] and, where that is
    equal, of [h_level]: all rows of one ancestor lie together, the
    ancestors in the order of the node table.  Stated for a node table
    whose [h_ix] is made of its index labels and a fact table without a
    column [h_ix], so that the sort compares numbers only. *)
Theorem expand_rows_are_in_node_order
        (df : DataFrame) (nm : string) (root : option value) (h : Hierarchy)
        (facts : DataFrame) (add_cols : list label) :
  Hierarchy_init df nm root = Ok h ->
  has_column LEVEL_COL df = false ->
  has_column IX_COL df = false ->
  keys_present df nm = true ->
  (exists s, root_node h = VStr s) ->
  nm <> "level" ->
  fact_columns_ok h facts = true ->
  has_column IX_COL facts = false ->
  In IX_COL add_cols ->
  In LEVEL_COL add_cols ->
  exists out,
    expand h facts add_cols = Ok out
    /\ Sorted (fun a b => row_leb [IX_COL; LEVEL_COL] a b = true) (data out).
Proof.
  intros Hinit Hlev _ Hkp Hrs Hnm Hfc _ Hix Hlv.
  destruct (init_expandable _ _ _ _ Hinit Hlev Hkp Hrs Hnm) as [paths [Hex _]].
  apply (expand_sorted h paths facts add_cols Hex Hfc); apply in_or_app; now right.
Qed.

Lemma expand_rows_are_in_node_order_witness :
  exists out,
    expand org_h pers [IX_COL; LEVEL_COL] = Ok out
    /\ Sorted (fun a b => row_leb [IX_COL; LEVEL_COL] a b = true) (data out)
    /\ column IX_COL out
       = [VInt 0; VInt 0; VInt 0; VInt 0; VInt 0;
          VInt 1; VInt 1; VInt 1; VInt 1; VInt 3; VInt 3; VInt 3].
Proof.
  assert (Hinit : Hierarchy_init org "oe" (Some (VStr "0")) = Ok org_h)
    by (vm_compute; reflexivity).
  assert (Hne : "oe" <> "level") by discriminate.
  destruct (expand_rows_are_in_node_order
              org "oe" (Some (VStr "0")) org_h pers [IX_COL; LEVEL_COL]
              Hinit eq_refl eq_refl eq_refl (ex_intro _ "0" eq_refl) Hne
              eq_refl eq_refl (or_introl eq_refl) (or_intror (or_introl eq_refl)))
    as [out [He Hs]].
  exists out. split; [exact He|]. split; [exact Hs|].
  assert (Hc : expand org_h pers [IX_COL; LEVEL_COL] = Ok out -> 
               column IX_COL out
               = [VInt 0; VInt 0; VInt 0; VInt 0; VInt 0;
                  VInt 1; VInt 1; VInt 1; VInt 1; VInt 3; VInt 3; VInt 3]).
  { vm_compute. intro E. inversion E. reflexivity. }
  exact (Hc He).
Defined.

(** ** Roll-up with other reducers *)

Lemma agg_sum_perm (l l' : list value) :
  Permutation l l' -> agg_sum l = agg_sum l'.
Proof.
  unfold agg_sum. intro H. f_equal.
  induction H as [|x l l' Hp IH|x y l|l l' l'' H1 IH1 H2 IH2]; simpl.
  - reflexivity.
  - now rewrite IH.
  - destruct x, y; lia.
  - congruence.
Qed.

(** X8. Roll-up for any reducer that does not look at the order of its
    input (count, sum, ...): after selecting the node reference and the
    measure, expanding and grouping by node, the cell of a node of the tree
    is the reducer applied to the measures of the fact rows whose node lies
    in its subtree; a node without such a fact row has no group. *)
Theorem rollup_of_symmetric_reducer
        (df : DataFrame) (nm : string) (root : option value) (h : Hierarchy)
        (facts : DataFrame) (val : label) (fn : list value -> value) :
  Hierarchy_init df nm root = Ok h ->
  has_column LEVEL_COL df = false ->
  keys_present df nm = true ->
  (exists s, root_node h = VStr s) ->
  nm <> "level" ->
  In (name_col nm) (columns facts) ->
  In val (columns facts) ->
  val <> name_col nm ->
  fact_columns_ok h (reindex [name_col nm; val] facts) = true ->
  (forall l l', Permutation l l' -> fn l = fn l') ->
  exists tdf e g,
    select [name_col nm; val] facts = Ok tdf
    /\ expand h tdf [] = Ok e
    /\ groupby_agg (name_col nm) fn e = Ok g
    /\ forall c, stored_path h c <> None ->
         option_map (get val) (lookup_row (name_col nm) c g)
         = if Nat.eqb (subtree_count h facts c) 0 then None
           else Some (fn (map (get val)
                              (filter (fun f => in_subtree h c (get (name_col nm) f))
                                      (data facts)))).
Proof.
  intros Hinit Hlev Hkp Hrs Hnm Hin Hval Hvn Hfc Hsym.
  pose proof (init_name _ _ _ _ Hinit) as Hn.
  destruct (init_expandable _ _ _ _ Hinit Hlev Hkp Hrs Hnm) as [paths [Hex Hsp]].
  rewrite <- Hn in Hfc, Hvn, Hin |- *.
  set (tdf := reindex [name_col (name h); val] facts) in *.
  destruct (expand_expected h paths tdf Hex Hfc []) as [e [He [Hc _]]].
  assert (Hg : exists g, groupby_agg (name_col (name h)) fn e = Ok g).
  { assert (Hh : has_column (name_col (name h)) e = true).
    { apply has_column_In. rewrite Hc. now left. }
    unfold groupby_agg. rewrite Hh. eexists. reflexivity. }
  destruct Hg as [g Hg].
  exists tdf, e, g. split.
  { apply select_ok. intros c [<-|[<-|[]]]; assumption. }
  split; [exact He|]. split; [exact Hg|].
  intros c Hc'.
  assert (Hnd : forall k p, stored_path h k = Some p -> NoDup (tl p))
    by apply (stored_path_NoDup df nm root h Hinit Hlev Hkp).
  assert (Hnn : isnull c = false).
  { destruct (stored_path h c) as [p|] eqn:Hp; [|congruence].
    destruct (stored_path_level _ _ _ _ _ _ Hinit Hlev Hkp Hp)
      as [_ [_ [[q [Hq _]] _]]].
    rewrite Hsp in Hp.
    destruct (ex_paths_shape _ _ Hex _ _ Hp) as [_ Hall].
    rewrite Forall_forall in Hall. apply Hall. subst p.
    right. apply in_or_app. right. now left. }
  rewrite (grouped_cell h paths facts val Hex Hnd Hfc Hvn fn e g c He Hg Hnn).
  destruct (Nat.eqb (subtree_count h facts c) 0); [reflexivity|].
  f_equal. apply Hsym.
  apply (rollup_measures h paths facts val Hex Hnd Hfc Hvn e c He).
Qed.

Lemma rollup_of_symmetric_reducer_witness :
  exists tdf e g,
    select [LStr "oe"; LStr "amount"] sales = Ok tdf
    /\ expand org_h tdf [] = Ok e
    /\ groupby_agg (LStr "oe") agg_sum e = Ok g
    /\ option_map (get (LStr "amount")) (lookup_row (LStr "oe") (VStr "12") g)
       = Some (VInt 16)
    /\ option_map (get (LStr "amount")) (lookup_row (LStr "oe") (VStr "1") g)
       = Some (VInt 23).
Proof.
  assert (Hinit : Hierarchy_init org "oe" (Some (VStr "0")) = Ok org_h)
    by (vm_compute; reflexivity).
  assert (Hne : "oe" <> "level") by discriminate.
  assert (Hv : LStr "amount" <> name_col "oe") by discriminate.
  assert (Hfc : fact_columns_ok org_h (reindex [name_col "oe"; LStr "amount"] sales)
                = true) by (vm_compute; reflexivity).
  destruct (rollup_of_symmetric_reducer
              org "oe" (Some (VStr "0")) org_h sales (LStr "amount") agg_sum
              Hinit eq_refl eq_refl (ex_intro _ "0" eq_refl) Hne
              (or_introl eq_refl) (or_intror (or_introl eq_refl)) Hv Hfc
              agg_sum_perm)
    as [tdf [e [g [Hs [He [Hg Hc]]]]]].
  exists tdf, e, g. split; [exact Hs|]. split; [exact He|]. split; [exact Hg|].
  split.
  - unfold name_col in Hc. rewrite (Hc (VStr "12")).
    + vm_compute. reflexivity.
    + vm_compute. discriminate.
  - unfold name_col in Hc. rewrite (Hc (VStr "1")).
    + vm_compute. reflexivity.
    + vm_compute. discriminate.
Defined.

(** ** What one call of [add_to_def_df] leaves in the node table *)

(** X9. One call of [add_to_def_df], with a reducer that does not look at
    the order of its input and an output column the node table does not
    have yet: the call succeeds, the node table gets the output column as
    its last column, every other column keeps its cells, and in the row of a
    node of the tree the new cell is the reducer applied to the measures of
    the fact rows in the subtree of that node, or the empty string when the
    subtree has no fact row (a missing result is blanked as well). *)
Theorem aggregate_column_is_subtree_reduction
        (df : DataFrame) (nm : string) (root : option value) (h : Hierarchy)
        (facts : DataFrame) (val agg : label) (fn : list value -> value) :
  Hierarchy_init df nm root = Ok h ->
  has_column LEVEL_COL df = false ->
  keys_present df nm = true ->
  (exists s, root_node h = VStr s) ->
  nm <> "level" ->
  In (name_col nm) (columns facts) ->
  In val (columns facts) ->
  val <> name_col nm ->
  fact_columns_ok h (reindex [name_col nm; val] facts) = true ->
  has_column agg (def_df h) = false ->
  (forall l l', Permutation l l' -> fn l = fn l') ->
  exists h1,
    add_to_def_df h facts val agg fn = Ok h1
    /\ columns (def_df h1) = columns (def_df h) ++ [agg]
    /\ (forall c, In c (columns (def_df h)) ->
                  column c (def_df h1) = column c (def_df h))
    /\ (forall k, stored_path h k <> None ->
          option_map (get agg) (lookup_row (name_col nm) k (def_df h1))
          = Some (if Nat.eqb (subtree_count h facts k) 0 then VStr ""
                  else fill_cell (VStr "")
                         (fn (map (get val)
                                  (filter (fun f => in_subtree h k (get (name_col nm) f))
                                          (data facts)))))).
Proof.
  intros Hinit Hlev Hkp Hrs Hnm Hin Hval Hvn Hfc Hagg Hsym.
  pose proof (init_name _ _ _ _ Hinit) as Hn.
  pose proof (init_complete _ _ _ _ Hinit) as Hcomp.
  destruct (init_expandable _ _ _ _ Hinit Hlev Hkp Hrs Hnm) as [paths [Hex Hsp]].
  rewrite <- Hn in Hfc, Hvn, Hin |- *.
  apply mem_label_false in Hagg.
  assert (Hcols : forall c, In c [name_col (name h); val] -> In c (columns facts)).
  { intros c [<-|[<-|[]]]; assumption. }
  destruct (expand_expected h paths _ Hex Hfc []) as [e [He _]].
  pose proof (expand_columns h paths facts val Hex Hfc e He) as Hce.
  assert (Hg : exists g, groupby_agg (name_col (name h)) fn e = Ok g).
  { assert (Hh : has_column (name_col (name h)) e = true).
    { apply has_column_In. rewrite Hce. now left. }
    unfold groupby_agg. rewrite Hh. eexists. reflexivity. }
  destruct Hg as [g Hg].
  pose proof (aggregate_columns h paths facts val agg fn e g Hex Hfc Hvn Hagg He Hg)
    as Hct.
  destruct (ex_def_columns _ _ Hex) as [Hdn _].
  assert (Hnt : In (name_col (name h)) (columns (rename_columns (rename1 val agg) g))).
  { rewrite Hct. now left. }
  destruct (merge_left_ok (name_col (name h)) "_x" "_y" (def_df h) _ Hdn Hnt)
    as [M1 HM1].
  destruct (first_merge h paths facts val agg fn e g M1 Hex Hfc Hvn Hagg He Hg HM1)
    as [Hc1 _].
  exists (set_def_df h (fillna (VStr "") M1)). cbn [set_def_df def_df].
  split; [exact (first_call h facts val agg fn e g M1 Hcols He Hg HM1)|].
  split; [exact Hc1|]. split.
  { apply (once_other_columns h paths facts val agg fn e g M1
                              Hex Hfc Hvn Hcomp Hagg He Hg HM1). }
  intros k Hk.
  rewrite (once_lookup h paths facts val agg fn e g M1
                       Hex Hfc Hvn Hcomp Hagg He Hg HM1 k).
  destruct (stored_path h k) as [p|] eqn:Hp; [|congruence].
  destruct (stored_path_level _ _ _ _ _ _ Hinit Hlev Hkp Hp)
    as [Hl [_ [[q [Hq _]] _]]].
  unfold level_of in Hl.
  destruct (lookup_row (name_col (name h)) k (def_df h)) as [l|]; [|discriminate].
  cbn [option_map]. f_equal.
  assert (Hnd : forall k p, stored_path h k = Some p -> NoDup (tl p))
    by apply (stored_path_NoDup df nm root h Hinit Hlev Hkp).
  assert (Hnn : isnull k = false).
  { rewrite Hsp in Hp.
    destruct (ex_paths_shape _ _ Hex _ _ Hp) as [_ Hall].
    rewrite Forall_forall in Hall. apply Hall. subst p.
    right. apply in_or_app. right. now left. }
  rewrite (grouped_cell h paths facts val Hex Hnd Hfc Hvn fn e g k He Hg Hnn).
  destruct (Nat.eqb (subtree_count h facts k) 0); [reflexivity|].
  f_equal. apply Hsym.
  apply (rollup_measures h paths facts val Hex Hnd Hfc Hvn e k He).
Qed.

Lemma aggregate_column_is_subtree_reduction_witness :
  add_to_def_df org_h pers (LStr "persnr") (LStr "n") agg_count = Ok org_h_n
  /\ option_map (get (LStr "n")) (lookup_row (LStr "oe") (VStr "12") (def_df org_h_n))
     = Some (VInt 4)
  /\ option_map (get (LStr "n")) (lookup_row (LStr "oe") (VStr "13") (def_df org_h_n))
     = Some (VStr "").
Proof.
  assert (Hinit : Hierarchy_init org "oe" (Some (VStr "0")) = Ok org_h)
    by (vm_compute; reflexivity).
  assert (Hne : "oe" <> "level") by discriminate.
  assert (Hv : LStr "persnr" <> name_col "oe") by discriminate.
  assert (Hfc : fact_columns_ok org_h (reindex [name_col "oe"; LStr "persnr"] pers)
                = true) by (vm_compute; reflexivity).
  assert (Ha : has_column (LStr "n") (def_df org_h) = false)
    by (vm_compute; reflexivity).
  assert (Hsym : forall l l', Permutation l l' -> agg_count l = agg_count l').
  { intros l l' Hp. unfold agg_count. do 2 f_equal.
    apply Permutation_length. now apply Permutation_filter'. }
  destruct (aggregate_column_is_subtree_reduction
              org "oe" (Some (VStr "0")) org_h pers (LStr "persnr") (LStr "n")
              agg_count
              Hinit eq_refl eq_refl (ex_intro _ "0" eq_refl) Hne
              (or_introl eq_refl) (or_intror (or_introl eq_refl)) Hv Hfc Ha Hsym)
    as [h1 [H1 [_ [_ Hk]]]].
  assert (E1 : h1 = org_h_n) by (unfold org_h_n; rewrite H1; reflexivity).
  subst h1. unfold name_col in Hk.
  split; [exact H1|]. split.
  - rewrite (Hk (VStr "12")).
    + vm_compute. reflexivity.
    + vm_compute. discriminate.
  - rewrite (Hk (VStr "13")).
    + vm_compute. reflexivity.
    + vm_compute. discriminate.
Defined.

(** X10. A call of [add_to_def_df] changes the node table only: name, root,
    paths and [aggs_df] stay as they were, and expanding any fact table
    against the object it leaves gives the frame it gave before the call,
    for every choice of requested columns that does not ask for the new
    column (or for its suffixed label). *)
Theorem aggregation_leaves_expansion_unchanged
        (df : DataFrame) (nm : string) (root : option value) (h : Hierarchy)
        (facts : DataFrame) (val agg : label) (fn : list value -> value)
        (facts' : DataFrame) (add_cols : list label) :
  Hierarchy_init df nm root = Ok h ->
  has_column LEVEL_COL df = false ->
  keys_present df nm = true ->
  (exists s, root_node h = VStr s) ->
  nm <> "level" ->
  In (name_col nm) (columns facts) ->
  In val (columns facts) ->
  val <> name_col nm ->
  fact_columns_ok h (reindex [name_col nm; val] facts) = true ->
  has_column agg (def_df h) = false ->
  fact_columns_ok h facts' = true ->
  forallb (fun c => negb (label_eqb c agg)
                    && negb (label_eqb c (add_suffix agg "_y"))) add_cols = true ->
  exists h1,
    add_to_def_df h facts val agg fn = Ok h1
    /\ expand h1 facts' add_cols = expand h facts' add_cols
    /\ name h1 = name h /\ root_node h1 = root_node h
    /\ paths_df h1 = paths_df h /\ aggs_df h1 = aggs_df h.
Proof.
  intros Hinit Hlev Hkp Hrs Hnm Hin Hval Hvn Hfc Hagg Hfc' Hadd.
  pose proof (init_name _ _ _ _ Hinit) as Hn.
  pose proof (init_complete _ _ _ _ Hinit) as Hcomp.
  destruct (init_expandable _ _ _ _ Hinit Hlev Hkp Hrs Hnm) as [paths [Hex Hsp]].
  rewrite <- Hn in Hfc, Hvn, Hin.
  apply mem_label_false in Hagg.
  assert (Hcols : forall c, In c [name_col (name h); val] -> In c (columns facts)).
  { intros c [<-|[<-|[]]]; assumption. }
  destruct (expand_expected h paths _ Hex Hfc []) as [e [He _]].
  pose proof (expand_columns h paths facts val Hex Hfc e He) as Hce.
  assert (Hg : exists g, groupby_agg (name_col (name h)) fn e = Ok g).
  { assert (Hh : has_column (name_col (name h)) e = true).
    { apply has_column_In. rewrite Hce. now left. }
    unfold groupby_agg. rewrite Hh. eexists. reflexivity. }
  destruct Hg as [g Hg].
  pose proof (aggregate_columns h paths facts val agg fn e g Hex Hfc Hvn Hagg He Hg)
    as Hct.
  destruct (ex_def_columns _ _ Hex) as [Hdn _].
  assert (Hnt : In (name_col (name h)) (columns (rename_columns (rename1 val agg) g))).
  { rewrite Hct. now left. }
  destruct (merge_left_ok (name_col (name h)) "_x" "_y" (def_df h) _ Hdn Hnt)
    as [M1 HM1].
  exists (set_def_df h (fillna (VStr "") M1)).
  split; [exact (first_call h facts val agg fn e g M1 Hcols He Hg HM1)|].
  split; [|repeat split].
  apply (expand_unchanged h paths facts val agg fn e g M1
                          Hex Hfc Hvn Hcomp Hagg He Hg HM1 facts' add_cols Hfc').
  intros c Hc. rewrite forallb_forall in Hadd. specialize (Hadd c Hc).
  apply andb_true_iff in Hadd. destruct Hadd as [H1 H2].
  apply negb_true_iff in H1, H2. split; now apply label_eqb_neq.
Qed.

Lemma aggregation_leaves_expansion_unchanged_witness :
  add_to_def_df org_h pers (LStr "persnr") (LStr "n") agg_count = Ok org_h_n
  /\ expand org_h_n pers [IX_COL; LEVEL_COL] = expand org_h pers [IX_COL; LEVEL_COL].
Proof.
  assert (Hinit : Hierarchy_init org "oe" (Some (VStr "0")) = Ok org_h)
    by (vm_compute; reflexivity).
  assert (Hne : "oe" <> "level") by discriminate.
  assert (Hv : LStr "persnr" <> name_col "oe") by discriminate.
  assert (Hfc : fact_columns_ok org_h (reindex [name_col "oe"; LStr "persnr"] pers)
                = true) by (vm_compute; reflexivity).
  assert (Ha : has_column (LStr "n") (def_df org_h) = false)
    by (vm_compute; reflexivity).
  assert (Hfc' : fact_columns_ok org_h pers = true) by (vm_compute; reflexivity).
  destruct (aggregation_leaves_expansion_unchanged
              org "oe" (Some (VStr "0")) org_h pers (LStr "persnr") (LStr "n")
              agg_count pers [IX_COL; LEVEL_COL]
              Hinit eq_refl eq_refl (ex_intro _ "0" eq_refl) Hne
              (or_introl eq_refl) (or_intror (or_introl eq_refl)) Hv Hfc Ha Hfc'
              eq_refl)
    as [h1 [H1 [H2 _]]].
  assert (E1 : h1 = org_h_n) by (unfold org_h_n; rewrite H1; reflexivity).
  subst h1. split; [exact H1|exact H2].
Defined.

(** ** A fact table without the node column *)

(** X11. A fact table that lacks the node column is refused by every
    method, but not with the same exception: [expand] raises the ValueError
    of its own guard, [add_to_def_df] raises KeyError (its column selection
    comes before the call of [expand]) and so does [wrap_in_def_df] (from
    the merge, or from dropping the level column of a node table that has
    none). *)
Theorem missing_node_column_is_refused
        (h : Hierarchy) (facts : DataFrame) (add_cols : list label)
        (val agg : label) (fn : list value -> value) (rename_spec : Z -> Z) :
  has_column (name_col (name h)) facts = false ->
  expand h facts add_cols = Raise ValueError
  /\ add_to_def_df h facts val agg fn = Raise KeyError
  /\ wrap_in_def_df h facts rename_spec = Raise KeyError.
Proof.
  intro H. split; [|split].
  - unfold expand. unfold has_column in H. now rewrite H.
  - unfold add_to_def_df, select. cbn [forallb]. now rewrite H.
  - unfold wrap_in_def_df, drop.
    destruct (has_column LEVEL_COL (def_df h)) eqn:El; [|reflexivity].
    cbn [bind]. unfold merge_left.
    match goal with
    | |- bind (if ?b then _ else _) _ = _ =>
        assert (Hb : b = false); [|now rewrite Hb]
    end.
    destruct (label_eqb (name_col (name h)) LEVEL_COL) eqn:En.
    + apply label_eqb_eq in En. rewrite En. apply andb_false_iff. right.
      apply mem_label_false. cbn [reindex columns]. intro Hin.
      apply filter_In in Hin. destruct Hin as [_ Hin].
      now rewrite label_eqb_refl in Hin.
    + apply andb_false_iff. left. apply mem_label_false.
      unfold with_column. cbn [columns]. intro Hin.
      apply (proj1 (mem_label_false _ _) H).
      destruct (has_column LEVEL_COL facts); [exact Hin|].
      apply in_app_or in Hin. destruct Hin as [Hin|[Hin|[]]]; [exact Hin|].
      rewrite <- Hin in En. now rewrite label_eqb_refl in En.
Qed.

Lemma missing_node_column_is_refused_witness :
  expand org_h (reindex [LStr "persnr"] pers) [] = Raise ValueError
  /\ add_to_def_df org_h (reindex [LStr "persnr"] pers) (LStr "persnr") (LStr "n")
                   agg_count = Raise KeyError
  /\ wrap_in_def_df org_h (reindex [LStr "persnr"] pers) (fun i => i) = Raise KeyError.
Proof.
  apply (missing_node_column_is_refused
           org_h (reindex [LStr "persnr"] pers) [] (LStr "persnr") (LStr "n")
           agg_count (fun i => i)).
  vm_compute. reflexivity.
Defined.

(** ** The rename specification of [wrap_in_def_df] *)

Lemma pd_concat_rename_index (f : Z -> Z) (a b : DataFrame) :
  pd_concat (rename_index f a) b = pd_concat a b.
Proof.
  unfold pd_concat, rename_index, data. cbn [columns rows].
  now rewrite map_map.
Qed.

(** X12. The rename specification has no effect on what [wrap_in_def_df]
    returns: [rename] is called without [columns=], so the mapping goes to
    the index labels of the node table, and the concatenation that follows
    renumbers the index. *)
Theorem wrap_ignores_rename_spec
        (h : Hierarchy) (facts : DataFrame) (spec1 spec2 : Z -> Z) :
  wrap_in_def_df h facts spec1 = wrap_in_def_df h facts spec2.
Proof.
  unfold wrap_in_def_df.
  destruct (drop LEVEL_COL (def_df h)) as [attrs|e]; [|reflexivity]. cbn [bind].
  destruct (merge_left _ _ _ _ attrs) as [widened|e]; [|reflexivity]. cbn [bind].
  now rewrite !pd_concat_rename_index.
Qed.

(** ** [from_structure] and the name of the hierarchy *)

(** X13. [from_structure] reads its error mask off the attribute
    [parent_dept] whatever the name of the hierarchy is.  For a name other
    than 'dept', on a table that has no column 'parent_dept', it never
    returns a hierarchy: once the parents are derived it raises
    AttributeError. *)
Theorem from_structure_never_returns_for_other_names
        (def_df0 : DataFrame) (nm : string) (sf : struc_spec)
        (root : option value) (delim : string) :
  nm <> "dept" ->
  has_column (LStr "parent_dept") def_df0 = false ->
  (forall res, from_structure def_df0 nm sf root delim <> Ok res)
  /\ (forall out, from_structure_parents def_df0 nm sf root delim = Ok out ->
                  from_structure def_df0 nm sf root delim = Raise AttributeError).
Proof.
  intros Hnm Hc. apply mem_label_false in Hc.
  assert (Hr : forall out, from_structure_parents def_df0 nm sf root delim = Ok out ->
                           from_structure def_df0 nm sf root delim
                           = Raise AttributeError).
  { intros out Ho.
    apply (from_structure_reads_parent_dept def_df0 nm sf root delim out Ho Hnm Hc). }
  split; [|exact Hr].
  intros res Hres.
  destruct (from_structure_parents def_df0 nm sf root delim) as [out|e] eqn:Ho.
  - rewrite (Hr out eq_refl) in Hres. discriminate.
  - unfold from_structure in Hres. rewrite Ho in Hres. discriminate.
Qed.

Lemma from_structure_never_returns_for_other_names_witness :
  from_structure src_oe "oe" (OneField "labels") (Some (VStr "0")) "|"
  = Raise AttributeError.
Proof.
  assert (Hne : "oe" <> "dept") by discriminate.
  destruct (from_structure_never_returns_for_other_names
              src_oe "oe" (OneField "labels") (Some (VStr "0")) "|" Hne eq_refl)
    as [_ Hr].
  apply (Hr (from_ok no_frame
               (from_structure_parents src_oe "oe" (OneField "labels")
                                       (Some (VStr "0")) "|"))).
  vm_compute. reflexivity.
Defined.

(** ** Label columns: joining and stripping *)

Lemma join_strings (delim : string) (xs : list string) :
  join delim (map VStr xs) = Ok (String.concat delim xs).
Proof.
  induction xs as [|x xs IH]; [reflexivity|].
  destruct xs as [|y xs]; [reflexivity|].
  cbn [map] in IH |- *.
  change (join delim (VStr x :: VStr y :: map VStr xs))
    with (bind (join delim (VStr y :: map VStr xs))
               (fun rest => Ok (x ++ delim ++ rest)%string)).
  rewrite IH. reflexivity.
Qed.

Lemma string_app_assoc (a b c : string) :
  ((a ++ b) ++ c)%string = (a ++ b ++ c)%string.
Proof. induction a as [|x a IH]; simpl; [reflexivity|now rewrite IH]. Qed.

Lemma concat_snoc (delim : string) (ls : list string) (x l : string) :
  String.concat delim ((x :: ls) ++ [l])
  = (String.concat delim (x :: ls) ++ delim ++ l)%string.
Proof.
  revert x. induction ls as [|y ls IH]; intro x; [reflexivity|].
  change (String.concat delim ((x :: y :: ls) ++ [l]))
    with (x ++ delim ++ String.concat delim ((y :: ls) ++ [l]))%string.
  rewrite IH.
  change (String.concat delim (x :: y :: ls))
    with (x ++ delim ++ String.concat delim (y :: ls))%string.
  now rewrite !string_app_assoc.
Qed.

Lemma rfind_from_no_char (d : ascii) (b : string) (off : nat) :
  has_char d b = false -> rfind_from (String d "") b off = None.
Proof.
  revert off. induction b as [|c b IH]; intros off H; [reflexivity|].
  cbn [has_char] in H. apply orb_false_iff in H. destruct H as [Hc Hb].
  cbn [rfind_from]. rewrite (IH (S off) Hb). cbn [String.prefix].
  destruct (ascii_dec d c) as [E|_]; [|reflexivity].
  subst c. now rewrite Ascii.eqb_refl in Hc.
Qed.

Lemma rfind_from_last (d : ascii) (a b : string) (off : nat) :
  has_char d b = false ->
  rfind_from (String d "") (a ++ String d b) off = Some (off + String.length a).
Proof.
  intro Hb. revert off. induction a as [|c a IH]; intro off.
  - cbn [append rfind_from]. rewrite (rfind_from_no_char d b (S off) Hb).
    simpl. destruct (ascii_dec d d) as [_|N]; [|contradiction].
    rewrite Nat.add_0_r. destruct b; reflexivity.
  - cbn [append rfind_from]. rewrite (IH (S off)). f_equal.
    cbn [String.length]. lia.
Qed.

Lemma substring_app_left (a x : string) :
  substring 0 (String.length a) (a ++ x) = a.
Proof.
  induction a as [|c a IH].
  - destruct x; reflexivity.
  - cbn [String.length append substring]. now rewrite IH.
Qed.

(** X14. Labels given in separate columns are joined with the delimiter,
    and the parent string is what [strip_from_right] cuts off that join.
    When the delimiter is one character that the last label does not
    hold, the parent string of the joined labels is the join of the labels
    without the last one, and 'root' when there is one label only. *)
Theorem parent_of_joined_labels
        (d : ascii) (ls : list string) (l : string) (c : label) :
  has_char d l = false ->
  join (String d "") (map VStr (ls ++ [l]))
  = Ok (String.concat (String d "") (ls ++ [l]))
  /\ strip_from_right c (String d "")
                      [(c, VStr (String.concat (String d "") (ls ++ [l])))]
     = Ok (VStr (match ls with
                 | [] => "root"
                 | _ => String.concat (String d "") ls
                 end)).
Proof.
  intro Hl. split; [apply join_strings|].
  unfold strip_from_right. cbn [get]. rewrite label_eqb_refl. unfold rfind.
  destruct ls as [|x ls].
  - cbn [app String.concat]. now rewrite (rfind_from_no_char d l 0 Hl).
  - rewrite concat_snoc. cbn [append].
    change (String.concat (String d "") (x :: ls) ++ String d l)%string
      with (String.concat (String d "") (x :: ls) ++ String d l)%string.
    rewrite (rfind_from_last d _ l 0 Hl). cbn [Nat.add].
    now rewrite substring_app_left.
Qed.

Lemma parent_of_joined_labels_witness :
  strip_from_right (LStr "struc") "|"
                   [(LStr "struc", VStr "RvB|Sales & Marketing|Marketing")]
  = Ok (VStr "RvB|Sales & Marketing").
Proof.
  destruct (parent_of_joined_labels "|"%char ["RvB"; "Sales & Marketing"]
                                    "Marketing" (LStr "struc") eq_refl)
    as [_ H].
  exact H.
Defined.

(** ** When construction succeeds *)

Section WalkBackComplete.
Variables (G : DiGraph) (s : value).
Hypothesis Hpred : forall v u u', In u (pred G v) -> In u' (pred G v) -> u = u'.
Hypothesis Hnodes : forall a b, In (a, b) (edges G) -> In a (nodes G) /\ In b (nodes G).

Let E (a b : value) : Prop := In (a, b) (edges G).

Lemma first_pred (u v : value) : E u v -> exists us, pred G v = u :: us.
Proof.
  intro He. apply pred_edges in He.
  destruct (pred G v) as [|u' us] eqn:Hp; [destruct He|].
  exists us. f_equal. apply (Hpred v); rewrite Hp; [now left|exact He].
Qed.

(** Some amount of fuel takes the backward walk to the source. *)
Lemma walk_back_reaches (t : value) :
  reachable E s t -> exists fuel p, walk_back G s fuel t [] = Some p.
Proof.
  induction 1 as [v He|w v Hr IH He].
  - destruct (value_eqb v s) eqn:Ev.
    + exists 0, [v]. cbn [walk_back]. now rewrite Ev.
    + destruct (first_pred s v He) as [us Hp].
      exists 1, [s; v]. cbn [walk_back]. rewrite Ev, Hp.
      now rewrite value_eqb_refl.
  - destruct (value_eqb v s) eqn:Ev.
    + exists 0, [v]. cbn [walk_back]. now rewrite Ev.
    + destruct IH as [fuel [p Hp]].
      destruct (walk_back_acc _ _ _ _ _ _ Hp) as [C [_ Hall]].
      destruct (first_pred w v He) as [us Hpr].
      exists (S fuel), (C ++ [v]). cbn [walk_back]. rewrite Ev, Hpr.
      apply Hall.
Qed.

(** The walk never returns a node twice. *)
Lemma walk_back_NoDup (fuel : nat) (v : value) (p : list value) :
  walk_back G s fuel v [] = Some p -> NoDup p.
Proof.
  intro H. apply split_determines_NoDup.
  intros q1 a q2 q1' q2' E1 E2.
  pose proof H as H'. rewrite E1 in H. rewrite E2 in H'.
  apply walk_back_prefix in H. apply walk_back_prefix in H'.
  rewrite H in H'. inversion H' as [Eq]. now apply app_inj_tail in Eq.
Qed.

Lemma walk_in_nodes (p : list value) :
  walk E p -> 2 <= length p -> forall a, In a p -> In a (nodes G).
Proof.
  induction 1 as [v|u v p Huv Hw IH]; intros Hlen a Ha.
  - simpl in Hlen. lia.
  - destruct (Hnodes u v Huv) as [Hu Hv].
    destruct Ha as [<-|Ha]; [exact Hu|].
    destruct p as [|x p].
    + destruct Ha as [<-|[]]. exact Hv.
    + apply IH; [simpl; lia|exact Ha].
Qed.

(** The fuel that a returned walk used is its number of edges. *)
Lemma walk_back_fuel (fuel : nat) :
  forall v acc p,
    walk_back G s fuel v acc = Some p ->
    walk_back G s (length p - length acc - 1) v acc = Some p.
Proof.
  induction fuel as [|fuel IH]; intros v acc p H.
  - cbn [walk_back] in H. destruct (value_eqb v s) eqn:Ev; [|discriminate].
    inversion H. subst p. cbn [length].
    replace (S (length acc) - length acc - 1) with 0 by lia.
    cbn [walk_back]. now rewrite Ev.
  - cbn [walk_back] in H. destruct (value_eqb v s) eqn:Ev.
    + inversion H. subst p. cbn [length].
      replace (S (length acc) - length acc - 1) with 0 by lia.
      cbn [walk_back]. now rewrite Ev.
    + destruct (pred G v) as [|u us] eqn:Hp; [discriminate|].
      pose proof (IH u (v :: acc) p H) as Hf.
      destruct (walk_back_sound _ _ _ _ _ _ H) as [pre [Hpp _]].
      assert (Hlen : length p = S (length pre) + S (length acc)).
      { rewrite Hpp. rewrite length_app. reflexivity. }
      cbn [length] in Hf.
      replace (length p - length acc - 1) with (S (length p - S (length acc) - 1))
        by lia.
      cbn [walk_back]. rewrite Ev, Hp. exact Hf.
Qed.

Lemma walk_back_fuel_le (fuel fuel' : nat) (v : value) (acc p : list value) :
  fuel <= fuel' ->
  walk_back G s fuel v acc = Some p -> walk_back G s fuel' v acc = Some p.
Proof.
  induction 1 as [|m Hle IH]; intro H; [exact H|].
  apply walk_back_more_fuel. now apply IH.
Qed.

(** With as much fuel as the graph has nodes, the walk from a node that can
    be reached from the source returns. *)
Lemma walk_back_complete (t : value) :
  reachable E s t ->
  exists p, walk_back G s (length (nodes G)) t [] = Some p.
Proof.
  intro Hr. destruct (walk_back_reaches t Hr) as [fuel [p Hp]].
  exists p. pose proof (walk_back_fuel fuel t [] p Hp) as Hf.
  cbn [length] in Hf. rewrite Nat.sub_0_r in Hf.
  apply (walk_back_fuel_le (length p - 1)); [|exact Hf].
  destruct (walk_back_sound _ _ _ _ _ _ Hp) as [pre [Hpp [_ [_ Hw]]]].
  rewrite app_nil_r in Hpp.
  destruct pre as [|x pre].
  - subst p. simpl. lia.
  - assert (Hincl : incl p (nodes G)).
    { intros a Ha. apply (walk_in_nodes p); [now rewrite Hpp| |exact Ha].
      rewrite Hpp. simpl. lia. }
    pose proof (NoDup_incl_length (walk_back_NoDup fuel t p Hp) Hincl). lia.
Qed.
End WalkBackComplete.

Lemma reachable_impl (E E' : value -> value -> Prop) (u v : value) :
  (forall a b, E a b -> E' a b) -> reachable E u v -> reachable E' u v.
Proof.
  intro H. induction 1 as [v He|w v Hr IH He].
  - apply reach_edge. now apply H.
  - apply (reach_step E' u w v IH). now apply H.
Qed.

Lemma reachable_leaves_source (E : value -> value -> Prop) (u v : value) :
  reachable E u v -> exists x, E u x.
Proof. induction 1 as [v He|w v Hr IH He]; eauto. Qed.

Lemma get_paths_loop_succeeds (G : DiGraph) (root : value) (todo : list value) :
  (forall k, In k todo -> k <> root -> exists p, shortest_path G root k = Ok p) ->
  forall paths levels,
    exists res, get_paths_loop G root todo paths levels = Ok res.
Proof.
  induction todo as [|node todo IH]; intros H paths levels.
  - eexists. reflexivity.
  - cbn [get_paths_loop]. destruct (value_eqb node root) eqn:En; cbn [negb].
    + apply IH. intros k Hk. apply H. now right.
    + destruct (H node (or_introl eq_refl)) as [p Hp].
      { now apply value_eqb_neq. }
      rewrite Hp. cbn [bind]. apply IH. intros k Hk. apply H. now right.
Qed.

(** On a table in which every parent is the root or can be reached from
    it, every node gets its path. *)
Lemma _get_paths_succeeds (df : DataFrame) (nm : string) (r : value) :
  In (name_col nm) (columns df) ->
  In (parent_col nm) (columns df) ->
  has_duplicates (column (name_col nm) df) = false ->
  (forall u v, edge df nm u v -> u = r \/ reachable (edge df nm) r u) ->
  exists pl, _get_paths (add_ix df) nm r = Ok pl.
Proof.
  intros Hn Hp Hd Htree. unfold _get_paths.
  set (G := from_pandas_edgelist (add_ix df) (parent_col nm) (name_col nm)).
  assert (HE : forall a b, In (a, b) (edges G) <-> edge df nm a b).
  { intros a b. unfold G. rewrite edge_edges. now apply edge_add_ix. }
  assert (HN : forall v, In v (nodes G) <-> exists u, edge df nm u v \/ edge df nm v u).
  { intro v. unfold G. rewrite nodes_from_pandas_edgelist.
    split; intros [u Hu]; exists u; rewrite !edge_add_ix in *; auto. }
  apply get_paths_loop_succeeds. intros k Hk Hne.
  assert (Hr : reachable (edge df nm) r k).
  { apply HN in Hk. destruct Hk as [u [He|He]].
    - destruct (Htree u k He) as [->|Hu].
      + now apply reach_edge.
      + now apply (reach_step _ r u k Hu).
    - destruct (Htree k u He) as [E|Hu]; [contradiction|exact Hu]. }
  assert (Hroot : In r (nodes G)).
  { destruct (reachable_leaves_source _ _ _ Hr) as [x Hx].
    apply HN. exists x. now right. }
  unfold shortest_path.
  rewrite (proj2 (mem_value_In r (nodes G)) Hroot).
  rewrite (proj2 (mem_value_In k (nodes G)) Hk). cbn [andb].
  destruct (walk_back_complete G r) with (t := k) as [p Hw].
  - intros v u u' Hu Hu'. apply pred_edges in Hu, Hu'. apply HE in Hu, Hu'.
    apply (unique_parent df nm u u' v Hd Hu Hu').
  - intros a b Hab. apply HE in Hab. split; apply HN.
    + exists b. now right.
    + exists a. now left.
  - apply (reachable_impl (edge df nm)); [|exact Hr].
    intros a b Hab. now apply HE.
  - rewrite Hw. eexists. reflexivity.
Qed.

(** X15. Construction succeeds on every tree: when the table has the two
    columns, no node key twice, and every parent it names is the root or
    hangs under the root, [Hierarchy(def_df, name, root)] returns an object
    (the search for a path comes back for every node, with the fuel the
    model gives it). *)
Theorem init_succeeds_on_a_tree (df : DataFrame) (nm : string) (r : value) :
  has_column (name_col nm) df = true ->
  has_column (parent_col nm) df = true ->
  has_duplicates (column (name_col nm) df) = false ->
  (forall u v, edge df nm u v -> u = r \/ reachable (edge df nm) r u) ->
  exists h, Hierarchy_init df nm (Some r) = Ok h
            /\ name h = nm /\ root_node h = r.
Proof.
  intros Hn Hp Hd Htree.
  pose proof (proj1 (has_column_In _ _) Hn) as Hn'.
  pose proof (proj1 (has_column_In _ _) Hp) as Hp'.
  destruct (_get_paths_succeeds df nm r Hn' Hp' Hd Htree) as [pl Hpl].
  assert (Hn1 : In (name_col nm) (columns (add_ix df)))
    by (apply columns_add_ix; now left).
  assert (Hn2 : In (name_col nm) (columns (make_levels_df nm (snd pl))))
    by now left.
  destruct (merge_left_ok (name_col nm) "_x" "_y" (add_ix df)
                          (make_levels_df nm (snd pl)) Hn1 Hn2) as [merged Hm].
  unfold Hierarchy_init. cbn [bind]. unfold select. cbn [forallb].
  rewrite has_column_add_ix, Hn. cbn [orb andb bind].
  rewrite Hp, Hd. cbn [negb]. rewrite Hpl. cbn [bind]. rewrite Hm. cbn [bind].
  eexists. split; [reflexivity|]. split; reflexivity.
Qed.

Lemma init_succeeds_on_a_tree_witness :
  exists h, Hierarchy_init org_small "oe" (Some (VStr "0")) = Ok h
            /\ name h = "oe" /\ root_node h = VStr "0".
Proof.
  apply (init_succeeds_on_a_tree org_small "oe" (VStr "0")); try reflexivity.
  intros u v [row [Hin [Hu Hv]]].
  vm_compute in Hin. destruct Hin as [<-|[<-|[<-|[]]]]; vm_compute in Hu; subst u.
  - now left.
  - right. apply reach_edge.
    exists [(LStr "oe", VStr "1"); (LStr "parent_oe", VStr "0")].
    split; [vm_compute; tauto|]. split; reflexivity.
  - now left.
Defined.

(** ** Fact rows on the root *)



(** ** The level that [expand] writes *)

Lemma In_combine_seq {A : Type} (l : list A) :
  forall (s n : nat) (j : nat) (a : A),
    In (j, a) (combine (seq s n) l) ->
    exists l1 l2, l = l1 ++ a :: l2 /\ j = s + length l1.
Proof.
  induction l as [|x l IH]; intros s n j a Hin.
  - destruct n; destruct Hin.
  - destruct n as [|n]; [destruct Hin|]. cbn [seq combine] in Hin.
    destruct Hin as [E|Hin].
    + inversion E. subst. exists [], l. split; [reflexivity|]. simpl. lia.
    + destruct (IH (S s) n j a Hin) as [l1 [l2 [-> ->]]].
      exists (x :: l1), l2. split; [reflexivity|]. simpl. lia.
Qed.

(** The level numbered for an ancestor on the path of a node is the level
    of that ancestor in the node table. *)
Lemma ancestor_level_is_node_level
      (df : DataFrame) (nm : string) (root : option value) (h : Hierarchy)
      (k a : value) (j : nat) :
  Hierarchy_init df nm root = Ok h ->
  has_column LEVEL_COL df = false ->
  keys_present df nm = true ->
  In (j, a) (ancestor_levels h k) ->
  level_of h a = Some (VInt (Z.of_nat j)).
Proof.
  intros Hinit Hlev Hkp Hin. unfold ancestor_levels in Hin.
  destruct (stored_path h k) as [p|] eqn:Hp; [|destruct Hin].
  destruct (stored_path_level _ _ _ _ _ _ Hinit Hlev Hkp Hp)
    as [_ [_ [[q [Hq _]] _]]].
  subst p. cbn [tl] in Hin.
  destruct (In_combine_seq _ _ _ _ _ Hin) as [l1 [l2 [El Ej]]].
  rewrite El in Hp.
  pose proof (stored_path_prefix df nm root h Hinit Hlev Hkp k l1 l2 a Hp) as Ha.
  destruct (stored_path_level _ _ _ _ _ _ Hinit Hlev Hkp Ha) as [Hl _].
  rewrite Hl. unfold path_level. do 2 f_equal. cbn [length].
  rewrite length_app. cbn [length]. lia.
Qed.



(** ** Aggregates under different names *)

(** One call, for any object that can be expanded and whose node table has
    no missing cell. *)
Lemma aggregate_once
      (h : Hierarchy) (paths : dict (list value)) (facts : DataFrame)
      (val agg : label) (fn : list value -> value) :
  expandable h paths ->
  complete (def_df h) = true ->
  (forall k p, stored_path h k = Some p -> NoDup (tl p)) ->
  In (name_col (name h)) (columns facts) ->
  In val (columns facts) ->
  val <> name_col (name h) ->
  fact_columns_ok h (reindex [name_col (name h); val] facts) = true ->
  ~ In agg (columns (def_df h)) ->
  (forall l l', Permutation l l' -> fn l = fn l') ->
  exists D1,
    add_to_def_df h facts val agg fn = Ok (set_def_df h D1)
    /\ columns D1 = columns (def_df h) ++ [agg]
    /\ expandable (set_def_df h D1) paths
    /\ complete D1 = true
    /\ (forall k c, In c (columns (def_df h)) ->
                    option_map (get c) (lookup_row (name_col (name h)) k D1)
                    = option_map (get c) (lookup_row (name_col (name h)) k (def_df h)))
    /\ (forall k, isnull k = false ->
          option_map (get agg) (lookup_row (name_col (name h)) k D1)
          = option_map
              (fun _ => if Nat.eqb (subtree_count h facts k) 0 then VStr ""
                        else fill_cell (VStr "")
                               (fn (map (get val)
                                        (filter (fun f => in_subtree h k
                                                            (get (name_col (name h)) f))
                                                (data facts)))))
              (lookup_row (name_col (name h)) k (def_df h))).
Proof.
  intros Hex Hcomp Hnd Hin Hval Hvn Hfc Hagg Hsym.
  assert (Hcols : forall c, In c [name_col (name h); val] -> In c (columns facts)).
  { intros c [<-|[<-|[]]]; assumption. }
  destruct (expand_expected h paths _ Hex Hfc []) as [e [He _]].
  pose proof (expand_columns h paths facts val Hex Hfc e He) as Hce.
  assert (Hg : exists g, groupby_agg (name_col (name h)) fn e = Ok g).
  { assert (Hh : has_column (name_col (name h)) e = true).
    { apply has_column_In. rewrite Hce. now left. }
    unfold groupby_agg. rewrite Hh. eexists. reflexivity. }
  destruct Hg as [g Hg].
  pose proof (aggregate_columns h paths facts val agg fn e g Hex Hfc Hvn Hagg He Hg)
    as Hct.
  destruct (ex_def_columns _ _ Hex) as [Hdn _].
  assert (Hnt : In (name_col (name h)) (columns (rename_columns (rename1 val agg) g))).
  { rewrite Hct. now left. }
  destruct (merge_left_ok (name_col (name h)) "_x" "_y" (def_df h) _ Hdn Hnt)
    as [M1 HM1].
  destruct (first_merge h paths facts val agg fn e g M1 Hex Hfc Hvn Hagg He Hg HM1)
    as [Hc1 _].
  exists (fillna (VStr "") M1).
  split; [exact (first_call h facts val agg fn e g M1 Hcols He Hg HM1)|].
  split; [exact Hc1|].
  split; [exact (once_expandable h paths facts val agg fn e g M1
                                 Hex Hfc Hvn Hcomp Hagg He Hg HM1)|].
  split; [now apply complete_fillna|].
  split.
  { intros k c Hc.
    apply (once_lookup_other h paths facts val agg fn e g M1
                             Hex Hfc Hvn Hcomp Hagg He Hg HM1 k c Hc). }
  intros k Hk.
  rewrite (once_lookup h paths facts val agg fn e g M1
                       Hex Hfc Hvn Hcomp Hagg He Hg HM1 k).
  destruct (lookup_row (name_col (name h)) k (def_df h)) as [l|]; [|reflexivity].
  cbn [option_map]. f_equal.
  rewrite (grouped_cell h paths facts val Hex Hnd Hfc Hvn fn e g k He Hg Hk).
  destruct (Nat.eqb (subtree_count h facts k) 0); [reflexivity|].
  f_equal. apply Hsym.
  apply (rollup_measures h paths facts val Hex Hnd Hfc Hvn e k He).
Qed.

(** X18. Aggregates under different output names accumulate.  Two calls of
    [add_to_def_df], each with its own fact table, measure, reducer (one
    that does not look at the order of its input) and output column, the
    two output columns being different and new to the node table: both
    calls succeed, the node table ends with the two output columns, and in
    the row of a tree node each of them holds its reducer over the measures
    of its fact rows in the subtree of the node, blank when there is none.
    The second call leaves the result of the first untouched. *)
Theorem aggregates_under_different_names_accumulate
        (df : DataFrame) (nm : string) (root : option value) (h : Hierarchy)
        (facts1 : DataFrame) (val1 agg1 : label) (fn1 : list value -> value)
        (facts2 : DataFrame) (val2 agg2 : label) (fn2 : list value -> value) :
  Hierarchy_init df nm root = Ok h ->
  has_column LEVEL_COL df = false ->
  keys_present df nm = true ->
  (exists s, root_node h = VStr s) ->
  nm <> "level" ->
  In (name_col nm) (columns facts1) -> In val1 (columns facts1) ->
  val1 <> name_col nm ->
  fact_columns_ok h (reindex [name_col nm; val1] facts1) = true ->
  In (name_col nm) (columns facts2) -> In val2 (columns facts2) ->
  val2 <> name_col nm ->
  fact_columns_ok h (reindex [name_col nm; val2] facts2) = true ->
  has_column agg1 (def_df h) = false ->
  has_column agg2 (def_df h) = false ->
  agg1 <> agg2 ->
  (forall l l', Permutation l l' -> fn1 l = fn1 l') ->
  (forall l l', Permutation l l' -> fn2 l = fn2 l') ->
  exists h1 h2,
    add_to_def_df h facts1 val1 agg1 fn1 = Ok h1
    /\ add_to_def_df h1 facts2 val2 agg2 fn2 = Ok h2
    /\ columns (def_df h2) = columns (def_df h) ++ [agg1; agg2]
    /\ forall k, stored_path h k <> None ->
         option_map (get agg1) (lookup_row (name_col nm) k (def_df h2))
         = Some (if Nat.eqb (subtree_count h facts1 k) 0 then VStr ""
                 else fill_cell (VStr "")
                        (fn1 (map (get val1)
                                  (filter (fun f => in_subtree h k (get (name_col nm) f))
                                          (data facts1)))))
         /\ option_map (get agg2) (lookup_row (name_col nm) k (def_df h2))
            = Some (if Nat.eqb (subtree_count h facts2 k) 0 then VStr ""
                    else fill_cell (VStr "")
                           (fn2 (map (get val2)
                                     (filter (fun f => in_subtree h k (get (name_col nm) f))
                                             (data facts2))))).
Proof.
  intros Hinit Hlev Hkp Hrs Hnm Hin1 Hval1 Hvn1 Hfc1 Hin2 Hval2 Hvn2 Hfc2
         Hagg1 Hagg2 Hne Hsym1 Hsym2.
  pose proof (init_name _ _ _ _ Hinit) as Hn.
  pose proof (init_complete _ _ _ _ Hinit) as Hcomp.
  destruct (init_expandable _ _ _ _ Hinit Hlev Hkp Hrs Hnm) as [paths [Hex Hsp]].
  assert (Hnd : forall k p, stored_path h k = Some p -> NoDup (tl p))
    by apply (stored_path_NoDup df nm root h Hinit Hlev Hkp).
  rewrite <- Hn in Hin1, Hvn1, Hfc1, Hin2, Hvn2, Hfc2 |- *.
  apply mem_label_false in Hagg1, Hagg2.
  destruct (aggregate_once h paths facts1 val1 agg1 fn1
                           Hex Hcomp Hnd Hin1 Hval1 Hvn1 Hfc1 Hagg1 Hsym1)
    as [D1 [Hcall1 [Hc1 [Hex1 [Hcomp1 [Hother1 Hcell1]]]]]].
  assert (Hagg2' : ~ In agg2 (columns (def_df (set_def_df h D1)))).
  { cbn [set_def_df def_df]. rewrite Hc1. intro Hi. apply in_app_or in Hi.
    destruct Hi as [Hi|[Hi|[]]]; [now apply Hagg2|now apply Hne]. }
  destruct (aggregate_once (set_def_df h D1) paths facts2 val2 agg2 fn2
                           Hex1 Hcomp1 Hnd Hin2 Hval2 Hvn2 Hfc2 Hagg2' Hsym2)
    as [D2 [Hcall2 [Hc2 [_ [_ [Hother2 Hcell2]]]]]].
  cbn [set_def_df def_df name] in Hc2, Hother2, Hcell2.
  exists (set_def_df h D1), (set_def_df (set_def_df h D1) D2).
  split; [exact Hcall1|]. split; [exact Hcall2|].
  cbn [set_def_df def_df]. split.
  { rewrite Hc2, Hc1, <- app_assoc. reflexivity. }
  intros k Hk.
  destruct (stored_path h k) as [p|] eqn:Hp; [|congruence].
  destruct (stored_path_level _ _ _ _ _ _ Hinit Hlev Hkp Hp)
    as [Hl [_ [[q [Hq _]] _]]].
  assert (Hnn : isnull k = false).
  { rewrite Hsp in Hp.
    destruct (ex_paths_shape _ _ Hex _ _ Hp) as [_ Hall].
    rewrite Forall_forall in Hall. apply Hall. subst p.
    right. apply in_or_app. right. now left. }
  unfold level_of in Hl.
  destruct (lookup_row (name_col (name h)) k (def_df h)) as [l|] eqn:El;
    [|discriminate].
  pose proof (Hcell1 k Hnn) as H1. rewrite El in H1. cbn [option_map] in H1.
  split.
  - rewrite (Hother2 k agg1); [exact H1|].
    rewrite Hc1. apply in_or_app. right. now left.
  - rewrite (Hcell2 k Hnn).
    destruct (lookup_row (name_col (name h)) k D1) as [l1|]; [reflexivity|].
    discriminate H1.
Qed.

Lemma aggregates_under_different_names_accumulate_witness :
  exists h1 h2,
    add_to_def_df org_h pers (LStr "persnr") (LStr "n") agg_count = Ok h1
    /\ add_to_def_df h1 sales (LStr "amount") (LStr "total") agg_sum = Ok h2
    /\ option_map (get (LStr "n")) (lookup_row (LStr "oe") (VStr "12") (def_df h2))
       = Some (VInt 4)
    /\ option_map (get (LStr "total")) (lookup_row (LStr "oe") (VStr "12") (def_df h2))
       = Some (VInt 16).
Proof.
  assert (Hinit : Hierarchy_init org "oe" (Some (VStr "0")) = Ok org_h)
    by (vm_compute; reflexivity).
  assert (Hne : "oe" <> "level") by discriminate.
  assert (Hv1 : LStr "persnr" <> name_col "oe") by discriminate.
  assert (Hv2 : LStr "amount" <> name_col "oe") by discriminate.
  assert (Hfc1 : fact_columns_ok org_h (reindex [name_col "oe"; LStr "persnr"] pers)
                 = true) by (vm_compute; reflexivity).
  assert (Hfc2 : fact_columns_ok org_h (reindex [name_col "oe"; LStr "amount"] sales)
                 = true) by (vm_compute; reflexivity).
  assert (Ha1 : has_column (LStr "n") (def_df org_h) = false)
    by (vm_compute; reflexivity).
  assert (Ha2 : has_column (LStr "total") (def_df org_h) = false)
    by (vm_compute; reflexivity).
  assert (Hd : LStr "n" <> LStr "total") by discriminate.
  assert (Hsym : forall l l', Permutation l l' -> agg_count l = agg_count l').
  { intros l l' Hp. unfold agg_count. do 2 f_equal.
    apply Permutation_length. now apply Permutation_filter'. }
  destruct (aggregates_under_different_names_accumulate
              org "oe" (Some (VStr "0")) org_h
              pers (LStr "persnr") (LStr "n") agg_count
              sales (LStr "amount") (LStr "total") agg_sum
              Hinit eq_refl eq_refl (ex_intro _ "0" eq_refl) Hne
              (or_introl eq_refl) (or_intror (or_introl eq_refl)) Hv1 Hfc1
              (or_introl eq_refl) (or_intror (or_introl eq_refl)) Hv2 Hfc2
              Ha1 Ha2 Hd Hsym agg_sum_perm)
    as [h1 [h2 [H1 [H2 [_ Hk]]]]].
  exists h1, h2. split; [exact H1|]. split; [exact H2|].
  assert (Hp : stored_path org_h (VStr "12") <> None) by (vm_compute; discriminate).
  destruct (Hk (VStr "12") Hp) as [Hn Ht]. unfold name_col in Hn, Ht.
  split.
  - rewrite Hn. vm_compute. reflexivity.
  - rewrite Ht. vm_compute. reflexivity.
Defined.

(** ** The subtree of a node and the subtrees of its children *)

Lemma walk_consecutive (E : value -> value -> Prop) (l1 : list value) (a b : value)
      (l2 : list value) :
  walk E (l1 ++ a :: b :: l2) -> E a b.
Proof.
  induction l1 as [|x l1 IH]; cbn [app]; intro H.
  - now inversion H.
  - inversion H as [|u v p Huv Hw [Eu Ep]].
    + destruct l1; discriminate.
    + apply IH. now rewrite <- Ep.
Qed.

Lemma filtered_keys_NoDup {A : Type} (key : A -> value) (keep : A -> bool)
      (rows : list A) :
  NoDup (map key rows) -> NoDup (map key (filter keep rows)).
Proof.
  intro Hkeys. induction rows as [|r rows IH]; cbn [map filter]; [constructor|].
  cbn [map] in Hkeys. apply NoDup_cons_iff in Hkeys. destruct Hkeys as [Hni Hnd].
  destruct (keep r); [|now apply IH].
  cbn [map]. apply NoDup_cons; [|now apply IH].
  intro Hin. apply Hni. apply in_map_iff in Hin. destruct Hin as [y [Ey Hy]].
  apply filter_In in Hy. apply in_map_iff. exists y. tauto.
Qed.

Lemma count_one {A : Type} (P : A -> bool) (L : list A) (v : A) :
  NoDup L -> In v L -> P v = true ->
  (forall x, In x L -> P x = true -> x = v) ->
  length (filter P L) = 1.
Proof.
  induction 1 as [|a L Hni Hnd IH]; intros Hin Hv Huniq; [destruct Hin|].
  cbn [filter]. destruct Hin as [->|Hin].
  - rewrite Hv. cbn [length]. f_equal.
    rewrite (filter_none P L); [reflexivity|].
    intros x Hx. destruct (P x) eqn:Ex; [|reflexivity].
    exfalso. apply Hni. rewrite <- (Huniq x (or_intror Hx) Ex). exact Hx.
  - destruct (P a) eqn:Ea.
    + exfalso. apply Hni. rewrite (Huniq a (or_introl eq_refl) Ea). exact Hin.
    + apply IH; [exact Hin|exact Hv|].
      intros x Hx. apply Huniq. now right.
Qed.

Lemma list_sum_add {A : Type} (f g : A -> nat) (l : list A) :
  list_sum (map (fun a => f a + g a) l) = list_sum (map f l) + list_sum (map g l).
Proof. induction l as [|a l IH]; simpl; [reflexivity|]. rewrite IH. lia. Qed.

Lemma list_sum_swap {A B : Type} (P : A -> B -> bool) (L : list A) (F : list B) :
  list_sum (map (fun f => length (filter (fun v => P v f) L)) F)
  = list_sum (map (fun v => length (filter (fun f => P v f) F)) L).
Proof.
  induction L as [|x L IH]; cbn [filter map list_sum length].
  - induction F as [|f F IHF]; simpl; [reflexivity|exact IHF].
  - transitivity
      (list_sum (map (fun f => (if P x f then 1 else 0)
                               + length (filter (fun v => P v f) L)) F)).
    + f_equal. apply map_ext. intro f. destruct (P x f); reflexivity.
    + rewrite list_sum_add, list_sum_indicator, IH. reflexivity.
Qed.

Section Recursion.
Variables (df : DataFrame) (nm : string) (root : option value) (h : Hierarchy).
Hypothesis Hinit : Hierarchy_init df nm root = Ok h.
Hypothesis Hlev : has_column LEVEL_COL df = false.
Hypothesis Hkp : keys_present df nm = true.
Hypothesis Hroot : in_table df nm (root_node h) = false.

Lemma children_edge (c v : value) : In v (children_of df nm c) <-> edge df nm c v.
Proof.
  unfold children_of, edge. rewrite in_map_iff. split.
  - intros [r [Hv Hr]]. apply filter_In in Hr. destruct Hr as [Hr Hc].
    apply value_eqb_eq in Hc. eauto.
  - intros [r [Hr [Hc Hv]]]. exists r. split; [exact Hv|].
    apply filter_In. split; [exact Hr|]. now apply value_eqb_eq.
Qed.

Lemma children_NoDup (c : value) : NoDup (children_of df nm c).
Proof.
  unfold children_of. apply filtered_keys_NoDup.
  apply has_duplicates_NoDup.
  apply (init_no_duplicates df nm root h Hinit).
Qed.

Lemma path_shape (k : value) (p : list value) :
  stored_path h k = Some p ->
  exists q, p = root_node h :: q ++ [k].
Proof.
  intro Hp.
  destruct (stored_path_level _ _ _ _ _ _ Hinit Hlev Hkp Hp)
    as [_ [_ [[q [Hq _]] _]]].
  eauto.
Qed.

(** The path of a child is the path of its parent and the child. *)
Lemma path_of_child (c v : value) (pc : list value) :
  stored_path h c = Some pc -> edge df nm c v ->
  stored_path h v = Some (pc ++ [v]).
Proof.
  intros Hc He.
  destruct (child_path df nm root h Hinit Hlev Hkp Hroot c v He) as [A HA].
  destruct (path_shape v _ HA) as [q Hq].
  destruct A as [|x A].
  - cbn [app] in Hq. injection Hq as Ec _. subst c.
    rewrite (root_has_no_path df nm root h Hinit Hlev Hkp) in Hc. discriminate.
  - cbn [app] in Hq. injection Hq as Ex _. subst x.
    pose proof (stored_path_prefix df nm root h Hinit Hlev Hkp v A [v] c HA) as Hc'.
    rewrite Hc in Hc'. inversion Hc' as [Epc].
    rewrite HA. f_equal. cbn [app]. now rewrite <- app_assoc.
Qed.

(** A node in the subtree of a child of [c] has a path that goes through
    [c] and then that child. *)
Lemma subtree_via_child (c v k : value) (pc : list value) :
  stored_path h c = Some pc -> edge df nm c v -> in_subtree h v k = true ->
  exists b, stored_path h k = Some (pc ++ v :: b).
Proof.
  intros Hc He Hin. unfold in_subtree in Hin.
  destruct (stored_path h k) as [p|] eqn:Hp; [|discriminate].
  apply mem_value_In in Hin.
  destruct (path_shape k p Hp) as [q Hq]. subst p. cbn [tl] in Hin.
  apply in_split in Hin. destruct Hin as [a [b Hab]].
  rewrite Hab in Hp.
  pose proof (stored_path_prefix df nm root h Hinit Hlev Hkp k a b v Hp) as Hv.
  rewrite (path_of_child c v pc Hc He) in Hv. inversion Hv as [Epc].
  change (root_node h :: a ++ [v]) with ((root_node h :: a) ++ [v]) in Epc.
  apply app_inj_tail in Epc. destruct Epc as [Epc _].
  exists b. rewrite Hab. f_equal. now rewrite Epc.
Qed.

Lemma in_own_subtree (c : value) (pc : list value) :
  stored_path h c = Some pc -> in_subtree h c c = true.
Proof.
  intro Hc. unfold in_subtree. rewrite Hc.
  destruct (path_shape c pc Hc) as [q ->]. cbn [tl].
  apply mem_value_In. apply in_or_app. right. now left.
Qed.

Lemma in_subtree_of_prefix (c k : value) (pc b : list value) :
  stored_path h c = Some pc -> stored_path h k = Some (pc ++ b) ->
  in_subtree h c k = true.
Proof.
  intros Hc Hk. unfold in_subtree. rewrite Hk.
  destruct (path_shape c pc Hc) as [q ->]. cbn [app tl].
  apply mem_value_In. apply in_or_app. left. apply in_or_app. right. now left.
Qed.

(** A node lies in the subtree of [c] when it is [c] or lies in the
    subtree of one child of [c], and then of one only. *)
Lemma subtree_split (c k : value) (pc : list value) :
  stored_path h c = Some pc ->
  (if in_subtree h c k then 1 else 0)
  = (if value_eqb k c then 1 else 0)
    + length (filter (fun v => in_subtree h v k) (children_of df nm c)).
Proof.
  intro Hc.
  destruct (value_eqb k c) eqn:Ekc.
  - apply value_eqb_eq in Ekc. subst k. rewrite (in_own_subtree c pc Hc).
    rewrite filter_none; [reflexivity|].
    intros v Hv. destruct (in_subtree h v c) eqn:Ev; [|reflexivity].
    apply children_edge in Hv.
    destruct (subtree_via_child c v c pc Hc Hv Ev) as [b Hb].
    rewrite Hc in Hb. inversion Hb as [Eb].
    apply (f_equal (@length value)) in Eb. rewrite length_app in Eb.
    cbn [length] in Eb. lia.
  - destruct (in_subtree h c k) eqn:Ein.
    + (* the path of k goes on after c *)
      pose proof Ein as Ein'. unfold in_subtree in Ein'.
      destruct (stored_path h k) as [p|] eqn:Hp; [|discriminate].
      apply mem_value_In in Ein'.
      destruct (path_shape k p Hp) as [q Hq]. subst p. cbn [tl] in Ein'.
      apply in_split in Ein'. destruct Ein' as [a [b Hab]].
      rewrite Hab in Hp.
      pose proof (stored_path_prefix df nm root h Hinit Hlev Hkp k a b c Hp) as Hc'.
      rewrite Hc in Hc'. inversion Hc' as [Epc].
      destruct b as [|v b].
      { exfalso. apply app_inj_tail in Hab. destruct Hab as [_ Hab].
        subst k. now rewrite value_eqb_refl in Ekc. }
      assert (Hk : stored_path h k = Some (pc ++ v :: b)).
      { rewrite Hp, Epc. f_equal. cbn [app]. now rewrite <- app_assoc. }
      assert (He : edge df nm c v).
      { destruct (stored_path_level _ _ _ _ _ _ Hinit Hlev Hkp Hp) as [_ [_ [_ Hw]]].
        apply (walk_consecutive (edge df nm) (root_node h :: a) c v b). exact Hw. }
      cbn [Nat.add]. symmetry. apply (count_one _ _ v).
      * apply children_NoDup.
      * now apply children_edge.
      * apply (in_subtree_of_prefix v k (pc ++ [v]) b).
        -- now apply (path_of_child c v pc).
        -- rewrite Hk. f_equal. now rewrite <- app_assoc.
      * intros v' Hv' Ev'. apply children_edge in Hv'.
        destruct (subtree_via_child c v' k pc Hc Hv' Ev') as [b' Hb'].
        rewrite Hk in Hb'. inversion Hb' as [Eb].
        apply app_inv_head in Eb. now inversion Eb.
    + rewrite filter_none; [reflexivity|].
      intros v Hv. destruct (in_subtree h v k) eqn:Ev; [|reflexivity].
      apply children_edge in Hv.
      destruct (subtree_via_child c v k pc Hc Hv Ev) as [b Hb].
      rewrite (in_subtree_of_prefix c k pc (v :: b) Hc Hb) in Ein. discriminate.
Qed.
End Recursion.

(** X19. The roll-up is the recursive aggregate.  In a hierarchy built from
    a table that does not list the root as a node, the number of fact rows
    in the subtree of a node (the count that grouping the expanded rows
    puts at that node) is the number of fact rows on the node itself plus
    the sum of those numbers over its children. *)
Theorem subtree_count_is_own_plus_children
        (df : DataFrame) (nm : string) (root : option value) (h : Hierarchy)
        (facts : DataFrame) (c : value) :
  Hierarchy_init df nm root = Ok h ->
  has_column LEVEL_COL df = false ->
  keys_present df nm = true ->
  in_table df nm (root_node h) = false ->
  stored_path h c <> None ->
  subtree_count h facts c
  = own_count nm facts c
    + list_sum (map (subtree_count h facts) (children_of df nm c)).
Proof.
  intros Hinit Hlev Hkp Hroot Hc.
  destruct (stored_path h c) as [pc|] eqn:Hpc; [|congruence].
  unfold subtree_count, own_count. rewrite (init_name _ _ _ _ Hinit).
  rewrite <- (list_sum_indicator
                (fun f => in_subtree h c (get (name_col nm) f)) (data facts)).
  rewrite (map_ext _ (fun f => (if value_eqb (get (name_col nm) f) c then 1 else 0)
                               + length (filter (fun v => in_subtree h v
                                                            (get (name_col nm) f))
                                                (children_of df nm c)))).
  2:{ intro f.
      apply (subtree_split df nm root h Hinit Hlev Hkp Hroot c _ pc Hpc). }
  rewrite list_sum_add, list_sum_indicator. f_equal.
  apply (list_sum_swap (fun v f => in_subtree h v (get (name_col nm) f))).
Qed.

Lemma subtree_count_is_own_plus_children_witness :
  subtree_count org_h pers (VStr "12") = 4
  /\ own_count "oe" pers (VStr "12") = 1
  /\ map (subtree_count org_h pers) (children_of org "oe" (VStr "12")) = [0; 3; 0].
Proof.
  assert (Hinit : Hierarchy_init org "oe" (Some (VStr "0")) = Ok org_h)
    by (vm_compute; reflexivity).
  assert (Hp : stored_path org_h (VStr "12") <> None) by (vm_compute; discriminate).
  pose proof (subtree_count_is_own_plus_children
                org "oe" (Some (VStr "0")) org_h pers (VStr "12")
                Hinit eq_refl eq_refl eq_refl Hp) as H.
  assert (Ho : own_count "oe" pers (VStr "12") = 1) by (vm_compute; reflexivity).
  assert (Hs : map (subtree_count org_h pers) (children_of org "oe" (VStr "12"))
               = [0; 3; 0]) by (vm_compute; reflexivity).
  rewrite Ho, Hs in H. split; [exact H|]. split; [exact Ho|exact Hs].
Defined.

(** * Dropping the rows without parent *)

(** ** How the constructor ends, case by case *)

Lemma init_raises_repeated_key (df : DataFrame) (nm : string) (r : value) :
  In (name_col nm) (columns df) ->
  In (parent_col nm) (columns df) ->
  has_duplicates (column (name_col nm) df) = true ->
  Hierarchy_init df nm (Some r) = Raise ValueError.
Proof.
  intros Hn Hp Hd. unfold Hierarchy_init. cbn [bind].
  rewrite select_ok.
  2:{ intros c [<-|[]]. apply columns_add_ix. now left. }
  cbn [bind]. now rewrite (has_column_true _ _ Hn), (has_column_true _ _ Hp), Hd.
Qed.

(** A table that names nodes but not the root: the first node the loop
    meets is looked for from a source that is not in the graph. *)
Lemma init_raises_node_not_found (df : DataFrame) (nm : string) (r : value) :
  In (name_col nm) (columns df) ->
  In (parent_col nm) (columns df) ->
  has_duplicates (column (name_col nm) df) = false ->
  (exists u v, edge df nm u v) ->
  (forall u v, edge df nm u v -> u <> r /\ v <> r) ->
  Hierarchy_init df nm (Some r) = Raise NodeNotFound.
Proof.
  intros Hn Hp Hd [u0 [v0 He0]] Hnr.
  unfold Hierarchy_init. cbn [bind].
  rewrite select_ok.
  2:{ intros c [<-|[]]. apply columns_add_ix. now left. }
  cbn [bind]. rewrite (has_column_true _ _ Hn), (has_column_true _ _ Hp), Hd.
  cbn [andb negb].
  assert (HN : forall v,
             In v (nodes (from_pandas_edgelist (add_ix df) (parent_col nm) (name_col nm)))
             <-> exists u, edge df nm u v \/ edge df nm v u).
  { intro v. rewrite nodes_from_pandas_edgelist.
    split; intros [u Hu]; exists u; rewrite !edge_add_ix in *; auto. }
  assert (Hgp : _get_paths (add_ix df) nm r = Raise NodeNotFound).
  { unfold _get_paths.
    assert (Hrn : mem_value r (nodes (from_pandas_edgelist (add_ix df) (parent_col nm)
                                                           (name_col nm))) = false).
    { destruct (mem_value r _) eqn:E; [|reflexivity].
      apply mem_value_In in E. apply HN in E. destruct E as [u [E|E]].
      - destruct (Hnr u r E) as [_ N]. contradiction.
      - destruct (Hnr r u E) as [N _]. contradiction. }
    assert (Hv0 : In v0 (nodes (from_pandas_edgelist (add_ix df) (parent_col nm)
                                                     (name_col nm)))).
    { apply HN. exists u0. now left. }
    assert (Hall : forall k,
               In k (nodes (from_pandas_edgelist (add_ix df) (parent_col nm)
                                                 (name_col nm))) -> k <> r).
    { intros k Hk. apply HN in Hk. destruct Hk as [u [E|E]].
      - apply (Hnr u k E).
      - apply (Hnr k u E). }
    destruct (nodes (from_pandas_edgelist (add_ix df) (parent_col nm) (name_col nm)))
      as [|k ks] eqn:Hnodes; [destruct Hv0|].
    cbn [get_paths_loop].
    assert (Ek : value_eqb k r = false).
    { apply value_eqb_neq. apply Hall. now left. }
    rewrite Ek. cbn [negb]. unfold shortest_path. rewrite Hnodes, Hrn. reflexivity. }
  now rewrite Hgp.
Qed.

Lemma init_returns_on_tree (df : DataFrame) (nm : string) (r : value) :
  In (name_col nm) (columns df) ->
  In (parent_col nm) (columns df) ->
  has_duplicates (column (name_col nm) df) = false ->
  (forall u v, edge df nm u v -> u = r \/ reachable (edge df nm) r u) ->
  exists h, Hierarchy_init df nm (Some r) = Ok h /\ name h = nm /\ root_node h = r.
Proof.
  intros Hn Hp Hd Htree.
  destruct (_get_paths_succeeds df nm r Hn Hp Hd Htree) as [pl Hpl].
  assert (Hn1 : In (name_col nm) (columns (add_ix df)))
    by (apply columns_add_ix; now left).
  assert (Hn2 : In (name_col nm) (columns (make_levels_df nm (snd pl))))
    by now left.
  destruct (merge_left_ok (name_col nm) "_x" "_y" (add_ix df)
                          (make_levels_df nm (snd pl)) Hn1 Hn2) as [merged Hm].
  unfold Hierarchy_init. cbn [bind].
  rewrite select_ok.
  2:{ intros c [<-|[]]. exact Hn1. }
  cbn [bind]. rewrite (has_column_true _ _ Hn), (has_column_true _ _ Hp), Hd.
  cbn [andb negb]. rewrite Hpl. cbn [bind]. rewrite Hm. cbn [bind].
  eexists. split; [reflexivity|]. split; reflexivity.
Qed.

(** A parent key that is the key of no row, and not the root, cannot be
    reached from the root. *)
Lemma parent_without_row_is_cut_off (df : DataFrame) (nm : string) (r : value) (x : Row) :
  In x (data df) ->
  get (parent_col nm) x <> r ->
  (forall y, In y (data df) -> get (name_col nm) y <> get (parent_col nm) x) ->
  (exists u, edge df nm u (get (parent_col nm) x)
             \/ edge df nm (get (parent_col nm) x) u)
  /\ ~ reachable (edge df nm) r (get (parent_col nm) x).
Proof.
  intros Hx Hne Hno. split.
  - exists (get (name_col nm) x). right. exists x. auto.
  - intro Hr. destruct (reachable_has_parent _ _ _ Hr) as [w [y [Hy [_ Hk]]]].
    now apply (Hno y Hy).
Qed.

Lemma remaining_rows_columns (def : DataFrame) (nm c : string) (root : option value)
      (delim : string) (out : DataFrame) :
  structure_ok def nm c = true ->
  from_structure_parents def nm (OneField c) root delim = Ok out ->
  In (name_col nm) (columns (remaining_rows nm out))
  /\ In (parent_col nm) (columns (remaining_rows nm out)).
Proof.
  intros Hok Hout.
  change (columns (remaining_rows nm out)) with (columns out).
  rewrite (from_structure_parents_columns _ _ _ _ _ _ Hout).
  unfold structure_ok in Hok. rewrite !andb_true_iff in Hok.
  destruct Hok as [[[[Hn _] _] _] _].
  split; apply in_or_app; [left; now apply has_column_In|right; now left].
Qed.

(** ** The claim *)




(** ** The other two ways of raising, on tables *)

(** When the row without parent and its child are all there is, the child
    is the one row left and the root is nowhere in it. *)
Lemma orphans_only_raise_node_not_found :
  from_structure src_orphans_only "dept" (OneField "labels") (Some (VStr "0")) "|"
  = Raise NodeNotFound.
Proof. vm_compute. reflexivity. Qed.

(** A structural string that two rows have resolves to both keys, so the
    row under it comes twice, and its key repeats. *)
Lemma repeated_string_raises_value_error :
  from_structure src_repeated "dept" (OneField "labels") (Some (VStr "0")) "|"
  = Raise ValueError.
Proof. vm_compute. reflexivity. Qed.
